(** * ETL pipeline (people -> SQLite): shallow embedding and properties

    The embedding follows the Python sources file by file:
    - [Py]                : the built-in operations the pipeline calls
                            ([str.strip], [str.lower], [str.capitalize],
                            [str.title], [str.isalnum], [int], [strftime],
                            [isoformat]);
    - [Sqlite]            : the store: a [sqlite3] connection with its
                            transaction, the tables, and the SQL statements
                            the sources execute;
    - [IncrementalAudit]  : scr/etl_incremental_audit.py;
    - [Batch]             : scr/etl_batch.py;
    - [Relational]        : scr/etl_relational.py;
    - [Refactor]          : scr/etl_refactor.py and scr/etl_from_csv.py
                            (the same loader text in both files, and
                            their two [transform] functions).
    The vocabulary of the properties comes next, then the properties:
    the transformers, the connection, the tables, the insert loop, the
    loaders, idempotence, exit paths, run identifiers, the fresh store,
    the migration, the reachable states and the counters of a load;
    then more on the transformers (composition, agreement between the
    files, letter case, white space, idempotence), the city resolver, how
    a load ends, loaders against a table of the other generation, the
    city dimension, a folder of files, and the loaders of the first two
    generations.

    Scope of the model. Text is modelled on the ASCII range: a character
    outside it takes part as an uncased character that is neither a digit
    nor white space. An age is an integer without bound, as in Python; the
    ages loaded are taken to fit SQLite's 64-bit INTEGER. Console output
    and the CSV files are outside the model: the rows read and the clock
    readings are arguments. The connection behaves as the [sqlite3] module
    does since Python 3.6 with its default isolation level. *)

From Stdlib Require Import ZArith String Ascii List DecimalString DecimalZ
  Permutation.
From stdpp Require Import base decidable option list gmap strings.

Local Open Scope string_scope.
Local Open Scope Z_scope.
Local Open Scope list_scope.
Local Open Scope stdpp_scope.

(* ===================================================================== *)
(** ** Python built-ins used by the sources *)
(* ===================================================================== *)

Module Py.

Definition code (c : ascii) : N := N_of_ascii c.

Definition between (lo hi : N) (c : ascii) : bool :=
  (N.leb lo (code c) && N.leb (code c) hi)%bool.

Definition isupper (c : ascii) : bool := between 65 90 c.
Definition islower (c : ascii) : bool := between 97 122 c.
Definition isdigit (c : ascii) : bool := between 48 57 c.
Definition isalpha (c : ascii) : bool := (isupper c || islower c)%bool.
Definition isalnum (c : ascii) : bool := (isalpha c || isdigit c)%bool.

(** White space of [str.strip()]: TAB, LF, VT, FF, CR, FS, GS, RS, US and
    the blank. *)
Definition isspace (c : ascii) : bool :=
  (between 9 13 c || between 28 32 c)%bool.

(** White space skipped by [int(str)]: TAB..CR and the blank only. *)
Definition isspace_int (c : ascii) : bool :=
  (between 9 13 c || between 32 32 c)%bool.

Definition lower_char (c : ascii) : ascii :=
  if isupper c then ascii_of_N (code c + 32) else c.

Definition upper_char (c : ascii) : ascii :=
  if islower c then ascii_of_N (code c - 32) else c.

Fixpoint map_chars (f : ascii -> ascii) (s : string) : string :=
  match s with
  | EmptyString => EmptyString
  | String c s' => String (f c) (map_chars f s')
  end.

Fixpoint rev_onto (s acc : string) : string :=
  match s with
  | EmptyString => acc
  | String c s' => rev_onto s' (String c acc)
  end.

Definition reverse (s : string) : string := rev_onto s EmptyString.

Fixpoint lstrip_by (sp : ascii -> bool) (s : string) : string :=
  match s with
  | EmptyString => EmptyString
  | String c s' => if sp c then lstrip_by sp s' else s
  end.

Definition strip_by (sp : ascii -> bool) (s : string) : string :=
  reverse (lstrip_by sp (reverse (lstrip_by sp s))).

(** [s.strip()] *)
Definition strip (s : string) : string := strip_by isspace s.

(** [s.lower()] *)
Definition lower (s : string) : string := map_chars lower_char s.

(** [s.capitalize()]: first character upper-cased, the rest lower-cased. *)
Definition capitalize (s : string) : string :=
  match s with
  | EmptyString => EmptyString
  | String c s' => String (upper_char c) (lower s')
  end.

(** [s.title()]: a cased character is upper-cased when the character
    before it is uncased (or there is none), lower-cased otherwise. *)
Fixpoint title_from (previous_is_cased : bool) (s : string) : string :=
  match s with
  | EmptyString => EmptyString
  | String c s' =>
      String (if previous_is_cased then lower_char c else upper_char c)
             (title_from (isalpha c) s')
  end.

Definition title (s : string) : string := title_from false s.

Definition digit_value (c : ascii) : Z := Z.of_N (code c) - 48.

(** Digits of an [int] literal: single underscores are allowed between
    digits only. *)
Fixpoint parse_digits (acc : Z) (after_underscore : bool) (s : string)
  : option Z :=
  match s with
  | EmptyString => if after_underscore then None else Some acc
  | String c s' =>
      if isdigit c then parse_digits (10 * acc + digit_value c) false s'
      else if (Ascii.eqb c "_" && negb after_underscore)%bool
           then parse_digits acc true s'
           else None
  end.

Definition parse_unsigned (s : string) : option Z :=
  match s with
  | EmptyString => None
  | String c s' =>
      if isdigit c then parse_digits (digit_value c) false s' else None
  end.

(** [int(s)] for a [str] operand: [None] stands for [ValueError]. *)
Definition int (s : string) : option Z :=
  match strip_by isspace_int s with
  | String "+" s' => parse_unsigned s'
  | String "-" s' => Z.opp <$> parse_unsigned s'
  | s' => parse_unsigned s'
  end.

(** [str(n)] / [f"{n}"] for an [int]. *)
Definition str_of_int (n : Z) : string :=
  NilZero.string_of_int (Z.to_int n).

(** Zero-padded decimal field of [strftime] ([%Y] 4, [%m] 2, [%f] 6 ...). *)
Fixpoint pad_digits (width : nat) (n : N) : string :=
  match width with
  | O => EmptyString
  | S w =>
      pad_digits w (N.div n 10)
        +:+ String (ascii_of_N (48 + N.modulo n 10)) EmptyString
  end.

(** A reading of [datetime.now(timezone.utc)]. *)
Record datetime := {
  year : N; month : N; day : N;
  hour : N; minute : N; second : N; microsecond : N
}.

(** [t.strftime("%Y%m%dT%H%M%SZ")] *)
Definition strftime_seconds (t : datetime) : string :=
  pad_digits 4 (year t) +:+ pad_digits 2 (month t) +:+ pad_digits 2 (day t)
    +:+ "T" +:+ pad_digits 2 (hour t) +:+ pad_digits 2 (minute t)
    +:+ pad_digits 2 (second t) +:+ "Z".

(** [t.strftime("%Y%m%dT%H%M%S%fZ")] *)
Definition strftime_micros (t : datetime) : string :=
  pad_digits 4 (year t) +:+ pad_digits 2 (month t) +:+ pad_digits 2 (day t)
    +:+ "T" +:+ pad_digits 2 (hour t) +:+ pad_digits 2 (minute t)
    +:+ pad_digits 2 (second t) +:+ pad_digits 6 (microsecond t) +:+ "Z".

(** [t.isoformat()] of a UTC-aware reading: the fraction is printed only
    when it is not zero. *)
Definition isoformat (t : datetime) : string :=
  pad_digits 4 (year t) +:+ "-" +:+ pad_digits 2 (month t) +:+ "-"
    +:+ pad_digits 2 (day t) +:+ "T" +:+ pad_digits 2 (hour t) +:+ ":"
    +:+ pad_digits 2 (minute t) +:+ ":" +:+ pad_digits 2 (second t)
    +:+ (if N.eqb (microsecond t) 0 then ""
         else "." +:+ pad_digits 6 (microsecond t))
    +:+ "+00:00".

(** The exceptions the legacy transformers meet: a missing key, an age
    that does not parse, [int(None)], and a method called on [None]. *)
Inductive error :=
| KeyError
| ValueError
| TypeError
| AttributeError.

(** [row[k]] *)
Definition subscript (row : gmap string (option string)) (k : string)
  : error + option string :=
  match row !! k with
  | Some v => inr v
  | None => inl KeyError
  end.

(** The receiver of [.strip()]: [None] has no such method. *)
Definition receiver (v : option string) : error + string :=
  match v with
  | Some s => inr s
  | None => inl AttributeError
  end.

(** [int(v)] for a [str] or [None]. *)
Definition int_of (v : option string) : error + Z :=
  match v with
  | None => inl TypeError
  | Some s =>
      match int s with
      | Some n => inr n
      | None => inl ValueError
      end
  end.

Definition and_then {A B : Type} (m : error + A) (k : A -> error + B)
  : error + B :=
  match m with
  | inr a => k a
  | inl e => inl e
  end.

End Py.

(** A raw record is a [dict] from column name to a [str] or [None]
    ([csv.DictReader] fills a short row with [None]). *)
Abbreviation raw_record := (gmap string (option string)).

(** A canonical record [(nombre, edad, ciudad)]. *)
Abbreviation canonical := (string * Z * string)%type.

Definition required_cols : gset string := {[ "nombre"; "edad"; "ciudad" ]}.

(** [row.get(k)]: [None] when the key is absent or maps to [None]. *)
Definition dict_get (row : raw_record) (k : string) : option string :=
  mjoin (row !! k).

(** [row.get(k, "")]: the default only replaces an absent key. *)
Definition dict_get_default (row : raw_record) (k : string) : option string :=
  default (Some "") (row !! k).

(** [x if x is not None else ""] *)
Definition or_empty (v : option string) : string := default "" v.

(** The loop [for row in datos_crudos: ...] of both transformers: the body
    ends either in [rechazados.append(..); continue] or in
    [validos.append(..)]. *)
Definition accumulate {V R : Type} (body : raw_record -> V + R)
    (acc : list V * list R) (row : raw_record) : list V * list R :=
  match body row with
  | inl v => (fst acc ++ [v], snd acc)
  | inr r => (fst acc, snd acc ++ [r])
  end.

(* ===================================================================== *)
(** ** The store: a [sqlite3] connection and the statements executed on it *)
(* ===================================================================== *)

Module Sqlite.

Inductive exn :=
| OperationalError (msg : string)
| IntegrityError (msg : string)
| ProgrammingError (msg : string)
| TypeError (msg : string).

Inductive outcome (A : Type) :=
| Returned (a : A)
| Raised (e : exn).
Arguments Returned {A} a.
Arguments Raised {A} e.

(** A connection holds the durable contents of the database file, the
    contents as seen inside the open transaction (if one is open) and
    whether [close()] has been called. *)
Record connection (S : Type) := {
  db : S;
  txn : option S;
  is_open : bool
}.
Arguments db {S} c.
Arguments txn {S} c.
Arguments is_open {S} c.

(** Code running against a connection: it returns or raises, and leaves
    the connection in some state either way. *)
Definition M (S A : Type) : Type := connection S -> outcome A * connection S.

(** One SQL statement: it either fails and changes nothing, or yields its
    result and the new contents. *)
Definition statement (S A : Type) : Type := S -> outcome (A * S).

Section Connection.
Context {S : Type}.

(** [sqlite3.connect(path)] on a file with contents [s]. *)
Definition connect (s : S) : connection S :=
  {| db := s; txn := None; is_open := true |}.

(** What a statement run on the connection sees. *)
Definition view (c : connection S) : S := default (db c) (txn c).

(** The implicit [BEGIN] issued before an [INSERT]. *)
Definition begin (c : connection S) : connection S :=
  {| db := db c; txn := Some (view c); is_open := is_open c |}.

(** Outside a transaction a statement commits by itself. *)
Definition set_view (c : connection S) (s : S) : connection S :=
  match txn c with
  | Some _ => {| db := db c; txn := Some s; is_open := is_open c |}
  | None => {| db := s; txn := None; is_open := is_open c |}
  end.

Definition closed_error : exn :=
  ProgrammingError "Cannot operate on a closed database.".

(** [cursor.execute(...)]. [writes] is set for [INSERT] statements: the
    module opens a transaction before running them, and none before a
    [CREATE], [DROP], [ALTER], [SELECT] or [PRAGMA]. A statement that does
    not compile ([OperationalError]) opens none; one that fails while it
    runs ([IntegrityError]) leaves the transaction open. *)
Definition execute {A : Type} (writes : bool) (q : statement S A) : M S A :=
  fun c =>
    if is_open c then
      match q (view c) with
      | Returned (a, s') =>
          (Returned a, set_view (if writes then begin c else c) s')
      | Raised (IntegrityError msg) =>
          (Raised (IntegrityError msg), if writes then begin c else c)
      | Raised e => (Raised e, c)
      end
    else (Raised closed_error, c).

(** [conn.commit()] *)
Definition commit : M S unit :=
  fun c =>
    if is_open c
    then (Returned tt, {| db := view c; txn := None; is_open := true |})
    else (Raised closed_error, c).

(** [conn.close()]: an open transaction is rolled back. *)
Definition close : M S unit :=
  fun c => (Returned tt, {| db := db c; txn := None; is_open := false |}).

Definition ret {A : Type} (a : A) : M S A := fun c => (Returned a, c).

Definition raise {A : Type} (e : exn) : M S A := fun c => (Raised e, c).

Definition bind {A B : Type} (m : M S A) (k : A -> M S B) : M S B :=
  fun c =>
    match m c with
    | (Returned a, c') => k a c'
    | (Raised e, c') => (Raised e, c')
    end.

(** [for x in l: body(x)] *)
Fixpoint for_each {A : Type} (body : A -> M S unit) (l : list A) : M S unit :=
  match l with
  | [] => ret tt
  | x :: l' => bind (body x) (fun _ => for_each body l')
  end.

End Connection.

Declare Scope conn_scope.
Delimit Scope conn_scope with conn.
Notation "'let*' x := m 'in' k" := (bind m (fun x => k))
  (at level 10, x name, m at level 100, k at level 200) : conn_scope.
Notation "m ;;; k" := (bind m (fun _ => k))
  (at level 100, k at level 200, right associativity) : conn_scope.

(** *** Tables *)

(** A table with an [INTEGER PRIMARY KEY AUTOINCREMENT] column: its rows,
    and the largest key ever handed out ([sqlite_sequence]). *)
Record table (A : Type) := {
  rows : list A;
  seq : Z
}.
Arguments rows {A} t.
Arguments seq {A} t.

Definition empty_table {A : Type} : table A := {| rows := []; seq := 0 |}.

Section Table.
Context {A K : Type} `{EqDecision K}.
Variable pk : A -> Z.     (* the primary key column *)
Variable uk : A -> K.     (* the columns of the UNIQUE constraint *)

Definition max_rowid (t : table A) : Z := foldr Z.max 0 (pk <$> rows t).

(** The key AUTOINCREMENT picks for a row inserted without one. *)
Definition next_rowid (t : table A) : Z :=
  1 + Z.max (seq t) (max_rowid t).

Definition conflicts (r : A) (t : table A) : bool :=
  existsb (fun r' => bool_decide (pk r' = pk r \/ uk r' = uk r)) (rows t).

(** [INSERT OR IGNORE] of one row: a row that violates the primary key
    or the UNIQUE constraint is skipped; the sequence moves on even
    then. *)
Definition insert_or_ignore (r : A) (t : table A) : table A :=
  {| rows := if conflicts r t then rows t else rows t ++ [r];
     seq := Z.max (seq t) (pk r) |}.

(** The same for a row whose key the table chooses. *)
Definition insert_or_ignore_auto (mk : Z -> A) (t : table A) : table A :=
  insert_or_ignore (mk (next_rowid t)) t.

(** An insert skipped for a NOT NULL violation still uses up a key. *)
Definition skip_insert (t : table A) : table A :=
  {| rows := rows t; seq := next_rowid t |}.
End Table.

(** *** Schema of datos_etl_relacional.db *)

(** [ciudades(ciudad_id, nombre UNIQUE)] *)
Record ciudad := {
  c_ciudad_id : Z;
  c_nombre : string
}.

(** [personas_limpias] as etl_relational.py creates it. *)
Record persona_rel := {
  r_persona_id : Z;
  r_nombre : string;
  r_edad : Z;
  r_ciudad_id : Z
}.

(** [personas_limpias] with the audit columns. *)
Record persona := {
  persona_id : Z;
  nombre : string;
  edad : Z;
  ciudad_id : Z;
  processed_at : string;
  run_id : string
}.

Record etl_run := {
  er_run_id : string;
  started_at : string;
  source_file : string;
  valid_count : Z;
  rejected_count : Z;
  inserted_new : Z;
  ignored_duplicates : Z
}.

Inductive personas_table :=
| Relational (t : table persona_rel)
| Audited (t : table persona).

(** Every table is absent ([None]) until it is created. *)
Record store := {
  ciudades : option (table ciudad);
  personas_limpias : option personas_table;
  personas_limpias_new : option (table persona);
  etl_runs : option (list etl_run)
}.

Definition empty_store : store :=
  {| ciudades := None; personas_limpias := None;
     personas_limpias_new := None; etl_runs := None |}.

Definition set_ciudades (v : option (table ciudad)) (s : store) : store :=
  {| ciudades := v; personas_limpias := personas_limpias s;
     personas_limpias_new := personas_limpias_new s; etl_runs := etl_runs s |}.

Definition set_personas_limpias (v : option personas_table) (s : store) : store :=
  {| ciudades := ciudades s; personas_limpias := v;
     personas_limpias_new := personas_limpias_new s; etl_runs := etl_runs s |}.

Definition set_personas_limpias_new (v : option (table persona)) (s : store)
  : store :=
  {| ciudades := ciudades s; personas_limpias := personas_limpias s;
     personas_limpias_new := v; etl_runs := etl_runs s |}.

Definition set_etl_runs (v : option (list etl_run)) (s : store) : store :=
  {| ciudades := ciudades s; personas_limpias := personas_limpias s;
     personas_limpias_new := personas_limpias_new s; etl_runs := v |}.

(** The columns of [UNIQUE(nombre, edad, ciudad_id)]. *)
Definition persona_key (p : persona) : string * Z * Z :=
  (nombre p, edad p, ciudad_id p).

Definition persona_rel_key (p : persona_rel) : string * Z * Z :=
  (r_nombre p, r_edad p, r_ciudad_id p).

(** The [(nombre, edad, ciudad_id)] triples of the Person table, whatever
    its generation. *)
Definition person_keys (t : personas_table) : list (string * Z * Z) :=
  match t with
  | Relational t => persona_rel_key <$> rows t
  | Audited t => persona_key <$> rows t
  end.

Definition person_ids (t : personas_table) : list Z :=
  match t with
  | Relational t => r_persona_id <$> rows t
  | Audited t => persona_id <$> rows t
  end.

(** The row-level effect of the three [INSERT OR IGNORE ... VALUES]
    statements of the loaders, and of the city lookup. *)
Definition add_ciudad (name : string) (t : table ciudad) : table ciudad :=
  insert_or_ignore_auto c_ciudad_id c_nombre
    (fun i => {| c_ciudad_id := i; c_nombre := name |}) t.

Definition find_ciudad_id (name : string) (t : table ciudad) : option Z :=
  c_ciudad_id <$> find (fun c => bool_decide (c_nombre c = name)) (rows t).

Definition add_persona (n : string) (e cid : Z) (pa rid : string)
    (t : table persona) : table persona :=
  insert_or_ignore_auto persona_id persona_key
    (fun i => {| persona_id := i; nombre := n; edad := e; ciudad_id := cid;
                 processed_at := pa; run_id := rid |}) t.

Definition add_persona_rel (n : string) (e cid : Z) (t : table persona_rel)
  : table persona_rel :=
  insert_or_ignore_auto r_persona_id persona_rel_key
    (fun i => {| r_persona_id := i; r_nombre := n; r_edad := e;
                 r_ciudad_id := cid |}) t.

Definition no_such_table (name : string) : exn :=
  OperationalError ("no such table: " +:+ name).

Definition no_such_column (table column : string) : exn :=
  OperationalError ("table " +:+ table +:+ " has no column named " +:+ column).

(** *** Statements *)

(** [CREATE TABLE IF NOT EXISTS ciudades (...)] *)
Definition create_ciudades : statement store unit :=
  fun s =>
    match ciudades s with
    | Some _ => Returned (tt, s)
    | None => Returned (tt, set_ciudades (Some empty_table) s)
    end.

(** [CREATE TABLE IF NOT EXISTS personas_limpias (...)] with the audit
    columns. *)
Definition create_personas_limpias : statement store unit :=
  fun s =>
    match personas_limpias s with
    | Some _ => Returned (tt, s)
    | None => Returned (tt, set_personas_limpias (Some (Audited empty_table)) s)
    end.

(** The same statement as etl_relational.py writes it, without them. *)
Definition create_personas_limpias_rel : statement store unit :=
  fun s =>
    match personas_limpias s with
    | Some _ => Returned (tt, s)
    | None =>
        Returned (tt, set_personas_limpias (Some (Relational empty_table)) s)
    end.

(** [CREATE TABLE IF NOT EXISTS personas_limpias_new (...)] *)
Definition create_personas_limpias_new : statement store unit :=
  fun s =>
    match personas_limpias_new s with
    | Some _ => Returned (tt, s)
    | None => Returned (tt, set_personas_limpias_new (Some empty_table) s)
    end.

(** [CREATE TABLE IF NOT EXISTS etl_runs (...)] *)
Definition create_etl_runs : statement store unit :=
  fun s =>
    match etl_runs s with
    | Some _ => Returned (tt, s)
    | None => Returned (tt, set_etl_runs (Some []) s)
    end.

Definition ciudad_columns : list string := ["ciudad_id"; "nombre"].
Definition persona_rel_columns : list string :=
  ["persona_id"; "nombre"; "edad"; "ciudad_id"].
Definition persona_columns : list string :=
  ["persona_id"; "nombre"; "edad"; "ciudad_id"; "processed_at"; "run_id"].
Definition etl_run_columns : list string :=
  ["run_id"; "started_at"; "source_file"; "valid_count"; "rejected_count";
   "inserted_new"; "ignored_duplicates"].

(** [PRAGMA table_info(name)], column names only; no rows for a table
    that does not exist. *)
Definition table_info (name : string) : statement store (list string) :=
  fun s =>
    let cols :=
      if String.eqb name "ciudades" then
        match ciudades s with Some _ => ciudad_columns | None => [] end
      else if String.eqb name "personas_limpias" then
        match personas_limpias s with
        | Some (Relational _) => persona_rel_columns
        | Some (Audited _) => persona_columns
        | None => []
        end
      else if String.eqb name "personas_limpias_new" then
        match personas_limpias_new s with
        | Some _ => persona_columns
        | None => []
        end
      else if String.eqb name "etl_runs" then
        match etl_runs s with Some _ => etl_run_columns | None => [] end
      else []
    in Returned (cols, s).

(** [SELECT name FROM sqlite_master WHERE type='table' AND
    name='personas_limpias'], then [fetchone() is not None]. *)
Definition personas_limpias_exists : statement store bool :=
  fun s => Returned (bool_decide (is_Some (personas_limpias s)), s).

(** [INSERT OR IGNORE INTO ciudades (nombre) VALUES (?)] *)
Definition insert_ciudad (ciudad : string) : statement store unit :=
  fun s =>
    match ciudades s with
    | None => Raised (no_such_table "ciudades")
    | Some t =>
        Returned (tt, set_ciudades (Some (add_ciudad ciudad t)) s)
    end.

(** [SELECT ciudad_id FROM ciudades WHERE nombre = ?], then [fetchone()]. *)
Definition select_ciudad_id (ciudad : string) : statement store (option Z) :=
  fun s =>
    match ciudades s with
    | None => Raised (no_such_table "ciudades")
    | Some t =>
        Returned (find_ciudad_id ciudad t, s)
    end.

(** [INSERT OR IGNORE INTO personas_limpias (nombre, edad, ciudad_id,
    processed_at, run_id) VALUES (?, ?, ?, ?, ?)] *)
Definition insert_persona (n : string) (e cid : Z) (pa rid : string)
  : statement store unit :=
  fun s =>
    match personas_limpias s with
    | None => Raised (no_such_table "personas_limpias")
    | Some (Relational _) =>
        Raised (no_such_column "personas_limpias" "processed_at")
    | Some (Audited t) =>
        Returned (tt,
          set_personas_limpias (Some (Audited (add_persona n e cid pa rid t))) s)
    end.

(** [INSERT OR IGNORE INTO personas_limpias (nombre, edad, ciudad_id)
    VALUES (?, ?, ?)]: on a table with the audit columns the row lacks
    two NOT NULL values and is skipped. *)
Definition insert_persona_rel (n : string) (e cid : Z) : statement store unit :=
  fun s =>
    match personas_limpias s with
    | None => Raised (no_such_table "personas_limpias")
    | Some (Relational t) =>
        Returned (tt,
          set_personas_limpias (Some (Relational (add_persona_rel n e cid t))) s)
    | Some (Audited t) =>
        Returned (tt,
          set_personas_limpias (Some (Audited (skip_insert persona_id t))) s)
    end.

(** [SELECT COUNT( * ) FROM personas_limpias], then [fetchone()[0]]. *)
Definition count_personas : statement store Z :=
  fun s =>
    match personas_limpias s with
    | None => Raised (no_such_table "personas_limpias")
    | Some t => Returned (Z.of_nat (length (person_keys t)), s)
    end.

(** [INSERT INTO etl_runs (...) VALUES (?, ?, ?, ?, ?, ?, ?)]: [run_id]
    is the primary key and the insert is not an [OR IGNORE] one. *)
Definition insert_etl_run (r : etl_run) : statement store unit :=
  fun s =>
    match etl_runs s with
    | None => Raised (no_such_table "etl_runs")
    | Some runs =>
        if existsb (fun r' => String.eqb (er_run_id r') (er_run_id r)) runs
        then Raised (IntegrityError "UNIQUE constraint failed: etl_runs.run_id")
        else Returned (tt, set_etl_runs (Some (runs ++ [r])) s)
    end.

(** The rows [SELECT persona_id, nombre, edad, ciudad_id, ?, ? FROM
    personas_limpias] yields. *)
Definition select_with_defaults (pa rid : string) (t : personas_table)
  : list persona :=
  match t with
  | Relational t =>
      (fun r => {| persona_id := r_persona_id r; nombre := r_nombre r;
                   edad := r_edad r; ciudad_id := r_ciudad_id r;
                   processed_at := pa; run_id := rid |}) <$> rows t
  | Audited t =>
      (fun r => {| persona_id := persona_id r; nombre := nombre r;
                   edad := edad r; ciudad_id := ciudad_id r;
                   processed_at := pa; run_id := rid |}) <$> rows t
  end.

(** [INSERT OR IGNORE ... SELECT]: the selected rows are inserted one
    after the other. *)
Definition insert_all (selected : list persona) (t : table persona)
  : table persona :=
  foldl (fun t r => insert_or_ignore persona_id persona_key r t) t selected.

(** [INSERT OR IGNORE INTO personas_limpias_new (persona_id, nombre, edad,
    ciudad_id, processed_at, run_id) SELECT persona_id, nombre, edad,
    ciudad_id, ?, ? FROM personas_limpias] *)
Definition copy_into_personas_limpias_new (pa rid : string)
  : statement store unit :=
  fun s =>
    match personas_limpias_new s, personas_limpias s with
    | None, _ => Raised (no_such_table "personas_limpias_new")
    | _, None => Raised (no_such_table "personas_limpias")
    | Some new, Some old =>
        Returned (tt,
          set_personas_limpias_new
            (Some (insert_all (select_with_defaults pa rid old) new)) s)
    end.

(** [DROP TABLE personas_limpias] *)
Definition drop_personas_limpias : statement store unit :=
  fun s =>
    match personas_limpias s with
    | None => Raised (no_such_table "personas_limpias")
    | Some _ => Returned (tt, set_personas_limpias None s)
    end.

(** [ALTER TABLE personas_limpias_new RENAME TO personas_limpias] *)
Definition rename_personas_limpias_new : statement store unit :=
  fun s =>
    match personas_limpias_new s, personas_limpias s with
    | None, _ => Raised (no_such_table "personas_limpias_new")
    | Some _, Some _ =>
        Raised (OperationalError
                  "there is already another table or index with this name: personas_limpias")
    | Some t, None =>
        Returned (tt,
          set_personas_limpias (Some (Audited t))
            (set_personas_limpias_new None s))
    end.

End Sqlite.

(* ===================================================================== *)
(** ** scr/etl_incremental_audit.py *)
(* ===================================================================== *)

Module IncrementalAudit.
Import Sqlite.
Local Open Scope conn_scope.

(** The dict literal [{"nombre": n, "edad": e, "ciudad": c, "motivo": m}]. *)
Definition rejected_row (n e c : option string) (motivo : string) : raw_record :=
  <["nombre" := n]> (<["edad" := e]> (<["ciudad" := c]>
    (<["motivo" := Some motivo]> ∅))).

(** The first [try] block: [strip().lower().capitalize()] on the name and
    [strip().lower().title()] on the city. [None] stands for its
    [except Exception] branch, which [str] operands never take. *)
Definition normalize_text (nombre_raw ciudad_raw : string)
  : option (string * string) :=
  Some (Py.capitalize (Py.lower (Py.strip nombre_raw)),
        Py.title (Py.lower (Py.strip ciudad_raw))).

(** The body of the loop of [transform_with_rejections]. *)
Definition transform_row (edad_min : Z) (row : raw_record)
  : canonical + raw_record :=
  if negb (bool_decide (required_cols ⊆ dom row)) then
    inr (rejected_row (dict_get_default row "nombre")
                      (dict_get_default row "edad")
                      (dict_get_default row "ciudad")
                      "Faltan columnas requeridas")
  else
    let nombre_raw := dict_get row "nombre" in
    let edad_raw := dict_get row "edad" in
    let ciudad_raw := dict_get row "ciudad" in
    match nombre_raw, edad_raw, ciudad_raw with
    | Some nombre_raw, Some edad_raw, Some ciudad_raw =>
        match normalize_text nombre_raw ciudad_raw with
        | None =>
            inr (rejected_row (Some nombre_raw) (Some edad_raw)
                              (Some ciudad_raw) "Error al normalizar texto")
        | Some (nombre, ciudad) =>
            match Py.int edad_raw with
            | None =>
                inr (rejected_row (Some nombre_raw) (Some edad_raw)
                                  (Some ciudad_raw) "Edad no convertible a int")
            | Some edad =>
                if edad <? edad_min then
                  inr (rejected_row (Some nombre_raw) (Some edad_raw)
                                    (Some ciudad_raw)
                                    ("Edad < " +:+ Py.str_of_int edad_min))
                else inl (nombre, edad, ciudad)
            end
        end
    | _, _, _ =>
        inr (rejected_row (Some (or_empty nombre_raw))
                          (Some (or_empty edad_raw))
                          (Some (or_empty ciudad_raw))
                          "Valor None en campo requerido")
    end.

Definition transform_with_rejections (datos_crudos : list raw_record)
    (edad_min : Z) : list canonical * list raw_record :=
  foldl (accumulate (transform_row edad_min)) ([], []) datos_crudos.

Definition ensure_ciudades : M store unit := execute false create_ciudades.

Definition table_has_column (table column : string) : M store bool :=
  let* cols := execute false (table_info table) in
  ret (bool_decide (column ∈ cols)).

Definition default_processed_at : string := "1970-01-01T00:00:00Z".
Definition default_run_id : string := "MIGRATION".

Definition migrate_personas_limpias_if_needed : M store unit :=
  let* exists_ := execute false personas_limpias_exists in
  if negb exists_ then ret tt
  else
    let* has_processed_at := table_has_column "personas_limpias" "processed_at" in
    let* has_both :=
      (if has_processed_at
       then table_has_column "personas_limpias" "run_id"
       else ret false) in
    if has_both then ret tt
    else
      execute false create_personas_limpias_new ;;;
      execute true
        (copy_into_personas_limpias_new default_processed_at default_run_id) ;;;
      execute false drop_personas_limpias ;;;
      execute false rename_personas_limpias_new.

Definition ensure_personas_limpias : M store unit :=
  execute false create_personas_limpias.

Definition ensure_etl_runs : M store unit := execute false create_etl_runs.

Definition get_or_create_city_id (ciudad : string) : M store Z :=
  execute true (insert_ciudad ciudad) ;;;
  let* fetched := execute false (select_ciudad_id ciudad) in
  match fetched with
  | Some id => ret id
  | None => raise (TypeError "'NoneType' object is not subscriptable")
  end.

(** [load_incremental(db_path, source_file, validos, rejected_count)] on
    a database file whose contents are [disk]; the three readings are
    those of its three calls of [datetime.now]. The result is how the
    call ends and the state it leaves the connection in. Console output
    and the read-only preview query are left out. *)
Definition load_incremental (disk : store)
    (now_started now_run now_processed : Py.datetime)
    (source : string) (validos : list canonical) (rejected : Z)
  : outcome unit * connection store :=
  (ensure_ciudades ;;;
   migrate_personas_limpias_if_needed ;;;
   ensure_personas_limpias ;;;
   ensure_etl_runs ;;;
   let the_started_at := Py.isoformat now_started in
   let the_run_id := Py.strftime_seconds now_run in
   let the_processed_at := Py.isoformat now_processed in
   let* before := execute false count_personas in
   for_each
     (fun v : canonical =>
        let '(nombre, edad, ciudad) := v in
        let* the_ciudad_id := get_or_create_city_id ciudad in
        execute true
          (insert_persona nombre edad the_ciudad_id the_processed_at the_run_id))
     validos ;;;
   commit ;;;
   let* after := execute false count_personas in
   let the_inserted_new := after - before in
   let the_ignored_duplicates := Z.of_nat (length validos) - the_inserted_new in
   execute true
     (insert_etl_run
        {| er_run_id := the_run_id; started_at := the_started_at;
           source_file := source;
           valid_count := Z.of_nat (length validos);
           rejected_count := rejected;
           inserted_new := the_inserted_new;
           ignored_duplicates := the_ignored_duplicates |}) ;;;
   commit ;;;
   close) (connect disk).

(** [main()], with the rows read from the CSV file as an argument. *)
Definition main (disk : store) (now_started now_run now_processed : Py.datetime)
    (datos_crudos : list raw_record) : outcome unit * connection store :=
  let '(validos, rechazados) := transform_with_rejections datos_crudos 25 in
  load_incremental disk now_started now_run now_processed
    "personas_crudas.csv" validos (Z.of_nat (length rechazados)).

End IncrementalAudit.

(* ===================================================================== *)
(** ** scr/etl_batch.py *)
(* ===================================================================== *)

Module Batch.
Import Sqlite.
Local Open Scope conn_scope.

Definition EDAD_MIN : Z := 25.

Definition make_run_id (now : Py.datetime) (source_file : string) : string :=
  let ts := Py.strftime_micros now in
  let safe :=
    Py.map_chars (fun ch => if Py.isalnum ch then ch else "_"%char) source_file in
  ts +:+ "_" +:+ safe.

(** [{**row, "motivo": m}] *)
Definition with_motivo (row : raw_record) (motivo : string) : raw_record :=
  <["motivo" := Some motivo]> row.

(** The [try] block: [row[k]] of a [None] value has no [strip], and [int]
    of [None] is a [TypeError]; every failure takes the same branch. *)
Definition normalize_row (row : raw_record) : option canonical :=
  nombre_raw ← dict_get row "nombre";
  let nombre := Py.capitalize (Py.lower (Py.strip nombre_raw)) in
  ciudad_raw ← dict_get row "ciudad";
  let ciudad := Py.title (Py.lower (Py.strip ciudad_raw)) in
  edad_raw ← dict_get row "edad";
  edad ← Py.int edad_raw;
  Some (nombre, edad, ciudad).

Definition transform_row (edad_min : Z) (row : raw_record)
  : canonical + raw_record :=
  if negb (bool_decide (required_cols ⊆ dom row)) then
    inr (with_motivo row "Faltan columnas")
  else
    match normalize_row row with
    | None => inr (with_motivo row "Normalización o tipo inválido")
    | Some (nombre, edad, ciudad) =>
        if edad <? edad_min
        then inr (with_motivo row ("Edad < " +:+ Py.str_of_int edad_min))
        else inl (nombre, edad, ciudad)
    end.

Definition transform_with_rejections (datos_crudos : list raw_record)
    (edad_min : Z) : list canonical * list raw_record :=
  foldl (accumulate (transform_row edad_min)) ([], []) datos_crudos.

Definition ensure_schema : M store unit :=
  execute false create_ciudades ;;;
  execute false create_personas_limpias ;;;
  execute false create_etl_runs.

Definition get_or_create_city_id (ciudad : string) : M store Z :=
  execute true (insert_ciudad ciudad) ;;;
  let* fetched := execute false (select_ciudad_id ciudad) in
  match fetched with
  | Some id => ret id
  | None => raise (TypeError "'NoneType' object is not subscriptable")
  end.

(** [load_batch(conn, source_file, validos, rejected_count)]: the
    connection is the caller's; the two readings are those of
    [make_run_id] and of [started_at]. *)
Definition load_batch (now_run now_started : Py.datetime)
    (source : string) (validos : list canonical) (rejected : Z)
  : M store unit :=
  ensure_schema ;;;
  let the_run_id := make_run_id now_run source in
  let the_started_at := Py.isoformat now_started in
  let the_processed_at := the_started_at in
  let* before := execute false count_personas in
  for_each
    (fun v : canonical =>
       let '(nombre, edad, ciudad) := v in
       let* the_ciudad_id := get_or_create_city_id ciudad in
       execute true
         (insert_persona nombre edad the_ciudad_id the_processed_at the_run_id))
    validos ;;;
  commit ;;;
  let* after := execute false count_personas in
  let the_inserted_new := after - before in
  let ignored := Z.of_nat (length validos) - the_inserted_new in
  execute true
    (insert_etl_run
       {| er_run_id := the_run_id; started_at := the_started_at;
          source_file := source;
          valid_count := Z.of_nat (length validos);
          rejected_count := rejected;
          inserted_new := the_inserted_new;
          ignored_duplicates := ignored |}) ;;;
  commit.

(** One CSV file of the input folder: its name, its rows, and the two
    clock readings taken while it is loaded. *)
Record archivo := {
  a_name : string;
  a_datos : list raw_record;
  a_now_run : Py.datetime;
  a_now_started : Py.datetime
}.

(** [main()]: no connection is made when the folder holds no file. *)
Definition main (disk : store) (archivos : list archivo)
  : outcome unit * option (connection store) :=
  match archivos with
  | [] => (Returned tt, None)
  | _ =>
      let '(r, c) :=
        (for_each
           (fun f =>
              let '(validos, rechazados) :=
                transform_with_rejections (a_datos f) EDAD_MIN in
              load_batch (a_now_run f) (a_now_started f) (a_name f) validos
                         (Z.of_nat (length rechazados)))
           archivos ;;;
         close) (connect disk) in
      (r, Some c)
  end.

End Batch.

(* ===================================================================== *)
(** ** scr/etl_relational.py *)
(* ===================================================================== *)

Module Relational.
Import Sqlite.
Local Open Scope conn_scope.

(** The text of [transform_with_rejections] in this file is that of
    etl_incremental_audit.py. *)
Definition transform_with_rejections :=
  IncrementalAudit.transform_with_rejections.

Definition ensure_schema : M store unit :=
  execute false create_ciudades ;;;
  execute false create_personas_limpias_rel.

Definition get_or_create_city_id (ciudad : string) : M store Z :=
  execute true (insert_ciudad ciudad) ;;;
  let* fetched := execute false (select_ciudad_id ciudad) in
  match fetched with
  | Some id => ret id
  | None => raise (TypeError "'NoneType' object is not subscriptable")
  end.

(** [load_relational(db_path, validos)]: nothing is opened for an empty
    batch. The read-only report queries are left out. *)
Definition load_relational (disk : store) (validos : list canonical)
  : outcome unit * option (connection store) :=
  match validos with
  | [] => (Returned tt, None)
  | _ =>
      let '(r, c) :=
        (ensure_schema ;;;
         let* antes := execute false count_personas in
         for_each
           (fun v : canonical =>
              let '(nombre, edad, ciudad) := v in
              let* the_ciudad_id := get_or_create_city_id ciudad in
              execute true (insert_persona_rel nombre edad the_ciudad_id))
           validos ;;;
         commit ;;;
         let* despues := execute false count_personas in
         close) (connect disk) in
      (r, Some c)
  end.

End Relational.

(* ===================================================================== *)
(** ** scr/etl_refactor.py and scr/etl_from_csv.py (datos_etl.db) *)
(* ===================================================================== *)

Module Refactor.
Import Sqlite.
Local Open Scope conn_scope.

(** [personas_limpias(id, nombre, edad, ciudad)] of the first pipeline
    generation: the city is kept as text. *)
Record persona := {
  id : Z;
  nombre : string;
  edad : Z;
  ciudad : string
}.

Record store := {
  personas_limpias : option (table persona);
  personas_limpias_new : option (table persona)
}.

Definition empty_store : store :=
  {| personas_limpias := None; personas_limpias_new := None |}.

Definition persona_key (p : persona) : canonical :=
  (nombre p, edad p, ciudad p).

Definition insert_row (v : canonical) (t : table persona) : table persona :=
  insert_or_ignore_auto id persona_key
    (fun i => {| id := i; nombre := v.1.1; edad := v.1.2; ciudad := v.2 |}) t.

(** [CREATE TABLE IF NOT EXISTS personas_limpias_new (...)] *)
Definition create_personas_limpias_new : statement store unit :=
  fun s =>
    match personas_limpias_new s with
    | Some _ => Returned (tt, s)
    | None =>
        Returned (tt, {| personas_limpias := personas_limpias s;
                         personas_limpias_new := Some empty_table |})
    end.

(** [INSERT OR IGNORE INTO personas_limpias_new (nombre, edad, ciudad)
    SELECT nombre, edad, ciudad FROM personas_limpias] *)
Definition copy_into_personas_limpias_new : statement store unit :=
  fun s =>
    match personas_limpias_new s, personas_limpias s with
    | None, _ => Raised (no_such_table "personas_limpias_new")
    | _, None => Raised (no_such_table "personas_limpias")
    | Some new, Some old =>
        Returned (tt,
          {| personas_limpias := personas_limpias s;
             personas_limpias_new :=
               Some (foldl (fun t r => insert_row (persona_key r) t)
                           new (rows old)) |})
    end.

(** [DROP TABLE IF EXISTS personas_limpias] *)
Definition drop_personas_limpias_if_exists : statement store unit :=
  fun s =>
    Returned (tt, {| personas_limpias := None;
                     personas_limpias_new := personas_limpias_new s |}).

(** [ALTER TABLE personas_limpias_new RENAME TO personas_limpias] *)
Definition rename_personas_limpias_new : statement store unit :=
  fun s =>
    match personas_limpias_new s, personas_limpias s with
    | None, _ => Raised (no_such_table "personas_limpias_new")
    | Some _, Some _ =>
        Raised (OperationalError
                  "there is already another table or index with this name: personas_limpias")
    | Some t, None =>
        Returned (tt, {| personas_limpias := Some t;
                         personas_limpias_new := None |})
    end.

(** [INSERT OR IGNORE INTO personas_limpias (nombre, edad, ciudad)
    VALUES (?, ?, ?)] *)
Definition insert_persona (v : canonical) : statement store unit :=
  fun s =>
    match personas_limpias s with
    | None => Raised (no_such_table "personas_limpias")
    | Some t =>
        Returned (tt, {| personas_limpias := Some (insert_row v t);
                         personas_limpias_new := personas_limpias_new s |})
    end.

(** [SELECT COUNT( * ) FROM personas_limpias] *)
Definition count_personas : statement store Z :=
  fun s =>
    match personas_limpias s with
    | None => Raised (no_such_table "personas_limpias")
    | Some t => Returned (Z.of_nat (length (rows t)), s)
    end.

Definition ensure_table_with_unique : M store unit :=
  execute false create_personas_limpias_new ;;;
  execute true copy_into_personas_limpias_new ;;;
  execute false drop_personas_limpias_if_exists ;;;
  execute false rename_personas_limpias_new.

(** [load(db_path, datos_limpios)]; [executemany] runs the insert once
    per tuple. *)
Definition load (disk : store) (datos_limpios : list canonical)
  : outcome unit * option (connection store) :=
  match datos_limpios with
  | [] => (Returned tt, None)
  | _ =>
      let '(r, c) :=
        (ensure_table_with_unique ;;;
         let* antes := execute false count_personas in
         for_each (fun v => execute true (insert_persona v)) datos_limpios ;;;
         commit ;;;
         let* despues := execute false count_personas in
         close) (connect disk) in
      (r, Some c)
  end.

(** [except (KeyError, ValueError, TypeError): continue] *)
Definition caught (e : Py.error) : bool :=
  match e with
  | Py.KeyError | Py.ValueError | Py.TypeError => true
  | Py.AttributeError => false
  end.

(** The [try] block of [transform] in etl_refactor.py: name, age, city, each
    looked up and converted in turn; [None] is the row the business rule
    filters out. *)
Definition try_row (edad_min : Z) (persona : raw_record)
  : Py.error + option canonical :=
  Py.and_then (Py.subscript persona "nombre") (fun v =>
  Py.and_then (Py.receiver v) (fun nombre_raw =>
  let nombre := Py.capitalize (Py.lower (Py.strip nombre_raw)) in
  Py.and_then (Py.subscript persona "edad") (fun v =>
  Py.and_then (Py.int_of v) (fun edad =>
  Py.and_then (Py.subscript persona "ciudad") (fun v =>
  Py.and_then (Py.receiver v) (fun ciudad_raw =>
  let ciudad := Py.title (Py.lower (Py.strip ciudad_raw)) in
  inr (if edad_min <=? edad then Some (nombre, edad, ciudad) else None))))))).

(** The same block in etl_from_csv.py: the three values are looked up
    first. *)
Definition try_row_from_csv (edad_min : Z) (persona : raw_record)
  : Py.error + option canonical :=
  Py.and_then (Py.subscript persona "nombre") (fun nombre_raw =>
  Py.and_then (Py.subscript persona "edad") (fun edad_raw =>
  Py.and_then (Py.subscript persona "ciudad") (fun ciudad_raw =>
  Py.and_then (Py.receiver nombre_raw) (fun nombre_raw =>
  let nombre := Py.capitalize (Py.lower (Py.strip nombre_raw)) in
  Py.and_then (Py.int_of edad_raw) (fun edad =>
  Py.and_then (Py.receiver ciudad_raw) (fun ciudad_raw =>
  let ciudad := Py.title (Py.lower (Py.strip ciudad_raw)) in
  inr (if edad_min <=? edad then Some (nombre, edad, ciudad) else None))))))).

(** The loop of [transform]: a caught exception skips the row, any other
    leaves the function. *)
Fixpoint transform_loop (body : raw_record -> Py.error + option canonical)
    (datos_limpios : list canonical) (datos_crudos : list raw_record)
  : Py.error + list canonical :=
  match datos_crudos with
  | [] => inr datos_limpios
  | persona :: rest =>
      match body persona with
      | inr (Some v) => transform_loop body (datos_limpios ++ [v]) rest
      | inr None => transform_loop body datos_limpios rest
      | inl e =>
          if caught e then transform_loop body datos_limpios rest else inl e
      end
  end.

(** [transform(datos_crudos, edad_min)] of etl_refactor.py *)
Definition transform (datos_crudos : list raw_record) (edad_min : Z)
  : Py.error + list canonical :=
  transform_loop (try_row edad_min) [] datos_crudos.

(** [transform(datos_crudos, edad_min)] of etl_from_csv.py *)
Definition transform_from_csv (datos_crudos : list raw_record) (edad_min : Z)
  : Py.error + list canonical :=
  transform_loop (try_row_from_csv edad_min) [] datos_crudos.

End Refactor.

(* ===================================================================== *)
(** ** Vocabulary of the properties *)
(* ===================================================================== *)

(** The record a loop body appends to [validos], if it does. *)
Definition valid_of {V R : Type} (o : V + R) : option V :=
  match o with inl v => Some v | inr _ => None end.

(** The record a loop body appends to [rechazados], if it does. *)
Definition rejected_of {V R : Type} (o : V + R) : option R :=
  match o with inl _ => None | inr r => Some r end.

(** The five validation stages of the Normalizer, as the specification
    lists them, each looked at on its own. *)
Inductive reason :=
| MissingRequiredColumns
| NullRequiredField
| NormalizationFailure
| AgeNotInteger
| AgeBelowThreshold.

Definition stages : list reason :=
  [MissingRequiredColumns; NullRequiredField; NormalizationFailure;
   AgeNotInteger; AgeBelowThreshold].

Definition stage_fails (edad_min : Z) (row : raw_record) (r : reason) : bool :=
  match r with
  | MissingRequiredColumns => negb (bool_decide (required_cols ⊆ dom row))
  | NullRequiredField =>
      existsb (fun k => bool_decide (dict_get row k = None))
              ["nombre"; "edad"; "ciudad"]
  | NormalizationFailure =>
      match dict_get row "nombre", dict_get row "ciudad" with
      | Some n, Some c =>
          bool_decide (IncrementalAudit.normalize_text n c = None)
      | _, _ => false
      end
  | AgeNotInteger =>
      match dict_get row "edad" with
      | Some e => bool_decide (Py.int e = None)
      | None => false
      end
  | AgeBelowThreshold =>
      match dict_get row "edad" ≫= Py.int with
      | Some a => a <? edad_min
      | None => false
      end
  end.

(** The first stage, in the order of the specification, that fails. *)
Definition first_failure (edad_min : Z) (row : raw_record) : option reason :=
  find (stage_fails edad_min row) stages.

(** The text the source writes under ["motivo"] for each reason. *)
Definition motivo_of (edad_min : Z) (r : reason) : string :=
  match r with
  | MissingRequiredColumns => "Faltan columnas requeridas"
  | NullRequiredField => "Valor None en campo requerido"
  | NormalizationFailure => "Error al normalizar texto"
  | AgeNotInteger => "Edad no convertible a int"
  | AgeBelowThreshold => "Edad < " +:+ Py.str_of_int edad_min
  end.

(** A raw record with the three columns filled in. *)
Definition raw (n e c : string) : raw_record :=
  <["nombre" := Some n]> (<["edad" := Some e]> (<["ciudad" := Some c]> ∅)).

(** *** Reasoning about code that runs on a connection *)

Section Triples.
Import Sqlite.
Context {S : Type}.

(** A connection on which [close()] has been called and nothing is
    pending. *)
Definition closed (s : S) : connection S :=
  {| db := s; txn := None; is_open := false |}.

(** Started on any open connection that sees [s], the code returns [a]
    and leaves the connection open, seeing [s']. *)
Definition runs {A : Type} (m : M S A) (s : S) (a : A) (s' : S) : Prop :=
  forall c, is_open c = true -> view c = s ->
    exists c', m c = (Returned a, c') /\ is_open c' = true /\ view c' = s'.

(** Started in a state where [P] holds, the code ends in a state where
    [Q] holds if it returns and [E] holds if it raises. *)
Definition triple {A : Type} (P : connection S -> Prop) (m : M S A)
    (Q : A -> connection S -> Prop) (E : connection S -> Prop) : Prop :=
  forall c, P c ->
    match m c with
    | (Returned a, c') => Q a c'
    | (Raised _, c') => E c'
    end.


(** A statement keeps a property of the contents. *)
Definition keeps {A : Type} (I : S -> Prop) (q : statement S A) : Prop :=
  forall s a s', I s -> q s = Returned (a, s') -> I s'.

(** The property holds of the durable contents and of what the open
    transaction sees. *)
Definition everywhere (I : S -> Prop) (c : connection S) : Prop :=
  I (db c) /\ I (view c).
End Triples.

(** *** What the loaders do to the tables *)

Section LoadVocabulary.
Import Sqlite.

(** One iteration of the insert loop, on the two tables it touches:
    [get_or_create_city_id(cur, ciudad)] and the [INSERT OR IGNORE] into
    [personas_limpias]. *)
Definition load_step (pa rid : string) (st : table ciudad * table persona)
    (v : canonical) : table ciudad * table persona :=
  let cs := add_ciudad v.2 st.1 in
  (cs, add_persona v.1.1 v.1.2 (default 0 (find_ciudad_id v.2 cs)) pa rid st.2).

Definition load_steps (pa rid : string) (st : table ciudad * table persona)
    (validos : list canonical) : table ciudad * table persona :=
  foldl (load_step pa rid) st validos.

(** The canonical record already has its Person row: its city has an
    identifier and a row carries [(nombre, edad, ciudad_id)]. *)
Definition in_store (st : table ciudad * table persona) (v : canonical) : Prop :=
  exists cid, find_ciudad_id v.2 st.1 = Some cid
              /\ (v.1.1, v.1.2, cid) ∈ (persona_key <$> rows st.2).

Definition the_ciudades (s : store) : table ciudad :=
  default empty_table (ciudades s).

Definition the_personas (s : store) : table persona :=
  match personas_limpias s with
  | Some (Audited t) => t
  | _ => empty_table
  end.

Definition the_runs (s : store) : list etl_run := default [] (etl_runs s).

Definition tables (s : store) : table ciudad * table persona :=
  (the_ciudades s, the_personas s).

Definition with_tables (st : table ciudad * table persona) (s : store) : store :=
  set_personas_limpias (Some (Audited st.2)) (set_ciudades (Some st.1) s).

(** The three tables exist and [personas_limpias] has the audit columns. *)
Definition ready (s : store) : Prop :=
  is_Some (ciudades s)
  /\ (exists t, personas_limpias s = Some (Audited t))
  /\ is_Some (etl_runs s).

(** [SELECT COUNT( * ) FROM personas_limpias] as a number of rows. *)
Definition person_count (s : store) : nat :=
  match personas_limpias s with
  | Some t => length (person_keys t)
  | None => 0%nat
  end.

Definition run_ids (s : store) : list string := er_run_id <$> the_runs s.

(** The contents after the migration step. *)
Definition migrated (s : store) : store :=
  match personas_limpias s with
  | Some (Relational t) =>
      set_personas_limpias
        (Some (Audited
           (insert_all
              (select_with_defaults IncrementalAudit.default_processed_at
                 IncrementalAudit.default_run_id (Relational t))
              (default empty_table (personas_limpias_new s)))))
        (set_personas_limpias_new None s)
  | _ => s
  end.

Definition created (q : statement store unit) (s : store) : store :=
  match q s with
  | Returned (_, s') => s'
  | Raised _ => s
  end.

(** The contents after the schema steps of [load_incremental]. *)
Definition prepared (s : store) : store :=
  created create_etl_runs
    (created create_personas_limpias (migrated (created create_ciudades s))).

(** The contents after [ensure_schema] of etl_batch.py. *)
Definition batch_prepared (s : store) : store :=
  created create_etl_runs
    (created create_personas_limpias (created create_ciudades s)).

(** The row [load_incremental] and [load_batch] write to [etl_runs]. *)
Definition audit_row (rid started src : string) (validos : list canonical)
    (rejected : Z) (before after : nat) : etl_run :=
  {| er_run_id := rid; started_at := started; source_file := src;
     valid_count := Z.of_nat (length validos);
     rejected_count := rejected;
     inserted_new := Z.of_nat after - Z.of_nat before;
     ignored_duplicates :=
       Z.of_nat (length validos) - (Z.of_nat after - Z.of_nat before) |}.

(** The contents a loader leaves when it returns. *)
Definition loaded (st : table ciudad * table persona) (row : etl_run)
    (s0 : store) : store :=
  set_etl_runs (Some (the_runs s0 ++ [row])) (with_tables st s0).

Definition run_id_taken (rid : string) (s : store) : bool :=
  match etl_runs s with
  | Some runs => existsb (fun r' => String.eqb (er_run_id r') rid) runs
  | None => false
  end.
End LoadVocabulary.

(** *** Sample inputs *)

(** A clock reading on 2024-03-09 at 07:05, at the given second and
    microsecond. *)
Definition clock (sec us : N) : Py.datetime :=
  {| Py.year := 2024; Py.month := 3; Py.day := 9; Py.hour := 7;
     Py.minute := 5; Py.second := sec; Py.microsecond := us |}.

(** The valid records of the end-to-end scenario. *)
Definition sample_batch : list canonical :=
  [("Guillermo", 26, "San Luis"); ("Noemi", 52, "San Luis")].

(** Two clock readings taken within the same wall-clock second. *)
Definition same_second (t t' : Py.datetime) : Prop :=
  Py.year t = Py.year t' /\ Py.month t = Py.month t' /\ Py.day t = Py.day t'
  /\ Py.hour t = Py.hour t' /\ Py.minute t = Py.minute t'
  /\ Py.second t = Py.second t'.

(** *** Migration *)

Section MigrationVocabulary.
Import Sqlite.

(** A row of the old Person table as the migration copies it: the sentinel
    audit values are the epoch time stamp and the tag ["MIGRATION"]. *)
Definition upgraded (r : persona_rel) : persona :=
  {| persona_id := r_persona_id r; nombre := r_nombre r; edad := r_edad r;
     ciudad_id := r_ciudad_id r;
     processed_at := "1970-01-01T00:00:00Z"; run_id := "MIGRATION" |}.

(** The constraints the schema of etl_relational.py puts on its Person
    table: [persona_id] is the primary key and [(nombre, edad, ciudad_id)]
    is UNIQUE. *)
Definition old_table_ok (t : table persona_rel) : Prop :=
  NoDup (r_persona_id <$> rows t) /\ NoDup (persona_rel_key <$> rows t).

(** No rows are left in a [personas_limpias_new] from an earlier,
    interrupted migration. *)
Definition scratch_clear (s : store) : Prop :=
  forall t, personas_limpias_new s = Some t -> rows t = [].

(** A store of the generation of etl_relational.py holding the two Person
    rows of the end-to-end scenario. *)
Definition relational_disk : store :=
  {| ciudades :=
       Some {| rows := [{| c_ciudad_id := 1; c_nombre := "San Luis" |}];
               seq := 2 |};
     personas_limpias :=
       Some (Relational
         {| rows := [{| r_persona_id := 1; r_nombre := "Guillermo";
                        r_edad := 26; r_ciudad_id := 1 |};
                     {| r_persona_id := 2; r_nombre := "Noemi";
                        r_edad := 52; r_ciudad_id := 1 |}];
            seq := 2 |});
     personas_limpias_new := None;
     etl_runs := None |}.

Definition relational_table : table persona_rel :=
  {| rows := [{| r_persona_id := 1; r_nombre := "Guillermo";
                 r_edad := 26; r_ciudad_id := 1 |};
              {| r_persona_id := 2; r_nombre := "Noemi";
                 r_edad := 52; r_ciudad_id := 1 |}];
     seq := 2 |}.
End MigrationVocabulary.

(** *** Store states reachable by the pipeline *)

Section Reachability.
Import Sqlite.

(** The constraints of the Person table, and of the table the migration
    fills before it takes its place: [persona_id] is the primary key and
    [(nombre, edad, ciudad_id)] is UNIQUE. *)
Definition unique_rows (s : store) : Prop :=
  (forall t, personas_limpias s = Some t ->
     NoDup (person_ids t) /\ NoDup (person_keys t))
  /\ (forall t, personas_limpias_new s = Some t ->
        NoDup (persona_id <$> rows t) /\ NoDup (persona_key <$> rows t)).

(** What can be run against the database file: the functions of the
    schema manager, the migration, the city resolver and the loaders of
    the three pipelines that share datos_etl_relacional.db, and the
    connection's own [commit] and [close]. *)
Inductive operation :=
| EnsureCiudades
| MigratePersonasLimpiasIfNeeded
| EnsurePersonasLimpias
| EnsureEtlRuns
| BatchEnsureSchema
| RelationalEnsureSchema
| GetOrCreateCityId (ciudad : string)
| LoadBatch (now_run now_started : Py.datetime) (source : string)
            (validos : list canonical) (rejected : Z)
| Commit
| Close
| Reconnect
| LoadIncremental (now_started now_run now_processed : Py.datetime)
                  (source : string) (validos : list canonical) (rejected : Z)
| LoadRelational (validos : list canonical)
| BatchMain (archivos : list Batch.archivo).

(** The connection after the operation, whether it returned or raised. The
    loaders that open their own connection do so on the durable contents
    of the file. *)
Definition after (o : operation) (c : connection store) : connection store :=
  match o with
  | EnsureCiudades => (IncrementalAudit.ensure_ciudades c).2
  | MigratePersonasLimpiasIfNeeded =>
      (IncrementalAudit.migrate_personas_limpias_if_needed c).2
  | EnsurePersonasLimpias => (IncrementalAudit.ensure_personas_limpias c).2
  | EnsureEtlRuns => (IncrementalAudit.ensure_etl_runs c).2
  | BatchEnsureSchema => (Batch.ensure_schema c).2
  | RelationalEnsureSchema => (Relational.ensure_schema c).2
  | GetOrCreateCityId ciudad => (Batch.get_or_create_city_id ciudad c).2
  | LoadBatch t1 t2 src validos rej =>
      (Batch.load_batch t1 t2 src validos rej c).2
  | Commit => (commit c).2
  | Close => (close c).2
  | Reconnect => connect (db c)
  | LoadIncremental t1 t2 t3 src validos rej =>
      (IncrementalAudit.load_incremental (db c) t1 t2 t3 src validos rej).2
  | LoadRelational validos =>
      default c (Relational.load_relational (db c) validos).2
  | BatchMain archivos => default c (Batch.main (db c) archivos).2
  end.

Inductive reachable : connection store -> Prop :=
| reachable_fresh : reachable (connect empty_store)
| reachable_after o c : reachable c -> reachable (after o c).

(** The code keeps [I] on both sides of the transaction, however it ends. *)
Definition preserves {A : Type} (I : store -> Prop) (m : M store A) : Prop :=
  triple (everywhere I) m (fun _ => everywhere I) (everywhere I).
End Reachability.

(** *** Counting what a load inserts *)

Section CountingVocabulary.
Import Sqlite.

#[global] Instance in_store_dec st v : Decision (in_store st v).
Proof.
  destruct (find_ciudad_id v.2 st.1) as [cid|] eqn:Hf.
  - destruct (decide ((v.1.1, v.1.2, cid) ∈ (persona_key <$> rows st.2)))
      as [Hin|Hn].
    + left. by exists cid.
    + right. intros (cid' & Hf' & Hk). rewrite Hf in Hf'.
      injection Hf' as <-. by apply Hn.
  - right. intros (cid & Hf' & _). by rewrite Hf in Hf'.
Defined.

(** The occurrences of a batch that count as inserted: the first one of
    every triple that is not in the store yet. [seen] holds the records
    that came earlier in the batch. *)
Fixpoint count_new (st : table ciudad * table persona)
    (seen validos : list canonical) : nat :=
  match validos with
  | [] => 0%nat
  | v :: rest =>
      ((if decide (in_store st v \/ v ∈ seen) then 0 else 1)
       + count_new st (v :: seen) rest)%nat
  end.


(** The same on a store, whatever the generation of its Person table. *)
Definition store_consistent (s : store) : Prop :=
  NoDup (c_ciudad_id <$> rows (the_ciudades s))
  /\ (forall t, personas_limpias s = Some t ->
        NoDup (person_ids t) /\ NoDup (person_keys t)
        /\ forall k, k ∈ person_keys t ->
             k.2 ∈ (c_ciudad_id <$> rows (the_ciudades s)))
  /\ scratch_clear s.


End CountingVocabulary.

(** A batch in which one triple comes three times and another once. *)
Definition repeating_batch : list canonical :=
  [("Guillermo", 26, "San Luis"); ("Guillermo", 26, "San Luis");
   ("Noemi", 52, "San Luis"); ("Guillermo", 26, "San Luis")].

(** The ranges of the fields of a [datetime]. *)
Definition valid_datetime (t : Py.datetime) : Prop :=
  (1 <= Py.year t <= 9999)%N /\ (1 <= Py.month t <= 12)%N
  /\ (1 <= Py.day t <= 31)%N /\ (Py.hour t <= 23)%N
  /\ (Py.minute t <= 59)%N /\ (Py.second t <= 59)%N
  /\ (Py.microsecond t <= 999999)%N.

(** *** Referential integrity *)

Section ReferentialVocabulary.
Import Sqlite.

Definition ciudad_ids (s : store) : list Z :=
  c_ciudad_id <$> rows (the_ciudades s).

(** [ciudad_id] is the primary key of [ciudades], every Person row refers
    to a city, and [personas_limpias_new] holds no rows. *)
Definition cities_ok (s : store) : Prop :=
  NoDup (ciudad_ids s)
  /\ (forall t, personas_limpias s = Some t ->
        forall k, k ∈ person_keys t -> k.2 ∈ ciudad_ids s)
  /\ scratch_clear s.
End ReferentialVocabulary.

(* ===================================================================== *)
(** ** Vocabulary of the further properties *)
(* ===================================================================== *)

(** What a row has to hold for a transformer to accept it as [v]: three
    strings, an age that parses and reaches the threshold, and [v] made of
    the normalised name, the parsed age and the normalised city. *)
Definition accepts (edad_min : Z) (row : raw_record) (v : canonical) : Prop :=
  exists n e c,
    row !! "nombre" = Some (Some n)
    /\ row !! "edad" = Some (Some e)
    /\ row !! "ciudad" = Some (Some c)
    /\ Py.int e = Some v.1.2
    /\ edad_min <= v.1.2
    /\ v.1.1 = Py.capitalize (Py.lower (Py.strip n))
    /\ v.2 = Py.title (Py.lower (Py.strip c)).

(** The rows on which [.strip()] meets [None] in [transform] of
    etl_refactor.py before any caught exception: a null name, or a string
    name and an age that parses followed by a null city. *)
Definition null_text (row : raw_record) : Prop :=
  row !! "nombre" = Some None
  \/ exists n e a,
       row !! "nombre" = Some (Some n)
       /\ row !! "edad" = Some (Some e)
       /\ Py.int e = Some a
       /\ row !! "ciudad" = Some None.

(** The same for etl_from_csv.py, whose three look-ups come first: the
    three keys have to be there. *)
Definition null_text_from_csv (row : raw_record) : Prop :=
  is_Some (row !! "nombre") /\ is_Some (row !! "edad")
  /\ is_Some (row !! "ciudad")
  /\ null_text row.

(** The columns of a record rejected by etl_incremental_audit.py. *)
Definition rejected_cols : gset string :=
  {[ "nombre"; "edad"; "ciudad"; "motivo" ]}.

(** The text etl_batch.py writes under ["motivo"] for each of the five
    stages: it has one reason for the three stages in the middle. *)
Definition batch_motivo_of (edad_min : Z) (r : reason) : string :=
  match r with
  | MissingRequiredColumns => "Faltan columnas"
  | NullRequiredField | NormalizationFailure | AgeNotInteger =>
      "Normalización o tipo inválido"
  | AgeBelowThreshold => "Edad < " +:+ Py.str_of_int edad_min
  end.

(** No two rows of [ciudades] carry the same name: the UNIQUE constraint
    of its [nombre] column. *)
Definition names_unique (s : Sqlite.store) : Prop :=
  NoDup (Sqlite.c_nombre <$> Sqlite.rows (the_ciudades s)).

(** The part of a run identifier that [make_run_id] derives from the file
    name. *)
Definition sanitized (source_file : string) : string :=
  Py.map_chars (fun ch => if Py.isalnum ch then ch else "_"%char) source_file.

(** The store after one load of the end-to-end scenario on a database of
    the generation of etl_relational.py. *)
Definition loaded_connection : Sqlite.connection Sqlite.store :=
  after (LoadIncremental (clock 2 0) (clock 2 5) (clock 2 9)
           "personas_crudas.csv" sample_batch 2)
    (after (LoadRelational sample_batch) (Sqlite.connect Sqlite.empty_store)).





(** *** The loop of [load_relational] *)

Section RelationalVocabulary.
Import Sqlite.






End RelationalVocabulary.

(** *** Schema functions *)

Section SchemaVocabulary.
Import Sqlite.

(** [s'] holds what [s] holds: the same cities and runs, the same Person
    table if there was one, the same [personas_limpias_new]. *)
Definition same_data (s s' : store) : Prop :=
  the_ciudades s' = the_ciudades s
  /\ the_runs s' = the_runs s
  /\ (forall p, personas_limpias s = Some p -> personas_limpias s' = Some p)
  /\ personas_limpias_new s' = personas_limpias_new s.

(** The code only creates what is missing: it returns, and run again on
    what it left it changes nothing. *)
Definition creates_only (m : M store unit) : Prop :=
  forall s, exists s1, runs m s tt s1 /\ runs m s1 tt s1 /\ same_data s s1.
End SchemaVocabulary.

(** *** Text *)






(** Every character of the string is in the class [sp]. *)
Fixpoint only_chars (sp : ascii -> bool) (s : string) : Prop :=
  match s with
  | EmptyString => True
  | String c r => sp c = true /\ only_chars sp r
  end.

(* ===================================================================== *)
(** ** Properties of the transformers *)
(* ===================================================================== *)

Example strip_guillermo :
  Py.capitalize (Py.lower (Py.strip "  guillermo ")) = "Guillermo".
Proof. reflexivity. Qed.

Example title_san_luis : Py.title (Py.lower (Py.strip "SAN LUIS")) = "San Luis".
Proof. reflexivity. Qed.

Example title_san_juan : Py.title (Py.lower (Py.strip " san juan")) = "San Juan".
Proof. reflexivity. Qed.

Example int_samples :
  map Py.int ["26"; " 26 "; "+26"; "-3"; "2_6"; "_26"; "26_"; "2__6"; "";
              "error"; "26.0"; "007"]
  = [Some 26; Some 26; Some 26; Some (-3); Some 26; None; None; None; None;
     None; None; Some 7].
Proof. reflexivity. Qed.

Example str_of_int_samples :
  map Py.str_of_int [25; 0; -7] = ["25"; "0"; "-7"].
Proof. reflexivity. Qed.

Example strftime_sample :
  Py.strftime_micros
    {| Py.year := 2024; Py.month := 3; Py.day := 9; Py.hour := 7;
       Py.minute := 5; Py.second := 1; Py.microsecond := 42 |}
  = "20240309T070501000042Z".
Proof. reflexivity. Qed.

Section Accumulate.
Context {V R : Type} (body : raw_record -> V + R).

Lemma foldl_accumulate (datos : list raw_record) (acc : list V * list R) :
  foldl (accumulate body) acc datos
  = (acc.1 ++ omap (fun row => valid_of (body row)) datos,
     acc.2 ++ omap (fun row => rejected_of (body row)) datos).
Proof.
  revert acc. induction datos as [|row datos IH]; intros [vs rs]; simpl.
  - by rewrite !app_nil_r.
  - rewrite IH. unfold accumulate. simpl.
    destruct (body row) as [v|r]; simpl; by rewrite <- !app_assoc.
Qed.

Lemma omap_split_length (datos : list raw_record) :
  (length (omap (fun row => valid_of (body row)) datos)
   + length (omap (fun row => rejected_of (body row)) datos))%nat
  = length datos.
Proof.
  induction datos as [|row datos IH]; [done|].
  cbn. destruct (body row); cbn; lia.
Qed.
End Accumulate.


Lemma rejected_row_motivo (n e c : option string) (m : string) :
  IncrementalAudit.rejected_row n e c m !! "motivo" = Some (Some m).
Proof.
  unfold IncrementalAudit.rejected_row.
  rewrite !lookup_insert_ne by done. apply lookup_insert_eq.
Qed.

Lemma stage_fails_nulls (row : raw_record) (edad_min : Z) :
  stage_fails edad_min row NullRequiredField
  = match dict_get row "nombre", dict_get row "edad", dict_get row "ciudad" with
    | Some _, Some _, Some _ => false
    | _, _, _ => true
    end.
Proof.
  simpl.
  destruct (dict_get row "nombre"), (dict_get row "edad"),
    (dict_get row "ciudad"); reflexivity.
Qed.

(** C7. The loop body of [transform_with_rejections]
    (etl_incremental_audit.py, and the same text in etl_relational.py)
    checks the five stages in the order required columns, null check, text
    normalisation, age parsing, threshold, and stops at the first one that
    fails: the row is rejected with the reason of that stage, and accepted
    when no stage fails. A row whose three fields are strings and whose age
    does not parse is rejected as "Edad no convertible a int" whatever the
    threshold is. *)
Theorem transform_row_first_failing_stage (edad_min : Z) (row : raw_record) :
  match first_failure edad_min row with
  | Some r =>
      exists rej,
        IncrementalAudit.transform_row edad_min row = inr rej
        /\ rej !! "motivo" = Some (Some (motivo_of edad_min r))
  | None => exists v, IncrementalAudit.transform_row edad_min row = inl v
  end
  /\ (first_failure edad_min row = Some AgeNotInteger ->
      forall other_min,
        exists rej,
          IncrementalAudit.transform_row other_min row = inr rej
          /\ rej !! "motivo" = Some (Some "Edad no convertible a int")).
Proof.
  unfold first_failure, stages. cbn [find].
  rewrite stage_fails_nulls. cbn [stage_fails].
  unfold IncrementalAudit.transform_row.
  destruct (bool_decide (required_cols ⊆ dom row)) eqn:Hcols; cbn [negb].
  2:{ split; [|discriminate]. eexists; split; [done|]. apply rejected_row_motivo. }
  destruct (dict_get row "nombre") as [n|] eqn:Hn;
    destruct (dict_get row "edad") as [e|] eqn:He;
    destruct (dict_get row "ciudad") as [c|] eqn:Hc;
    try (split; [|discriminate]; eexists; split; [done|];
         apply rejected_row_motivo).
  cbn [mbind option_bind]. unfold IncrementalAudit.normalize_text.
  rewrite bool_decide_eq_false_2 by discriminate.
  destruct (Py.int e) as [a|] eqn:Ha.
  - rewrite bool_decide_eq_false_2 by discriminate.
    destruct (a <? edad_min) eqn:Hlt.
    + split; [|discriminate]. eexists; split; [done|]. apply rejected_row_motivo.
    + split; [|discriminate]. by eexists.
  - rewrite bool_decide_eq_true_2 by done.
    split.
    + eexists; split; [done|]. apply rejected_row_motivo.
    + intros _ other_min. eexists; split; [done|]. apply rejected_row_motivo.
Qed.

Lemma transform_row_first_failing_stage_witness :
  first_failure 25 (raw "Pedro" "error" "Queretaro") = Some AgeNotInteger
  /\ exists rej,
       IncrementalAudit.transform_row 0 (raw "Pedro" "error" "Queretaro") = inr rej
       /\ rej !! "motivo" = Some (Some "Edad no convertible a int").
Proof.
  assert (H : first_failure 25 (raw "Pedro" "error" "Queretaro") = Some AgeNotInteger)
    by (vm_compute; reflexivity).
  split; [exact H|].
  exact (proj2 (transform_row_first_failing_stage 25 (raw "Pedro" "error" "Queretaro"))
           H 0).
Defined.

(* ===================================================================== *)
(** ** Connections *)
(* ===================================================================== *)

Section ConnectionFacts.
Import Sqlite.
Context {S : Type}.
Implicit Types (c : connection S) (s : S).

Lemma view_begin c : view (begin c) = view c.
Proof. reflexivity. Qed.

Lemma view_set_view c s : view (set_view c s) = s.
Proof. unfold set_view, view. by destruct (txn c). Qed.

Lemma is_open_set_view c s : is_open (set_view c s) = is_open c.
Proof. unfold set_view. by destruct (txn c). Qed.

Lemma view_connect s : view (connect s) = s.
Proof. reflexivity. Qed.

Lemma runs_ret {A} (a : A) s : runs (ret a) s a s.
Proof. intros c Ho Hv. by exists c. Qed.

Lemma runs_execute {A} (w : bool) (q : statement S A) s a s' :
  q s = Returned (a, s') -> runs (execute w q) s a s'.
Proof.
  intros Hq c Ho Hv. unfold execute. rewrite Ho, Hv, Hq.
  eexists; split; [done|].
  rewrite is_open_set_view, view_set_view. by destruct w.
Qed.

Lemma runs_bind {A B} (m : M S A) (k : A -> M S B) s a s1 b s2 :
  runs m s a s1 -> runs (k a) s1 b s2 -> runs (bind m k) s b s2.
Proof.
  intros Hm Hk c Ho Hv. destruct (Hm c Ho Hv) as (c1 & E1 & Ho1 & Hv1).
  destruct (Hk c1 Ho1 Hv1) as (c2 & E2 & Ho2 & Hv2).
  exists c2. unfold bind. by rewrite E1.
Qed.

Lemma runs_for_each {A} (body : A -> M S unit) (step : S -> A -> S)
    (I : S -> Prop) (l : list A) s :
  (forall s x, I s -> runs (body x) s tt (step s x) /\ I (step s x)) ->
  I s -> runs (for_each body l) s tt (foldl step s l) /\ I (foldl step s l).
Proof.
  intros Hbody. revert s. induction l as [|x l IH]; intros s HI; simpl.
  - split; [apply runs_ret | done].
  - destruct (Hbody s x HI) as [Hx HI']. destruct (IH _ HI') as [Hl HI''].
    split; [|done]. eapply runs_bind; eauto.
Qed.

(** Stepping through a [bind] on a given connection. *)
Lemma bind_runs {A B} (m : M S A) (k : A -> M S B) s a s' c :
  runs m s a s' -> is_open c = true -> view c = s ->
  exists c', is_open c' = true /\ view c' = s' /\ bind m k c = k a c'.
Proof.
  intros Hm Ho Hv. destruct (Hm c Ho Hv) as (c' & E & Ho' & Hv').
  exists c'. unfold bind. by rewrite E.
Qed.

Lemma commit_open c :
  is_open c = true ->
  commit c = (Returned tt, {| db := view c; txn := None; is_open := true |}).
Proof. intros Ho. unfold commit. by rewrite Ho. Qed.

(** *** Triples *)

Lemma triple_ret {A} (P : connection S -> Prop) (a : A) Q E :
  (forall c, P c -> Q a c) -> triple P (ret a) Q E.
Proof. intros H c Hc. simpl. auto. Qed.

Lemma triple_raise {A} (P : connection S -> Prop) e (Q : A -> _) E :
  (forall c, P c -> E c) -> triple P (raise e) Q E.
Proof. intros H c Hc. simpl. auto. Qed.

Lemma triple_bind {A B} P (m : M S A) (k : A -> M S B) Q R E :
  triple P m Q E -> (forall a, triple (Q a) (k a) R E) ->
  triple P (bind m k) R E.
Proof.
  intros Hm Hk c Hc. specialize (Hm c Hc). unfold bind.
  destruct (m c) as [[a|e] c']; [|done]. by apply Hk.
Qed.

Lemma triple_weaken {A} (P P' : connection S -> Prop) (m : M S A)
    (Q Q' : A -> connection S -> Prop) (E E' : connection S -> Prop) :
  triple P' m Q' E' ->
  (forall c, P c -> P' c) -> (forall a c, Q' a c -> Q a c) ->
  (forall c, E' c -> E c) ->
  triple P m Q E.
Proof.
  intros Hm HP HQ HE c Hc. specialize (Hm c (HP c Hc)).
  destruct (m c) as [[a|e] c']; auto.
Qed.

Lemma triple_for_each {A} (P : connection S -> Prop) (body : A -> M S unit)
    (l : list A) E :
  (forall x, triple P (body x) (fun _ => P) E) ->
  triple P (for_each body l) (fun _ => P) E.
Proof.
  intros Hbody. induction l as [|x l IH]; simpl.
  - by apply triple_ret.
  - eapply triple_bind; [apply Hbody|]. intros ?. apply IH.
Qed.


(** A statement that keeps [I] keeps it on both sides of the
    transaction. *)
Lemma triple_execute {A} (I : S -> Prop) (w : bool) (q : statement S A) :
  keeps I q ->
  triple (everywhere I) (execute w q) (fun _ => everywhere I) (everywhere I).
Proof.
  intros Hq c [Hdb Hview]. unfold execute.
  destruct (is_open c); [|by split].
  destruct (q (view c)) as [[a s']|e] eqn:Eq.
  - specialize (Hq _ _ _ Hview Eq). unfold everywhere.
    rewrite view_set_view. split; [|done].
    unfold set_view. destruct w; simpl; [done|].
    destruct (txn c); simpl; done.
  - destruct e; try by split.
    destruct w; by split.
Qed.

Lemma triple_commit (I : S -> Prop) :
  triple (everywhere I) commit (fun _ => everywhere I) (everywhere I).
Proof.
  intros c [Hdb Hview]. unfold commit.
  destruct (is_open c); by split.
Qed.

Lemma triple_close (I : S -> Prop) :
  triple (everywhere I) close (fun _ => everywhere I) (everywhere I).
Proof. intros c [Hdb Hview]. simpl. by split. Qed.

End ConnectionFacts.

(* ===================================================================== *)
(** ** Tables *)
(* ===================================================================== *)

Lemma find_app {A} (f : A -> bool) (l l' : list A) :
  find f (l ++ l') = match find f l with Some x => Some x | None => find f l' end.
Proof. induction l as [|x l IH]; simpl; [done|]. by destruct (f x). Qed.

Section TableFacts.
Import Sqlite.
Context {A K : Type} `{EqDecision K}.
Variable pk : A -> Z.
Variable uk : A -> K.
Implicit Types (t : table A) (r : A).

Lemma max_rowid_ge t r : r ∈ rows t -> pk r <= max_rowid pk t.
Proof.
  unfold max_rowid. induction (rows t) as [|x l IH]; intros Hr.
  - by apply elem_of_nil in Hr.
  - apply elem_of_cons in Hr as [->|Hr]; cbn; [lia|].
    specialize (IH Hr). cbn in IH. lia.
Qed.

Lemma next_rowid_fresh t r : r ∈ rows t -> pk r < next_rowid pk t.
Proof. intros Hr. apply max_rowid_ge in Hr. unfold next_rowid. lia. Qed.

Lemma conflicts_true r t :
  conflicts pk uk r t = true
  <-> exists r', r' ∈ rows t /\ (pk r' = pk r \/ uk r' = uk r).
Proof.
  unfold conflicts. rewrite existsb_exists. split.
  - intros (r' & Hin & Hb). exists r'. split; [by apply list_elem_of_In|].
    by apply bool_decide_eq_true in Hb.
  - intros (r' & Hin & Hb). exists r'. split; [by apply list_elem_of_In|].
    by apply bool_decide_eq_true.
Qed.

Lemma conflicts_false r t :
  conflicts pk uk r t = false
  <-> forall r', r' ∈ rows t -> pk r' <> pk r /\ uk r' <> uk r.
Proof.
  rewrite <- not_true_iff_false, conflicts_true. split.
  - intros Hn r' Hin. split; intros Heq; apply Hn; exists r'; auto.
  - intros Hall (r' & Hin & [Heq|Heq]); by destruct (Hall r' Hin).
Qed.

(** With a key chosen by the table only the UNIQUE columns can clash. *)
Lemma conflicts_auto (mk : Z -> A) t :
  (forall i, pk (mk i) = i) ->
  conflicts pk uk (mk (next_rowid pk t)) t
  = bool_decide (uk (mk (next_rowid pk t)) ∈ uk <$> rows t).
Proof.
  intros Hmk. destruct (conflicts _ _ _ t) eqn:Hc; symmetry.
  - apply bool_decide_eq_true. apply conflicts_true in Hc as (r' & Hin & [Hp|Hu]).
    + apply next_rowid_fresh in Hin. rewrite Hmk in Hp. lia.
    + rewrite <- Hu. by apply list_elem_of_fmap_2.
  - apply bool_decide_eq_false. intros Hin.
    apply list_elem_of_fmap in Hin as (r' & Hu & Hin).
    rewrite conflicts_false in Hc. by destruct (Hc r' Hin).
Qed.

Lemma insert_or_ignore_prefix r t :
  rows (insert_or_ignore pk uk r t) = rows t
  \/ (rows (insert_or_ignore pk uk r t) = rows t ++ [r]
      /\ (pk r ∉ (pk <$> rows t)) /\ (uk r ∉ (uk <$> rows t))).
Proof.
  unfold insert_or_ignore; simpl.
  destruct (conflicts pk uk r t) eqn:Hc; [by left|right].
  split; [done|]. rewrite conflicts_false in Hc.
  split; intros Hin; apply list_elem_of_fmap in Hin as (r' & Heq & Hin);
    by destruct (Hc r' Hin).
Qed.

Lemma insert_or_ignore_NoDup_pk r t :
  NoDup (pk <$> rows t) -> NoDup (pk <$> rows (insert_or_ignore pk uk r t)).
Proof.
  intros Hnd. destruct (insert_or_ignore_prefix r t) as [->|(-> & Hp & Hu)];
    [done|].
  rewrite fmap_app. apply NoDup_app. split; [done|]. split.
  - intros x Hx Hx'. apply list_elem_of_singleton in Hx'. by subst.
  - apply NoDup_singleton.
Qed.

Lemma insert_or_ignore_NoDup_uk r t :
  NoDup (uk <$> rows t) -> NoDup (uk <$> rows (insert_or_ignore pk uk r t)).
Proof.
  intros Hnd. destruct (insert_or_ignore_prefix r t) as [->|(-> & Hp & Hu)];
    [done|].
  rewrite fmap_app. apply NoDup_app. split; [done|]. split.
  - intros x Hx Hx'. apply list_elem_of_singleton in Hx'. by subst.
  - apply NoDup_singleton.
Qed.

Lemma insert_or_ignore_auto_present (mk : Z -> A) t :
  (forall i, pk (mk i) = i) ->
  uk (mk (next_rowid pk t)) ∈ uk <$> rows t ->
  rows (insert_or_ignore_auto pk uk mk t) = rows t.
Proof.
  intros Hmk Hin. unfold insert_or_ignore_auto, insert_or_ignore; simpl.
  rewrite conflicts_auto by done. by rewrite bool_decide_eq_true_2.
Qed.

Lemma insert_or_ignore_auto_absent (mk : Z -> A) t :
  (forall i, pk (mk i) = i) ->
  uk (mk (next_rowid pk t)) ∉ uk <$> rows t ->
  rows (insert_or_ignore_auto pk uk mk t) = rows t ++ [mk (next_rowid pk t)].
Proof.
  intros Hmk Hin. unfold insert_or_ignore_auto, insert_or_ignore; simpl.
  rewrite conflicts_auto by done. by rewrite bool_decide_eq_false_2.
Qed.

Lemma skip_insert_rows t : rows (skip_insert pk t) = rows t.
Proof. reflexivity. Qed.

End TableFacts.

(* ===================================================================== *)
(** ** The insert loop *)
(* ===================================================================== *)

Arguments Sqlite.add_ciudad : simpl never.
Arguments Sqlite.add_persona : simpl never.
Arguments Sqlite.add_persona_rel : simpl never.
Arguments Sqlite.insert_all : simpl never.
Arguments Sqlite.find_ciudad_id : simpl never.

Section LoadFacts.
Import Sqlite.
Implicit Types (st : table ciudad * table persona) (v w : canonical)
  (cs : table ciudad) (ps : table persona).

Lemma find_ciudad_id_Some name cs cid :
  find_ciudad_id name cs = Some cid ->
  name ∈ (c_nombre <$> rows cs) /\ cid ∈ (c_ciudad_id <$> rows cs).
Proof.
  unfold find_ciudad_id. intros H.
  destruct (find _ (rows cs)) as [c|] eqn:Hf; [|done].
  injection H as <-. apply find_some in Hf as [Hin Hb].
  apply bool_decide_eq_true in Hb. apply list_elem_of_In in Hin.
  split; [rewrite <- Hb|]; by apply list_elem_of_fmap_2.
Qed.

Lemma find_ciudad_id_None name cs :
  find_ciudad_id name cs = None <-> name ∉ (c_nombre <$> rows cs).
Proof.
  unfold find_ciudad_id. split.
  - intros H Hin. destruct (find _ (rows cs)) as [c|] eqn:Hf; [done|].
    apply list_elem_of_fmap in Hin as (c & -> & Hin).
    apply list_elem_of_In in Hin.
    pose proof (find_none _ _ Hf c Hin) as Hb. simpl in Hb.
    by rewrite bool_decide_eq_true_2 in Hb.
  - intros Hn. destruct (find _ (rows cs)) as [c|] eqn:Hf; [|done].
    apply find_some in Hf as [Hin Hb]. apply bool_decide_eq_true in Hb.
    apply list_elem_of_In in Hin. exfalso. apply Hn. rewrite <- Hb.
    by apply list_elem_of_fmap_2.
Qed.

(** [get_or_create_city_id]: a known city keeps its rows ... *)
Lemma add_ciudad_known name cs cid :
  find_ciudad_id name cs = Some cid ->
  rows (add_ciudad name cs) = rows cs
  /\ find_ciudad_id name (add_ciudad name cs) = Some cid.
Proof.
  intros Hf. pose proof (find_ciudad_id_Some _ _ _ Hf) as [Hin _].
  assert (Hr : rows (add_ciudad name cs) = rows cs)
    by (by apply (insert_or_ignore_auto_present c_ciudad_id c_nombre
                    (fun i => {| c_ciudad_id := i; c_nombre := name |}))).
  split; [done|]. unfold find_ciudad_id in *. by rewrite Hr.
Qed.

(** ... and a new one gets the next identifier. *)
Lemma add_ciudad_new name cs :
  find_ciudad_id name cs = None ->
  rows (add_ciudad name cs)
  = rows cs ++ [{| c_ciudad_id := next_rowid c_ciudad_id cs; c_nombre := name |}]
  /\ find_ciudad_id name (add_ciudad name cs) = Some (next_rowid c_ciudad_id cs).
Proof.
  intros Hf. pose proof (proj1 (find_ciudad_id_None _ _) Hf) as Hn.
  assert (Hr : rows (add_ciudad name cs)
               = rows cs ++ [{| c_ciudad_id := next_rowid c_ciudad_id cs;
                                c_nombre := name |}])
    by (by apply (insert_or_ignore_auto_absent c_ciudad_id c_nombre
                    (fun i => {| c_ciudad_id := i; c_nombre := name |}))).
  split; [done|]. unfold find_ciudad_id in *. rewrite Hr, find_app.
  destruct (find _ (rows cs)); [done|]. simpl.
  by rewrite bool_decide_eq_true_2.
Qed.

Lemma add_ciudad_found name cs :
  exists cid, find_ciudad_id name (add_ciudad name cs) = Some cid.
Proof.
  destruct (find_ciudad_id name cs) as [cid|] eqn:Hf.
  - exists cid. by apply add_ciudad_known.
  - eexists. by apply add_ciudad_new.
Qed.

(** Rows are only ever appended, so a lookup that succeeds keeps its
    answer. *)
Lemma add_ciudad_stable name other cs cid :
  find_ciudad_id other cs = Some cid ->
  find_ciudad_id other (add_ciudad name cs) = Some cid.
Proof.
  intros Hf. destruct (find_ciudad_id name cs) as [cid'|] eqn:Hn.
  - apply add_ciudad_known in Hn as [Hr _]. unfold find_ciudad_id in *.
    by rewrite Hr.
  - apply add_ciudad_new in Hn as [Hr _]. unfold find_ciudad_id in *.
    rewrite Hr, find_app. by destruct (find _ (rows cs)).
Qed.

Lemma add_persona_cases n e cid pa rid ps :
  ((n, e, cid) ∈ (persona_key <$> rows ps)
   /\ rows (add_persona n e cid pa rid ps) = rows ps)
  \/ (((n, e, cid) ∉ (persona_key <$> rows ps))
      /\ rows (add_persona n e cid pa rid ps)
         = rows ps ++ [{| persona_id := next_rowid persona_id ps; nombre := n;
                          edad := e; ciudad_id := cid; processed_at := pa;
                          run_id := rid |}]).
Proof.
  destruct (decide ((n, e, cid) ∈ (persona_key <$> rows ps))) as [Hin|Hn].
  - left. split; [done|].
    by apply (insert_or_ignore_auto_present persona_id persona_key
                (fun i => {| persona_id := i; nombre := n; edad := e;
                             ciudad_id := cid; processed_at := pa;
                             run_id := rid |})).
  - right. split; [done|].
    by apply (insert_or_ignore_auto_absent persona_id persona_key
                (fun i => {| persona_id := i; nombre := n; edad := e;
                             ciudad_id := cid; processed_at := pa;
                             run_id := rid |})).
Qed.

Lemma add_persona_has n e cid pa rid ps :
  (n, e, cid) ∈ (persona_key <$> rows (add_persona n e cid pa rid ps)).
Proof.
  destruct (add_persona_cases n e cid pa rid ps) as [[Hin ->]|[Hn ->]]; [done|].
  rewrite fmap_app. apply elem_of_app. right. by apply list_elem_of_singleton.
Qed.

Lemma add_persona_keeps n e cid pa rid ps k :
  k ∈ (persona_key <$> rows ps) ->
  k ∈ (persona_key <$> rows (add_persona n e cid pa rid ps)).
Proof.
  intros Hk.
  destruct (add_persona_cases n e cid pa rid ps) as [[Hin ->]|[Hn ->]]; [done|].
  rewrite fmap_app. apply elem_of_app. by left.
Qed.

Lemma in_store_rows st st' v :
  rows st.1 = rows st'.1 -> rows st.2 = rows st'.2 ->
  in_store st v -> in_store st' v.
Proof.
  intros H1 H2 (cid & Hf & Hk). exists cid. unfold find_ciudad_id in *.
  by rewrite <- H1, <- H2.
Qed.

Lemma load_step_in_store pa rid st v : in_store (load_step pa rid st v) v.
Proof.
  unfold load_step, in_store; cbn [fst snd].
  destruct (add_ciudad_found v.2 st.1) as [cid Hf]. exists cid. rewrite Hf.
  split; [done|]. cbn [default from_option id]. apply add_persona_has.
Qed.

Lemma load_step_keeps pa rid st v w :
  in_store st w -> in_store (load_step pa rid st v) w.
Proof.
  intros (cid & Hf & Hk). exists cid. unfold load_step; cbn [fst snd]. split.
  - by apply add_ciudad_stable.
  - by apply add_persona_keeps.
Qed.

Lemma load_step_known_rows pa rid st v :
  in_store st v ->
  rows (load_step pa rid st v).1 = rows st.1
  /\ rows (load_step pa rid st v).2 = rows st.2.
Proof.
  intros (cid & Hf & Hk). unfold load_step; cbn [fst snd].
  destruct (add_ciudad_known _ _ _ Hf) as [Hr Hf']. split; [done|].
  rewrite Hf'. cbn [default from_option id].
  destruct (add_persona_cases v.1.1 v.1.2 cid pa rid st.2) as [[_ ->]|[Hn _]];
    done.
Qed.

Lemma load_steps_keep pa rid l st w :
  in_store st w -> in_store (load_steps pa rid st l) w.
Proof.
  unfold load_steps. revert st. induction l as [|v l IH]; intros st Hw; simpl;
    [done|].
  apply IH. by apply load_step_keeps.
Qed.

(** After the loop every record of the batch has its row. *)
Lemma load_steps_in_store pa rid l st v :
  v ∈ l -> in_store (load_steps pa rid st l) v.
Proof.
  unfold load_steps. revert st. induction l as [|x l IH]; intros st Hv.
  - by apply elem_of_nil in Hv.
  - simpl. apply elem_of_cons in Hv as [->|Hv].
    + apply (load_steps_keep pa rid l). apply load_step_in_store.
    + by apply IH.
Qed.

(** A batch whose records all have their row adds no row. *)
Lemma load_steps_known_rows pa rid l st :
  (forall v, v ∈ l -> in_store st v) ->
  rows (load_steps pa rid st l).1 = rows st.1
  /\ rows (load_steps pa rid st l).2 = rows st.2.
Proof.
  unfold load_steps. revert st. induction l as [|x l IH]; intros st Hall; simpl;
    [done|].
  destruct (load_step_known_rows pa rid st x) as [H1 H2];
    [apply Hall; by left|].
  destruct (IH (load_step pa rid st x)) as [H1' H2'].
  - intros v Hv. eapply in_store_rows; [symmetry; apply H1 | symmetry; apply H2|].
    apply Hall. by right.
  - split; congruence.
Qed.

(** Loading a batch a second time adds no row. *)
Lemma load_steps_twice pa rid pa' rid' l st :
  let st1 := load_steps pa rid st l in
  rows (load_steps pa' rid' st1 l).1 = rows st1.1
  /\ rows (load_steps pa' rid' st1 l).2 = rows st1.2.
Proof.
  intros st1. apply load_steps_known_rows. intros v Hv.
  by apply load_steps_in_store.
Qed.

End LoadFacts.

(* ===================================================================== *)
(** ** The loaders, statement by statement *)
(* ===================================================================== *)

Section LoaderRuns.
Import Sqlite.
Local Open Scope conn_scope.
Implicit Types (s : store) (st : table ciudad * table persona).

Lemma with_tables_tables s :
  is_Some (ciudades s) -> (exists t, personas_limpias s = Some (Audited t)) ->
  with_tables (tables s) s = s.
Proof.
  intros [cs Hc] [ps Hp]. destruct s as [c p n r]; simpl in *. subst.
  reflexivity.
Qed.

Lemma with_tables_twice st st' s :
  with_tables st' (with_tables st s) = with_tables st' s.
Proof. reflexivity. Qed.

Lemma tables_with_tables st s : tables (with_tables st s) = st.
Proof. by destruct st. Qed.

Lemma ready_with_tables st s : ready s -> ready (with_tables st s).
Proof.
  intros (Hc & Hp & Hr). repeat split; simpl; eauto.
Qed.

Lemma get_or_create_city_id_runs name s cs :
  ciudades s = Some cs ->
  runs (IncrementalAudit.get_or_create_city_id name) s
       (default 0 (find_ciudad_id name (add_ciudad name cs)))
       (set_ciudades (Some (add_ciudad name cs)) s).
Proof.
  intros Hc. unfold IncrementalAudit.get_or_create_city_id.
  eapply runs_bind.
  { apply runs_execute. unfold insert_ciudad. by rewrite Hc. }
  eapply runs_bind.
  { apply runs_execute. unfold select_ciudad_id. simpl. reflexivity. }
  destruct (add_ciudad_found name cs) as [cid ->]. apply runs_ret.
Qed.

(** One iteration of the insert loop. *)
Lemma load_body_runs pa rid v s :
  is_Some (ciudades s) -> (exists t, personas_limpias s = Some (Audited t)) ->
  runs (let '(n, e, c) := v in
        let* cid := IncrementalAudit.get_or_create_city_id c in
        execute true (insert_persona n e cid pa rid))
       s tt (with_tables (load_step pa rid (tables s) v) s).
Proof.
  intros [cs Hc] [ps Hp]. destruct v as [[n e] c].
  eapply runs_bind; [by apply get_or_create_city_id_runs|].
  apply runs_execute. unfold insert_persona. simpl. rewrite Hp.
  unfold with_tables, load_step, tables, the_ciudades, the_personas.
  rewrite Hc, Hp. reflexivity.
Qed.

Lemma load_loop_runs pa rid validos s :
  ready s ->
  runs (for_each
          (fun v : canonical =>
             let '(n, e, c) := v in
             let* cid := IncrementalAudit.get_or_create_city_id c in
             execute true (insert_persona n e cid pa rid)) validos)
       s tt (with_tables (load_steps pa rid (tables s) validos) s).
Proof.
  intros Hready.
  assert (Hfold : forall l s0, ready s0 ->
            foldl (fun s v => with_tables (load_step pa rid (tables s) v) s) s0 l
            = with_tables (load_steps pa rid (tables s0) l) s0).
  { induction l as [|v l IH]; intros s0 Hr; simpl.
    - symmetry. apply with_tables_tables; apply Hr.
    - rewrite IH by (by apply ready_with_tables).
      by rewrite tables_with_tables, with_tables_twice. }
  rewrite <- Hfold by done.
  eapply (runs_for_each _ _ ready); [|done].
  intros s0 v Hr. split; [|by apply ready_with_tables].
  apply load_body_runs; apply Hr.
Qed.

Lemma table_has_column_runs name col s cols :
  table_info name s = Returned (cols, s) ->
  runs (IncrementalAudit.table_has_column name col) s
       (bool_decide (col ∈ cols)) s.
Proof.
  intros Hq. unfold IncrementalAudit.table_has_column.
  eapply runs_bind; [by apply runs_execute|]. apply runs_ret.
Qed.

Lemma relational_lacks_processed_at :
  bool_decide ("processed_at" ∈ persona_rel_columns) = false.
Proof. vm_compute. reflexivity. Qed.

Lemma audited_has_processed_at :
  bool_decide ("processed_at" ∈ persona_columns) = true.
Proof. vm_compute. reflexivity. Qed.

Lemma audited_has_run_id : bool_decide ("run_id" ∈ persona_columns) = true.
Proof. vm_compute. reflexivity. Qed.

(** The migration step never fails, and ends in [migrated]. *)
Lemma migrate_runs s :
  runs IncrementalAudit.migrate_personas_limpias_if_needed s tt (migrated s).
Proof.
  unfold IncrementalAudit.migrate_personas_limpias_if_needed, migrated.
  eapply runs_bind; [by apply runs_execute|].
  destruct (personas_limpias s) as [[t|t]|] eqn:Hp.
  - (* the table of etl_relational.py *)
    rewrite bool_decide_eq_true_2 by eauto. cbn [negb].
    eapply runs_bind.
    { eapply table_has_column_runs. unfold table_info. simpl.
      rewrite Hp. reflexivity. }
    rewrite relational_lacks_processed_at.
    eapply runs_bind; [apply runs_ret|]. cbn iota.
    destruct (personas_limpias_new s) as [new|] eqn:Hn.
    all: eapply runs_bind;
      [apply runs_execute; unfold create_personas_limpias_new;
       rewrite Hn; reflexivity|].
    all: eapply runs_bind;
      [apply runs_execute; unfold copy_into_personas_limpias_new; simpl;
       rewrite ?Hn, Hp; reflexivity|].
    all: eapply runs_bind;
      [apply runs_execute; unfold drop_personas_limpias; simpl;
       rewrite Hp; reflexivity|].
    all: apply runs_execute; unfold rename_personas_limpias_new; simpl;
      reflexivity.
  - (* already migrated *)
    rewrite bool_decide_eq_true_2 by eauto. cbn [negb].
    eapply runs_bind.
    { eapply table_has_column_runs. unfold table_info. simpl.
      rewrite Hp. reflexivity. }
    rewrite audited_has_processed_at.
    eapply runs_bind.
    { eapply table_has_column_runs. unfold table_info. simpl.
      rewrite Hp. reflexivity. }
    rewrite audited_has_run_id.
    apply runs_ret.
  - (* no table yet *)
    rewrite bool_decide_eq_false_2 by (by intros [? ?]). apply runs_ret.
Qed.
End LoaderRuns.

(** Steps through the first statement of a [bind] with a [runs] fact. *)
Ltac run_step H :=
  lazymatch goal with
  | |- Sqlite.bind ?m ?k ?c = _ =>
      let c' := fresh "c" in
      let Ho := fresh "Ho" in
      let Hv := fresh "Hv" in
      let E := fresh "E" in
      destruct (bind_runs m k _ _ _ c H) as (c' & Ho & Hv & E);
      [first [assumption | reflexivity] | first [assumption | reflexivity] |];
      rewrite E; clear E
  end.

Section LoaderResults.
Import Sqlite.
Local Open Scope conn_scope.
Implicit Types (s disk : store) (c : connection store).

Lemma create_ciudades_runs s :
  runs (execute false create_ciudades) s tt (created create_ciudades s).
Proof.
  apply runs_execute. unfold created, create_ciudades.
  by destruct (ciudades s).
Qed.

Lemma create_personas_limpias_runs s :
  runs (execute false create_personas_limpias) s tt
       (created create_personas_limpias s).
Proof.
  apply runs_execute. unfold created, create_personas_limpias.
  by destruct (personas_limpias s).
Qed.

Lemma create_etl_runs_runs s :
  runs (execute false create_etl_runs) s tt (created create_etl_runs s).
Proof.
  apply runs_execute. unfold created, create_etl_runs.
  by destruct (etl_runs s).
Qed.

Lemma ready_prepared s : ready (prepared s).
Proof.
  destruct s as [[cs|] [[t|t]|] [n|] [r|]]; unfold ready; cbn;
    repeat split; eauto.
Qed.

Lemma ready_batch_prepared s :
  (forall t, personas_limpias s <> Some (Relational t)) ->
  ready (batch_prepared s).
Proof.
  intros Hrel.
  destruct s as [[cs|] [[t|t]|] [n|] [r|]]; unfold ready; cbn;
    repeat split; eauto; by destruct (Hrel t).
Qed.

Lemma prepared_ready s : ready s -> prepared s = s.
Proof.
  intros ([cs Hc] & [t Hp] & [r Hr]). destruct s; simpl in *; subst.
  reflexivity.
Qed.


Lemma count_personas_ready s :
  ready s ->
  count_personas s = Returned (Z.of_nat (length (rows (tables s).2)), s).
Proof.
  intros (_ & [t Hp] & _). unfold count_personas, tables, the_personas.
  rewrite Hp. simpl. by rewrite length_fmap.
Qed.

(** What both loaders do once the rows are committed: the second count
    and the audit row, before whatever comes last. *)
Lemma record_run_result (rid started src : string) (validos : list canonical)
    (rejected : Z) (before : nat) s1 (rest : M store unit) :
  ready s1 ->
  (let* after := execute false count_personas in
   execute true
     (insert_etl_run
        {| er_run_id := rid; started_at := started; source_file := src;
           valid_count := Z.of_nat (length validos);
           rejected_count := rejected;
           inserted_new := after - Z.of_nat before;
           ignored_duplicates :=
             Z.of_nat (length validos) - (after - Z.of_nat before) |}) ;;;
   rest)
    {| db := s1; txn := None; is_open := true |}
  = if run_id_taken rid s1
    then (Raised (IntegrityError "UNIQUE constraint failed: etl_runs.run_id"),
          {| db := s1; txn := Some s1; is_open := true |})
    else rest {| db := s1;
                 txn := Some
                   (set_etl_runs
                      (Some (the_runs s1
                             ++ [audit_row rid started src validos rejected
                                   before (length (rows (tables s1).2))]))
                      s1);
                 is_open := true |}.
Proof.
  intros Hready. pose proof (count_personas_ready _ Hready) as Hcount.
  destruct Hready as (_ & _ & [runs Hruns]).
  unfold bind at 1. unfold execute at 1. cbn [is_open view txn db default
    from_option id]. rewrite Hcount. cbn [set_view txn db is_open].
  unfold bind at 1. unfold execute at 1. cbn [is_open view txn db default
    from_option id begin]. unfold insert_etl_run, run_id_taken, the_runs.
  rewrite Hruns. cbn [er_run_id default from_option id].
  destruct (existsb _ runs); reflexivity.
Qed.

(** [load_incremental], start to end: it fails only on a run identifier
    that [etl_runs] already holds, after the rows are committed. *)
Lemma load_incremental_result disk a1 a2 a3 src validos rej :
  let s0 := prepared disk in
  let rid := Py.strftime_seconds a2 in
  let st := load_steps (Py.isoformat a3) rid (tables s0) validos in
  let s1 := with_tables st s0 in
  IncrementalAudit.load_incremental disk a1 a2 a3 src validos rej
  = if run_id_taken rid s0
    then (Raised (IntegrityError "UNIQUE constraint failed: etl_runs.run_id"),
          {| db := s1; txn := Some s1; is_open := true |})
    else (Returned tt,
          closed (set_etl_runs
                    (Some (the_runs s0
                           ++ [audit_row rid (Py.isoformat a1) src validos rej
                                 (length (rows (tables s0).2))
                                 (length (rows st.2))]))
                    s1)).
Proof.
  intros s0 rid st s1. unfold IncrementalAudit.load_incremental.
  pose proof (ready_prepared disk) as Hready. fold s0 in Hready.
  run_step (create_ciudades_runs disk).
  run_step (migrate_runs (created create_ciudades disk)).
  run_step (create_personas_limpias_runs
              (migrated (created create_ciudades disk))).
  run_step (create_etl_runs_runs
              (created create_personas_limpias
                 (migrated (created create_ciudades disk)))).
  run_step (runs_execute false _ _ _ _ (count_personas_ready _ Hready)).
  run_step (load_loop_runs (Py.isoformat a3) rid validos s0 Hready).
  match goal with H : view _ = with_tables _ _ |- _ => rename H into Hv6 end.
  match goal with |- bind commit _ ?c = _ =>
    assert (Ho6 : is_open c = true) by assumption; set (c6 := c) in *
  end.
  fold st in Hv6. fold s1 in Hv6.
  unfold bind at 1. rewrite (commit_open c6 Ho6), Hv6.
  rewrite record_run_result by (by apply ready_with_tables).
  unfold run_id_taken, the_runs. subst s1.
  rewrite tables_with_tables. reflexivity.
Qed.

Lemma batch_ensure_schema_runs s :
  runs Batch.ensure_schema s tt (batch_prepared s).
Proof.
  unfold Batch.ensure_schema, batch_prepared.
  eapply runs_bind; [apply create_ciudades_runs|].
  eapply runs_bind; [apply create_personas_limpias_runs|].
  apply create_etl_runs_runs.
Qed.

(** [load_batch] on an open connection whose Person table, if there is
    one, has the audit columns. *)
Lemma load_batch_result t_run t_started src validos rej c :
  is_open c = true ->
  (forall t, personas_limpias (view c) <> Some (Relational t)) ->
  let s0 := batch_prepared (view c) in
  let rid := Batch.make_run_id t_run src in
  let st := load_steps (Py.isoformat t_started) rid (tables s0) validos in
  let s1 := with_tables st s0 in
  Batch.load_batch t_run t_started src validos rej c
  = if run_id_taken rid s0
    then (Raised (IntegrityError "UNIQUE constraint failed: etl_runs.run_id"),
          {| db := s1; txn := Some s1; is_open := true |})
    else (Returned tt,
          {| db := set_etl_runs
                     (Some (the_runs s0
                            ++ [audit_row rid (Py.isoformat t_started) src
                                  validos rej
                                  (length (rows (tables s0).2))
                                  (length (rows st.2))]))
                     s1;
             txn := None; is_open := true |}).
Proof.
  intros Ho Hrel s0 rid st s1. unfold Batch.load_batch.
  pose proof (ready_batch_prepared _ Hrel) as Hready. fold s0 in Hready.
  run_step (batch_ensure_schema_runs (view c)).
  run_step (runs_execute false _ _ _ _ (count_personas_ready _ Hready)).
  run_step (load_loop_runs (Py.isoformat t_started) rid validos s0 Hready).
  match goal with H : view _ = with_tables _ _ |- _ => rename H into Hv6 end.
  match goal with |- bind commit _ ?c = _ =>
    assert (Ho6 : is_open c = true) by assumption; set (c6 := c) in *
  end.
  fold st in Hv6. fold s1 in Hv6.
  unfold bind at 1. rewrite (commit_open c6 Ho6), Hv6.
  rewrite record_run_result by (by apply ready_with_tables).
  unfold run_id_taken, the_runs. subst s1.
  rewrite tables_with_tables. reflexivity.
Qed.

End LoaderResults.

(* ===================================================================== *)
(** ** Loading the same batch twice *)
(* ===================================================================== *)

Section Idempotence.
Import Sqlite.
Implicit Types (s disk : store) (c : connection store).

Lemma run_id_taken_false rid s :
  run_id_taken rid s = false <-> rid ∉ run_ids s.
Proof.
  unfold run_id_taken, run_ids, the_runs.
  destruct (etl_runs s) as [runs|]; simpl.
  - rewrite <- not_true_iff_false, existsb_exists. split.
    + intros Hn Hin. apply list_elem_of_fmap in Hin as (r & -> & Hin).
      apply Hn. exists r. split; [by apply list_elem_of_In|].
      apply String.eqb_refl.
    + intros Hn (r & Hin & Heq). apply String.eqb_eq in Heq. apply Hn.
      rewrite <- Heq. apply list_elem_of_fmap_2. by apply list_elem_of_In.
  - split; [|done]. intros _ Hin. by apply elem_of_nil in Hin.
Qed.

Lemma etl_runs_prepared s : etl_runs (prepared s) = Some (the_runs s).
Proof. by destruct s as [[cs|] [[t|t]|] [n|] [r|]]. Qed.


Lemma run_ids_prepared s : run_ids (prepared s) = run_ids s.
Proof. unfold run_ids at 1, the_runs at 1. by rewrite etl_runs_prepared. Qed.


Lemma run_id_taken_prepared rid s :
  run_id_taken rid (prepared s) = run_id_taken rid s.
Proof.
  unfold run_id_taken. rewrite etl_runs_prepared. unfold the_runs.
  by destruct (etl_runs s).
Qed.


Lemma ready_loaded st row s0 : ready (loaded st row s0).
Proof. unfold ready; simpl; eauto. Qed.

Lemma tables_loaded st row s0 : tables (loaded st row s0) = st.
Proof. by destruct st. Qed.


Lemma the_runs_loaded st row s0 :
  the_runs (loaded st row s0) = the_runs s0 ++ [row].
Proof. reflexivity. Qed.


End Idempotence.

Section LoadTwice.
Import Sqlite.

(** Whether it returns or raises at the audit insert, [load_incremental]
    leaves the three tables in place and the rows of the batch loaded. *)
Lemma load_incremental_db disk a1 a2 a3 src validos rej :
  let d := db (IncrementalAudit.load_incremental disk a1 a2 a3 src validos rej).2 in
  ready d
  /\ tables d
     = load_steps (Py.isoformat a3) (Py.strftime_seconds a2)
         (tables (prepared disk)) validos.
Proof.
  cbv zeta. rewrite load_incremental_result.
  destruct (run_id_taken _ _); cbn [snd db closed].
  - split; [apply ready_with_tables, ready_prepared|apply tables_with_tables].
  - match goal with
    | |- context [set_etl_runs (Some (_ ++ [?row])) (with_tables ?st ?s0)] =>
        fold (loaded st row s0)
    end.
    split; [apply ready_loaded|apply tables_loaded].
Qed.

Lemma person_count_ready d :
  ready d -> person_count d = length (rows (tables d).2).
Proof.
  intros (_ & [t Hp] & _). unfold person_count, tables, the_personas.
  rewrite Hp. simpl. by rewrite length_fmap.
Qed.

(** On any contents of the file, and whether or not the two runs get to
    their audit row, the second load of a batch leaves the number of
    Person rows as the first load left it. *)
Lemma load_incremental_twice_same_count
    disk a1 a2 a3 b1 b2 b3 src src' validos rej rej' :
  let d1 := db (IncrementalAudit.load_incremental disk a1 a2 a3 src validos rej).2 in
  let d2 := db (IncrementalAudit.load_incremental d1 b1 b2 b3 src' validos rej').2 in
  person_count d2 = person_count d1.
Proof.
  intros d1 d2.
  destruct (load_incremental_db disk a1 a2 a3 src validos rej) as [Hr1 Ht1].
  destruct (load_incremental_db d1 b1 b2 b3 src' validos rej') as [Hr2 Ht2].
  fold d1 in Hr1, Ht1. fold d2 in Hr2, Ht2.
  rewrite !person_count_ready by done.
  rewrite Ht2, (prepared_ready d1 Hr1), Ht1.
  f_equal. apply load_steps_twice.
Qed.



End LoadTwice.

(* ===================================================================== *)
(** ** How the loaders leave the connection *)
(* ===================================================================== *)

Section ExitPaths.
Import Sqlite.
Local Open Scope conn_scope.
Context {S : Type}.









End ExitPaths.

Section LoaderExitPaths.
Import Sqlite.
Local Open Scope conn_scope.






End LoaderExitPaths.

Section ConnectionRelease.
Import Sqlite.




End ConnectionRelease.

(* ===================================================================== *)
(** ** Run identifiers *)
(* ===================================================================== *)

Section RunIdentifiers.
Import Sqlite.

Lemma strftime_seconds_same_second t t' :
  same_second t t' -> Py.strftime_seconds t = Py.strftime_seconds t'.
Proof.
  intros (Hy & Hmo & Hd & Hh & Hmi & Hs). unfold Py.strftime_seconds.
  by rewrite Hy, Hmo, Hd, Hh, Hmi, Hs.
Qed.

(** C6 fails for [load_incremental]: its run identifier is the start
    time cut at the second, without the source name, so a run started in
    the same second as an earlier, recorded one gets the same identifier
    and its audit insert raises [IntegrityError]. *)
Theorem load_incremental_run_id_collides_within_a_second
    (disk : store) (src src' : string) (validos validos' : list canonical)
    (rej rej' : Z) (a1 a2 a3 b1 b2 b3 : Py.datetime) :
  same_second a2 b2 ->
  Py.strftime_seconds a2 ∉ run_ids disk ->
  exists d1 c2,
    IncrementalAudit.load_incremental disk a1 a2 a3 src validos rej
    = (Returned tt, closed d1)
    /\ IncrementalAudit.load_incremental d1 b1 b2 b3 src' validos' rej'
       = (Raised (IntegrityError "UNIQUE constraint failed: etl_runs.run_id"),
          c2)
    /\ run_ids d1 = run_ids disk ++ [Py.strftime_seconds a2]
    /\ run_ids (db c2) = run_ids d1.
Proof.
  intros Hsame Hnew.
  pose proof (load_incremental_result disk a1 a2 a3 src validos rej) as E1.
  cbv zeta in E1.
  rewrite run_id_taken_prepared, (proj2 (run_id_taken_false _ _) Hnew) in E1.
  set (st1 := load_steps _ _ (tables (prepared disk)) validos) in E1.
  set (row1 := audit_row (Py.strftime_seconds a2) _ _ _ _ _ _) in E1.
  fold (loaded st1 row1 (prepared disk)) in E1.
  pose proof (load_incremental_result (loaded st1 row1 (prepared disk))
                b1 b2 b3 src' validos' rej') as E2.
  cbv zeta in E2.
  rewrite (prepared_ready (loaded _ _ _)) in E2 by apply ready_loaded.
  assert (Htaken : run_id_taken (Py.strftime_seconds b2)
                     (loaded st1 row1 (prepared disk)) = true).
  { apply not_false_iff_true. rewrite run_id_taken_false. intros Hn.
    apply Hn. unfold run_ids. rewrite the_runs_loaded, fmap_app.
    apply elem_of_app. right. apply list_elem_of_singleton.
    symmetry. by apply strftime_seconds_same_second. }
  rewrite Htaken in E2.
  eexists _, _. split; [exact E1|]. split; [exact E2|]. split.
  - unfold run_ids at 1. rewrite the_runs_loaded, fmap_app.
    fold (run_ids (prepared disk)). by rewrite run_ids_prepared.
  - reflexivity.
Qed.

Lemma load_incremental_run_id_collides_within_a_second_witness :
  exists d1 c2,
    IncrementalAudit.load_incremental empty_store (clock 1 0) (clock 1 5)
      (clock 1 9) "personas_crudas.csv" sample_batch 2
    = (Returned tt, closed d1)
    /\ IncrementalAudit.load_incremental d1 (clock 1 500000) (clock 1 500005)
         (clock 1 500009) "personas_crudas.csv" sample_batch 2
       = (Raised (IntegrityError "UNIQUE constraint failed: etl_runs.run_id"),
          c2)
    /\ run_ids d1 = run_ids empty_store ++ [Py.strftime_seconds (clock 1 5)]
    /\ run_ids (db c2) = run_ids d1.
Proof.
  apply load_incremental_run_id_collides_within_a_second.
  - repeat split.
  - vm_compute. intros H. inversion H.
Defined.

Lemma string_length_append (a b : string) :
  String.length (a +:+ b) = (String.length a + String.length b)%nat.
Proof. induction a as [|c a IH]; simpl; [done|]. by rewrite IH. Qed.

Lemma string_append_inj (a a' b b' : string) :
  String.length a = String.length a' -> a +:+ b = a' +:+ b' ->
  a = a' /\ b = b'.
Proof.
  revert a'. induction a as [|c a IH]; intros [|c' a'] Hlen Heq;
    try discriminate Hlen.
  - by split.
  - simpl in Heq. injection Heq as -> Heq. injection Hlen as Hlen.
    destruct (IH a' Hlen Heq) as [-> ->]. by split.
Qed.

Lemma pad_digits_length (w : nat) (n : N) :
  String.length (Py.pad_digits w n) = w.
Proof.
  revert n. induction w as [|w IH]; intros n; simpl; [done|].
  rewrite string_length_append, IH. simpl. lia.
Qed.

(** A field printed on [w] digits is read back from them. *)
Lemma pad_digits_inj (w : nat) (n m : N) :
  (n < 10 ^ N.of_nat w)%N -> (m < 10 ^ N.of_nat w)%N ->
  Py.pad_digits w n = Py.pad_digits w m -> n = m.
Proof.
  revert n m. induction w as [|w IH]; intros n m Hn Hm Heq.
  - simpl in Hn, Hm. lia.
  - simpl in Heq.
    apply string_append_inj in Heq as [Hhi Hlo];
      [|by rewrite !pad_digits_length].
    rewrite Nat2N.inj_succ, N.pow_succ_r' in Hn, Hm.
    assert (Hdiv : (n / 10 = m / 10)%N).
    { apply IH; [| |done]; apply N.Div0.div_lt_upper_bound; lia. }
    assert (Hmod : (n mod 10 = m mod 10)%N).
    { injection Hlo as Hc. apply (f_equal N_of_ascii) in Hc.
      pose proof (N.mod_upper_bound n 10 ltac:(lia)).
      pose proof (N.mod_upper_bound m 10 ltac:(lia)).
      rewrite !N_ascii_embedding in Hc by lia. lia. }
    rewrite (N.div_mod n 10), (N.div_mod m 10) by lia. congruence.
Qed.

(** [make_run_id] gives two readings of the clock that differ, if only in
    the microsecond, two different identifiers for the same source. *)
Lemma make_run_id_inj (t t' : Py.datetime) (src : string) :
  valid_datetime t -> valid_datetime t' ->
  Batch.make_run_id t src = Batch.make_run_id t' src -> t = t'.
Proof.
  intros (Hy & Hmo & Hd & Hh & Hmi & Hs & Hus)
         (Hy' & Hmo' & Hd' & Hh' & Hmi' & Hs' & Hus') Heq.
  unfold Batch.make_run_id in Heq.
  apply string_append_inj in Heq as [Heq _].
  2:{ unfold Py.strftime_micros.
      by rewrite !string_length_append, !pad_digits_length. }
  unfold Py.strftime_micros in Heq.
  repeat match type of Heq with
         | _ +:+ _ = _ +:+ _ =>
             let H := fresh "F" in
             apply string_append_inj in Heq as [H Heq];
             [|by rewrite ?pad_digits_length]
         end.
  apply pad_digits_inj in F; [|simpl; lia..].
  apply pad_digits_inj in F0; [|simpl; lia..].
  apply pad_digits_inj in F1; [|simpl; lia..].
  apply pad_digits_inj in F3; [|simpl; lia..].
  apply pad_digits_inj in F4; [|simpl; lia..].
  apply pad_digits_inj in F5; [|simpl; lia..].
  apply pad_digits_inj in F6; [|simpl; lia..].
  destruct t, t'. simpl in *. by subst.
Qed.

(** [make_run_id] of etl_batch.py tells the same two readings apart. *)
Example make_run_id_within_a_second :
  Batch.make_run_id (clock 1 5) "personas_crudas.csv"
    = "20240309T070501000005Z_personas_crudas_csv"
  /\ Batch.make_run_id (clock 1 500005) "personas_crudas.csv"
    = "20240309T070501500005Z_personas_crudas_csv".
Proof. split; reflexivity. Qed.

End RunIdentifiers.

(* ===================================================================== *)
(** ** A fresh store *)
(* ===================================================================== *)

Section FreshStore.
Import Sqlite.

(** On a store without the Person table the migration step does nothing
    and [load_incremental] goes on to create the tables and returns. *)
Lemma load_incremental_on_fresh_store a1 a2 a3 src validos rej :
  IncrementalAudit.migrate_personas_limpias_if_needed (connect empty_store)
  = (Returned tt, connect empty_store)
  /\ exists d,
       IncrementalAudit.load_incremental empty_store a1 a2 a3 src validos rej
       = (Returned tt, closed d)
       /\ ready d.
Proof.
  split; [reflexivity|].
  rewrite load_incremental_result.
  rewrite run_id_taken_prepared. cbn [run_id_taken etl_runs empty_store].
  eexists. split; [reflexivity|]. apply ready_loaded.
Qed.

(** C8 fails for the loader of etl_refactor.py and etl_from_csv.py: on
    a store without [personas_limpias], [ensure_table_with_unique] creates
    [personas_limpias_new] and then copies from the table that is not
    there, so every load of a non-empty batch raises [OperationalError],
    leaving [personas_limpias_new] behind and the connection open. *)
Theorem legacy_load_raises_on_fresh_store (v : canonical) (vs : list canonical) :
  Refactor.load Refactor.empty_store (v :: vs)
  = (Raised (OperationalError "no such table: personas_limpias"),
     Some {| db := {| Refactor.personas_limpias := None;
                      Refactor.personas_limpias_new := Some empty_table |};
             txn := None; is_open := true |}).
Proof. reflexivity. Qed.

End FreshStore.

(* ===================================================================== *)
(** ** Migration of the Person table *)
(* ===================================================================== *)

Section Migration.
Import Sqlite.

Example relational_disk_is_loaded :
  Relational.load_relational empty_store sample_batch
  = (Returned tt, Some (closed relational_disk)).
Proof. reflexivity. Qed.

Lemma insert_all_cons r l t :
  insert_all (r :: l) t
  = insert_all l (insert_or_ignore persona_id persona_key r t).
Proof. reflexivity. Qed.

(** Rows that clash neither with the table nor with each other are all
    inserted, in order. *)
Lemma insert_all_rows (l : list persona) (t : table persona) :
  NoDup (persona_id <$> (rows t ++ l)) ->
  NoDup (persona_key <$> (rows t ++ l)) ->
  rows (insert_all l t) = rows t ++ l.
Proof.
  revert t. induction l as [|r l IH]; intros t Hid Hkey.
  - by rewrite app_nil_r.
  - rewrite insert_all_cons.
    assert (Hr : rows (insert_or_ignore persona_id persona_key r t)
                 = rows t ++ [r]).
    { unfold insert_or_ignore; simpl.
      destruct (conflicts persona_id persona_key r t) eqn:Hc; [|done].
      exfalso. apply conflicts_true in Hc as (r' & Hin & [Hp|Hu]).
      - rewrite fmap_app in Hid. apply NoDup_app in Hid as (_ & Hid & _).
        apply (Hid (persona_id r)).
        + rewrite <- Hp. by apply list_elem_of_fmap_2.
        + rewrite fmap_cons. by left.
      - rewrite fmap_app in Hkey. apply NoDup_app in Hkey as (_ & Hkey & _).
        apply (Hkey (persona_key r)).
        + rewrite <- Hu. by apply list_elem_of_fmap_2.
        + rewrite fmap_cons. by left. }
    rewrite IH; rewrite Hr, <- app_assoc; simpl; done.
Qed.

Lemma insert_all_NoDup (l : list persona) (t : table persona) :
  NoDup (persona_id <$> rows t) -> NoDup (persona_key <$> rows t) ->
  NoDup (persona_id <$> rows (insert_all l t))
  /\ NoDup (persona_key <$> rows (insert_all l t)).
Proof.
  revert t. induction l as [|r l IH]; intros t Hid Hkey; [done|].
  rewrite insert_all_cons. apply IH.
  - by apply insert_or_ignore_NoDup_pk.
  - by apply insert_or_ignore_NoDup_uk.
Qed.

Lemma upgraded_ids (l : list persona_rel) :
  persona_id <$> (upgraded <$> l) = r_persona_id <$> l.
Proof. rewrite <- list_fmap_compose. reflexivity. Qed.

Lemma upgraded_keys (l : list persona_rel) :
  persona_key <$> (upgraded <$> l) = persona_rel_key <$> l.
Proof. rewrite <- list_fmap_compose. reflexivity. Qed.

(** The Person table after the migration of an old-schema one. *)
Lemma migrated_relational s t :
  personas_limpias s = Some (Relational t) -> old_table_ok t -> scratch_clear s ->
  exists t',
    migrated s
    = set_personas_limpias (Some (Audited t')) (set_personas_limpias_new None s)
    /\ rows t' = upgraded <$> rows t.
Proof.
  intros Hp [Hid Hkey] Hclear. unfold migrated. rewrite Hp.
  eexists. split; [reflexivity|].
  change (select_with_defaults _ _ (Relational t)) with (upgraded <$> rows t).
  rewrite insert_all_rows.
  - destruct (personas_limpias_new s) as [n|] eqn:Hn; simpl; [|done].
    by rewrite (Hclear n).
  - assert (Hnil : rows (default empty_table (personas_limpias_new s)) = []).
    { destruct (personas_limpias_new s) as [n|] eqn:Hn; simpl; [|done].
      by apply Hclear. }
    rewrite Hnil. simpl. by rewrite upgraded_ids.
  - assert (Hnil : rows (default empty_table (personas_limpias_new s)) = []).
    { destruct (personas_limpias_new s) as [n|] eqn:Hn; simpl; [|done].
      by apply Hclear. }
    rewrite Hnil. simpl. by rewrite upgraded_keys.
Qed.

Lemma migrated_twice s : migrated (migrated s) = migrated s.
Proof.
  destruct (personas_limpias s) as [[t|t]|] eqn:Hp.
  - assert (H : exists t', migrated s
                  = set_personas_limpias (Some (Audited t'))
                      (set_personas_limpias_new None s)).
    { unfold migrated. rewrite Hp. by eexists. }
    destruct H as [t' ->]. reflexivity.
  - unfold migrated. by rewrite Hp, Hp.
  - unfold migrated. by rewrite Hp, Hp.
Qed.

(** C4. On a store whose Person table lacks the audit columns, the
    migration step returns with every original row copied, in order, with
    [processed_at = "1970-01-01T00:00:00Z"] and [run_id = "MIGRATION"];
    run again, it returns and leaves the store exactly as the first run
    left it, so no row is added. *)
Theorem migration_twice_adds_nothing (s : store) (t : table persona_rel) :
  personas_limpias s = Some (Relational t) -> old_table_ok t -> scratch_clear s ->
  exists t',
    runs IncrementalAudit.migrate_personas_limpias_if_needed s tt (migrated s)
    /\ runs IncrementalAudit.migrate_personas_limpias_if_needed
            (migrated s) tt (migrated s)
    /\ personas_limpias (migrated s) = Some (Audited t')
    /\ person_count (migrated s) = person_count s
    /\ forall r, r ∈ rows t ->
         {| persona_id := r_persona_id r; nombre := r_nombre r;
            edad := r_edad r; ciudad_id := r_ciudad_id r;
            processed_at := "1970-01-01T00:00:00Z";
            run_id := "MIGRATION" |} ∈ rows t'.
Proof.
  intros Hp Hok Hclear.
  destruct (migrated_relational s t Hp Hok Hclear) as (t' & Hm & Hrows).
  exists t'. split; [apply migrate_runs|].
  split.
  { pose proof (migrate_runs (migrated s)) as H.
    by rewrite migrated_twice in H. }
  rewrite Hm. split; [reflexivity|]. split.
  - unfold person_count. simpl. rewrite Hp. simpl.
    by rewrite !length_fmap, Hrows, length_fmap.
  - intros r Hr. rewrite Hrows. by apply (list_elem_of_fmap_2 upgraded).
Qed.

Lemma migration_twice_adds_nothing_witness :
  exists t',
    runs IncrementalAudit.migrate_personas_limpias_if_needed relational_disk tt
         (migrated relational_disk)
    /\ runs IncrementalAudit.migrate_personas_limpias_if_needed
            (migrated relational_disk) tt (migrated relational_disk)
    /\ personas_limpias (migrated relational_disk) = Some (Audited t')
    /\ person_count (migrated relational_disk) = person_count relational_disk
    /\ forall r, r ∈ rows relational_table ->
         {| persona_id := r_persona_id r; nombre := r_nombre r;
            edad := r_edad r; ciudad_id := r_ciudad_id r;
            processed_at := "1970-01-01T00:00:00Z";
            run_id := "MIGRATION" |} ∈ rows t'.
Proof.
  apply (migration_twice_adds_nothing relational_disk relational_table).
  - reflexivity.
  - split; apply (bool_decide_unpack _); vm_compute; exact I.
  - intros t H. discriminate H.
Defined.



End Migration.

(* ===================================================================== *)
(** ** Uniqueness of the Person rows *)
(* ===================================================================== *)

Section Preservation.
Import Sqlite.
Variable I : store -> Prop.

Lemma preserves_execute {A} (w : bool) (q : statement store A) :
  keeps I q -> preserves I (execute w q).
Proof. apply triple_execute. Qed.

Lemma preserves_commit : preserves I commit.
Proof. apply triple_commit. Qed.

Lemma preserves_close : preserves I close.
Proof. apply triple_close. Qed.

Lemma preserves_ret {A} (a : A) : preserves I (ret a).
Proof. by apply triple_ret. Qed.

Lemma preserves_raise {A} e : preserves I (@raise store A e).
Proof. by apply triple_raise. Qed.

Lemma preserves_bind {A B} (m : M store A) (k : A -> M store B) :
  preserves I m -> (forall a, preserves I (k a)) -> preserves I (bind m k).
Proof. intros Hm Hk. eapply triple_bind; [apply Hm|]. apply Hk. Qed.

Lemma preserves_for_each {A} (body : A -> M store unit) (l : list A) :
  (forall x, preserves I (body x)) -> preserves I (for_each body l).
Proof. intros Hb. by apply triple_for_each. Qed.

Lemma preserves_after {A} (m : M store A) c :
  preserves I m -> everywhere I c -> everywhere I (m c).2.
Proof.
  intros Hm Hc. specialize (Hm c Hc). by destruct (m c) as [[a|e] c'].
Qed.

Lemma everywhere_connect s : I s -> everywhere I (connect s).
Proof. by split. Qed.
End Preservation.

Section UniqueRows.
Import Sqlite.
Local Open Scope conn_scope.

Lemma keeps_unchanged {A} (I : store -> Prop) (q : statement store A) :
  (forall s a s', q s = Returned (a, s') -> s' = s) -> keeps I q.
Proof. intros Hq s a s' HI E. by rewrite (Hq _ _ _ E). Qed.

(** A statement that leaves both Person tables alone. *)
Lemma keeps_personas {A} (q : statement store A) :
  (forall s a s', q s = Returned (a, s') ->
     personas_limpias s' = personas_limpias s
     /\ personas_limpias_new s' = personas_limpias_new s) ->
  keeps unique_rows q.
Proof.
  intros Hq s a s' [H1 H2] E. destruct (Hq _ _ _ E) as [E1 E2].
  split; intros t Ht; [apply H1|apply H2]; congruence.
Qed.

Lemma keeps_create_ciudades : keeps unique_rows create_ciudades.
Proof.
  apply keeps_personas. intros s a s' E. unfold create_ciudades in E.
  destruct (ciudades s); injection E as _ <-; done.
Qed.

Lemma keeps_create_etl_runs : keeps unique_rows create_etl_runs.
Proof.
  apply keeps_personas. intros s a s' E. unfold create_etl_runs in E.
  destruct (etl_runs s); injection E as _ <-; done.
Qed.

Lemma keeps_create_personas_limpias : keeps unique_rows create_personas_limpias.
Proof.
  intros s a s' [H1 H2] E. unfold create_personas_limpias in E.
  destruct (personas_limpias s) eqn:Hp; injection E as _ <-;
    [split; [by rewrite Hp|done]|].
  split; [|done]. simpl. intros t [= <-]. simpl. split; constructor.
Qed.

Lemma keeps_create_personas_limpias_rel :
  keeps unique_rows create_personas_limpias_rel.
Proof.
  intros s a s' [H1 H2] E. unfold create_personas_limpias_rel in E.
  destruct (personas_limpias s) eqn:Hp; injection E as _ <-;
    [split; [by rewrite Hp|done]|].
  split; [|done]. simpl. intros t [= <-]. simpl. split; constructor.
Qed.

Lemma keeps_create_personas_limpias_new :
  keeps unique_rows create_personas_limpias_new.
Proof.
  intros s a s' [H1 H2] E. unfold create_personas_limpias_new in E.
  destruct (personas_limpias_new s) eqn:Hp; injection E as _ <-;
    [split; [done|by rewrite Hp]|].
  split; [done|]. simpl. intros t [= <-]. simpl. split; constructor.
Qed.

Lemma keeps_table_info name : keeps unique_rows (table_info name).
Proof.
  apply keeps_unchanged. intros s a s' E. unfold table_info in E.
  by injection E as _ <-.
Qed.

Lemma keeps_personas_limpias_exists : keeps unique_rows personas_limpias_exists.
Proof.
  apply keeps_unchanged. intros s a s' E. unfold personas_limpias_exists in E.
  by injection E as _ <-.
Qed.

Lemma keeps_insert_ciudad name : keeps unique_rows (insert_ciudad name).
Proof.
  apply keeps_personas. intros s a s' E. unfold insert_ciudad in E.
  destruct (ciudades s); [|done]. by injection E as _ <-.
Qed.

Lemma keeps_select_ciudad_id name : keeps unique_rows (select_ciudad_id name).
Proof.
  apply keeps_unchanged. intros s a s' E. unfold select_ciudad_id in E.
  destruct (ciudades s); [|done]. by injection E as _ <-.
Qed.

Lemma keeps_count_personas : keeps unique_rows count_personas.
Proof.
  apply keeps_unchanged. intros s a s' E. unfold count_personas in E.
  destruct (personas_limpias s); [|done]. by injection E as _ <-.
Qed.

Lemma keeps_insert_etl_run r : keeps unique_rows (insert_etl_run r).
Proof.
  apply keeps_personas. intros s a s' E. unfold insert_etl_run in E.
  destruct (etl_runs s) as [runs|]; [|done].
  destruct (existsb _ runs); [done|]. by injection E as _ <-.
Qed.

(** The loader's insert keeps the Person rows unique: a row that repeats
    a triple is the one [OR IGNORE] skips. *)
Lemma keeps_insert_persona n e cid pa rid :
  keeps unique_rows (insert_persona n e cid pa rid).
Proof.
  intros s a s' [H1 H2] E. unfold insert_persona in E.
  destruct (personas_limpias s) as [[t|t]|] eqn:Hp; try done.
  injection E as _ <-. split; [|done]. simpl. intros t' [= <-].
  destruct (H1 _ eq_refl) as [Hid Hkey]. simpl in *. split.
  - by apply insert_or_ignore_NoDup_pk.
  - by apply insert_or_ignore_NoDup_uk.
Qed.

Lemma keeps_insert_persona_rel n e cid :
  keeps unique_rows (insert_persona_rel n e cid).
Proof.
  intros s a s' [H1 H2] E. unfold insert_persona_rel in E.
  destruct (personas_limpias s) as [[t|t]|] eqn:Hp; try done;
    injection E as _ <-; (split; [|done]); simpl; intros t' [= <-];
    destruct (H1 _ eq_refl) as [Hid Hkey]; simpl in *.
  - split.
    + by apply insert_or_ignore_NoDup_pk.
    + by apply insert_or_ignore_NoDup_uk.
  - by split.
Qed.

Lemma keeps_copy_into_personas_limpias_new pa rid :
  keeps unique_rows (copy_into_personas_limpias_new pa rid).
Proof.
  intros s a s' [H1 H2] E. unfold copy_into_personas_limpias_new in E.
  destruct (personas_limpias_new s) as [new|] eqn:Hn; [|done].
  destruct (personas_limpias s) as [old|] eqn:Hp; [|done].
  injection E as _ <-. split; [simpl; by rewrite Hp|].
  simpl. intros t' [= <-]. destruct (H2 _ eq_refl) as [Hid Hkey].
  by apply insert_all_NoDup.
Qed.

Lemma keeps_drop_personas_limpias : keeps unique_rows drop_personas_limpias.
Proof.
  intros s a s' [H1 H2] E. unfold drop_personas_limpias in E.
  destruct (personas_limpias s) as [old|] eqn:Hp; [|done].
  injection E as _ <-. by split.
Qed.

Lemma keeps_rename_personas_limpias_new :
  keeps unique_rows rename_personas_limpias_new.
Proof.
  intros s a s' [H1 H2] E. unfold rename_personas_limpias_new in E.
  destruct (personas_limpias_new s) as [new|] eqn:Hn; [|done].
  destruct (personas_limpias s) as [old|] eqn:Hp; [done|].
  injection E as _ <-. split; simpl; [|done].
  intros t' [= <-]. simpl. by apply H2.
Qed.

End UniqueRows.

Create HintDb keeps.
#[export] Hint Resolve keeps_create_ciudades keeps_create_etl_runs
  keeps_create_personas_limpias keeps_create_personas_limpias_rel
  keeps_create_personas_limpias_new keeps_table_info
  keeps_personas_limpias_exists keeps_insert_ciudad keeps_select_ciudad_id
  keeps_count_personas keeps_insert_etl_run keeps_insert_persona
  keeps_insert_persona_rel keeps_copy_into_personas_limpias_new
  keeps_drop_personas_limpias keeps_rename_personas_limpias_new : keeps.

(** Takes a program apart into its statements. *)
Ltac preserve :=
  repeat first
    [ apply preserves_ret
    | apply preserves_raise
    | apply preserves_commit
    | apply preserves_close
    | apply preserves_execute; solve [auto with keeps]
    | apply preserves_for_each; intros ?
    | apply preserves_bind; [|intros ?]
    | match goal with
      | |- preserves _ (match ?x with _ => _ end) => destruct x
      end ].

Section ReachableStates.
Import Sqlite.
Local Open Scope conn_scope.

Lemma preserves_get_or_create_city_id name :
  preserves unique_rows (Batch.get_or_create_city_id name).
Proof. unfold Batch.get_or_create_city_id. preserve. Qed.

Lemma preserves_migrate :
  preserves unique_rows IncrementalAudit.migrate_personas_limpias_if_needed.
Proof.
  unfold IncrementalAudit.migrate_personas_limpias_if_needed,
    IncrementalAudit.table_has_column.
  preserve.
Qed.

Lemma preserves_batch_ensure_schema : preserves unique_rows Batch.ensure_schema.
Proof. unfold Batch.ensure_schema. preserve. Qed.

Lemma preserves_relational_ensure_schema :
  preserves unique_rows Relational.ensure_schema.
Proof. unfold Relational.ensure_schema. preserve. Qed.

Lemma preserves_load_batch t1 t2 src validos rej :
  preserves unique_rows (Batch.load_batch t1 t2 src validos rej).
Proof.
  unfold Batch.load_batch, Batch.ensure_schema, Batch.get_or_create_city_id.
  preserve.
Qed.

Lemma load_incremental_unique_rows disk t1 t2 t3 src validos rej :
  unique_rows disk ->
  everywhere unique_rows
    (IncrementalAudit.load_incremental disk t1 t2 t3 src validos rej).2.
Proof.
  intros Hd. unfold IncrementalAudit.load_incremental.
  apply preserves_after; [|by apply everywhere_connect].
  unfold IncrementalAudit.ensure_ciudades,
    IncrementalAudit.ensure_personas_limpias, IncrementalAudit.ensure_etl_runs,
    IncrementalAudit.get_or_create_city_id.
  preserve.
Qed.

Lemma load_relational_unique_rows c validos :
  everywhere unique_rows c ->
  everywhere unique_rows
    (default c (Relational.load_relational (db c) validos).2).
Proof.
  intros Hc. unfold Relational.load_relational.
  destruct validos as [|v vs]; [done|].
  set (prog := bind Relational.ensure_schema _).
  pose proof (preserves_after unique_rows prog (connect (db c))) as H.
  destruct (prog (connect (db c))) as [r c'] eqn:E. simpl in *.
  apply H; [|apply everywhere_connect; apply Hc].
  unfold prog, Relational.ensure_schema, Relational.get_or_create_city_id.
  preserve.
Qed.

Lemma batch_main_unique_rows c archivos :
  everywhere unique_rows c ->
  everywhere unique_rows (default c (Batch.main (db c) archivos).2).
Proof.
  intros Hc. unfold Batch.main.
  destruct archivos as [|f fs]; [done|].
  set (prog := bind (for_each _ (f :: fs)) _).
  pose proof (preserves_after unique_rows prog (connect (db c))) as H.
  destruct (prog (connect (db c))) as [r c'] eqn:E. simpl in *.
  apply H; [|apply everywhere_connect; apply Hc].
  unfold prog. preserve.
Qed.

Lemma unique_rows_empty : unique_rows empty_store.
Proof. split; intros t H; discriminate H. Qed.

(** Every connection state the pipeline can reach keeps the rows of both
    Person tables unique, in the file and inside the open transaction. *)
Lemma reachable_unique_rows c : reachable c -> everywhere unique_rows c.
Proof.
  induction 1 as [|o c Hc IH].
  - apply everywhere_connect, unique_rows_empty.
  - destruct o; cbn [after].
    + apply preserves_after; [|done].
      unfold IncrementalAudit.ensure_ciudades. preserve.
    + apply preserves_after; [apply preserves_migrate|done].
    + apply preserves_after; [|done].
      unfold IncrementalAudit.ensure_personas_limpias. preserve.
    + apply preserves_after; [|done].
      unfold IncrementalAudit.ensure_etl_runs. preserve.
    + apply preserves_after; [apply preserves_batch_ensure_schema|done].
    + apply preserves_after; [apply preserves_relational_ensure_schema|done].
    + apply preserves_after; [apply preserves_get_or_create_city_id|done].
    + apply preserves_after; [apply preserves_load_batch|done].
    + apply (preserves_after unique_rows commit); [apply preserves_commit|done].
    + apply (preserves_after unique_rows close); [apply preserves_close|done].
    + apply everywhere_connect, IH.
    + apply load_incremental_unique_rows, IH.
    + by apply load_relational_unique_rows.
    + by apply batch_main_unique_rows.
Qed.

(** C3. In every state reachable from the empty store by the schema
    manager, the migration, the city resolver and the loaders of the three
    pipelines, run in any order and whether they return or raise, no two
    rows of [personas_limpias] have the same [(nombre, edad, ciudad_id)]:
    in the database file and in what the open transaction sees alike. *)
Theorem person_rows_stay_unique (c : Sqlite.connection Sqlite.store)
    (t : personas_table) :
  reachable c ->
  personas_limpias (db c) = Some t \/ personas_limpias (view c) = Some t ->
  NoDup (person_keys t).
Proof.
  intros Hc Ht. destruct (reachable_unique_rows c Hc) as [[Hdb _] [Hview _]].
  destruct Ht as [Ht|Ht]; [apply (Hdb t Ht)|apply (Hview t Ht)].
Qed.

Lemma person_rows_stay_unique_witness :
  exists t,
    personas_limpias
      (db (after (LoadIncremental (clock 2 0) (clock 2 5) (clock 2 9)
                    "personas_crudas.csv" sample_batch 2)
             (after (LoadRelational sample_batch) (connect empty_store))))
    = Some t
    /\ length (person_keys t) = 2%nat
    /\ NoDup (person_keys t).
Proof.
  eexists. split; [vm_compute; reflexivity|]. split; [reflexivity|].
  apply (person_rows_stay_unique
           (after (LoadIncremental (clock 2 0) (clock 2 5) (clock 2 9)
                     "personas_crudas.csv" sample_batch 2)
              (after (LoadRelational sample_batch) (connect empty_store)))).
  - apply reachable_after, reachable_after, reachable_fresh.
  - left. vm_compute. reflexivity.
Defined.

End ReachableStates.

(* ===================================================================== *)
(** ** What a load counts as inserted *)
(* ===================================================================== *)

Section Counting.
Import Sqlite.
Implicit Types (st : table ciudad * table persona) (v w : canonical)
  (cs : table ciudad) (ps : table persona).



Lemma add_ciudad_ids name cs i :
  i ∈ (c_ciudad_id <$> rows cs) -> i ∈ (c_ciudad_id <$> rows (add_ciudad name cs)).
Proof.
  intros Hi. destruct (find_ciudad_id name cs) as [cid|] eqn:Hf.
  - by rewrite (proj1 (add_ciudad_known _ _ _ Hf)).
  - rewrite (proj1 (add_ciudad_new _ _ Hf)), fmap_app.
    apply elem_of_app. by left.
Qed.

Lemma add_persona_keys n e cid pa rid ps k :
  k ∈ (persona_key <$> rows (add_persona n e cid pa rid ps)) ->
  k ∈ (persona_key <$> rows ps) \/ k = (n, e, cid).
Proof.
  destruct (add_persona_cases n e cid pa rid ps) as [[Hin ->]|[Hn ->]];
    [by left|].
  rewrite fmap_app. intros Hk. apply elem_of_app in Hk as [Hk|Hk]; [by left|].
  right. by apply list_elem_of_singleton in Hk.
Qed.











Lemma the_ciudades_prepared s : the_ciudades (prepared s) = the_ciudades s.
Proof. by destruct s as [[cs|] [[t|t]|] [n|] [r|]]. Qed.






Lemma audit_row_sum rid started src validos rej before after :
  let r := audit_row rid started src validos rej before after in
  inserted_new r + ignored_duplicates r = Z.of_nat (length validos).
Proof. simpl. lia. Qed.




(** The batch above on an empty store: two rows inserted, two occurrences
    ignored. *)
Example repeating_batch_counts :
  count_new (tables (prepared empty_store)) [] repeating_batch = 2%nat
  /\ (the_runs
        (db (IncrementalAudit.load_incremental empty_store (clock 1 0)
               (clock 1 5) (clock 1 9) "personas_crudas.csv"
               repeating_batch 0).2))
     = [{| er_run_id := "20240309T070501Z";
           started_at := "2024-03-09T07:05:01+00:00";
           source_file := "personas_crudas.csv";
           valid_count := 4; rejected_count := 0;
           inserted_new := 2; ignored_duplicates := 2 |}].
Proof. split; vm_compute; reflexivity. Qed.

End Counting.

(* ===================================================================== *)
(** ** The migration on reachable states *)
(* ===================================================================== *)

Section ReachableMigration.
Import Sqlite.
Local Open Scope conn_scope.

(** A statement that leaves [personas_limpias_new] alone. *)
Lemma keeps_scratch {A} (q : statement store A) :
  (forall s a s', q s = Returned (a, s') ->
     personas_limpias_new s' = personas_limpias_new s) ->
  keeps scratch_clear q.
Proof.
  intros Hq s a s' Hs E t Ht. apply Hs. by rewrite <- (Hq _ _ _ E).
Qed.

Lemma scratch_create_ciudades : keeps scratch_clear create_ciudades.
Proof.
  apply keeps_scratch. intros s a s' E. unfold create_ciudades in E.
  destruct (ciudades s); by injection E as _ <-.
Qed.

Lemma scratch_create_etl_runs : keeps scratch_clear create_etl_runs.
Proof.
  apply keeps_scratch. intros s a s' E. unfold create_etl_runs in E.
  destruct (etl_runs s); by injection E as _ <-.
Qed.

Lemma scratch_create_personas_limpias :
  keeps scratch_clear create_personas_limpias.
Proof.
  apply keeps_scratch. intros s a s' E. unfold create_personas_limpias in E.
  destruct (personas_limpias s); by injection E as _ <-.
Qed.

Lemma scratch_create_personas_limpias_rel :
  keeps scratch_clear create_personas_limpias_rel.
Proof.
  apply keeps_scratch. intros s a s' E. unfold create_personas_limpias_rel in E.
  destruct (personas_limpias s); by injection E as _ <-.
Qed.

Lemma scratch_insert_ciudad name : keeps scratch_clear (insert_ciudad name).
Proof.
  apply keeps_scratch. intros s a s' E. unfold insert_ciudad in E.
  destruct (ciudades s); [|done]. by injection E as _ <-.
Qed.

Lemma scratch_select_ciudad_id name :
  keeps scratch_clear (select_ciudad_id name).
Proof.
  apply keeps_scratch. intros s a s' E. unfold select_ciudad_id in E.
  destruct (ciudades s); [|done]. by injection E as _ <-.
Qed.

Lemma scratch_count_personas : keeps scratch_clear count_personas.
Proof.
  apply keeps_scratch. intros s a s' E. unfold count_personas in E.
  destruct (personas_limpias s); [|done]. by injection E as _ <-.
Qed.

Lemma scratch_insert_etl_run r : keeps scratch_clear (insert_etl_run r).
Proof.
  apply keeps_scratch. intros s a s' E. unfold insert_etl_run in E.
  destruct (etl_runs s) as [runs|]; [|done].
  destruct (existsb _ runs); [done|]. by injection E as _ <-.
Qed.

Lemma scratch_insert_persona n e cid pa rid :
  keeps scratch_clear (insert_persona n e cid pa rid).
Proof.
  apply keeps_scratch. intros s a s' E. unfold insert_persona in E.
  destruct (personas_limpias s) as [[t|t]|]; try done. by injection E as _ <-.
Qed.

Lemma scratch_insert_persona_rel n e cid :
  keeps scratch_clear (insert_persona_rel n e cid).
Proof.
  apply keeps_scratch. intros s a s' E. unfold insert_persona_rel in E.
  destruct (personas_limpias s) as [[t|t]|]; try done; by injection E as _ <-.
Qed.

(** Inside the migration [personas_limpias_new] is filled, but the step
    as a whole leaves none behind, or an empty one in the file when the
    copy is still uncommitted. *)
Lemma scratch_migrate :
  preserves scratch_clear IncrementalAudit.migrate_personas_limpias_if_needed.
Proof.
  intros [d tx o] [Hdb Hview]. destruct o; [|by split].
  destruct tx as [v|]; unfold everywhere, view in *;
    cbn [db txn default from_option id] in *.
  - destruct v as [cs [[t|t]|] [n|] r]; cbn; (split; [done|]); try done.
    all: intros t' [=].
  - destruct d as [cs [[t|t]|] [n|] r]; cbn; try (by split).
    all: split; intros t' [=]; subst; try done.
Qed.

End ReachableMigration.

#[export] Hint Resolve scratch_create_ciudades scratch_create_etl_runs
  scratch_create_personas_limpias scratch_create_personas_limpias_rel
  scratch_insert_ciudad scratch_select_ciudad_id scratch_count_personas
  scratch_insert_etl_run scratch_insert_persona scratch_insert_persona_rel
  : keeps.

(** As [preserve], with the migration taken as one step. *)
Ltac preserve_scratch :=
  repeat first
    [ apply scratch_migrate
    | apply preserves_ret
    | apply preserves_raise
    | apply preserves_commit
    | apply preserves_close
    | apply preserves_execute; solve [auto with keeps]
    | apply preserves_for_each; intros ?
    | apply preserves_bind; [|intros ?]
    | match goal with
      | |- preserves _ (match ?x with _ => _ end) => destruct x
      end ].

Section ReachableScratch.
Import Sqlite.
Local Open Scope conn_scope.

Lemma scratch_load_batch t1 t2 src validos rej :
  preserves scratch_clear (Batch.load_batch t1 t2 src validos rej).
Proof.
  unfold Batch.load_batch, Batch.ensure_schema, Batch.get_or_create_city_id.
  preserve_scratch.
Qed.

Lemma reachable_scratch_clear c : reachable c -> everywhere scratch_clear c.
Proof.
  induction 1 as [|o c Hc IH].
  - split; intros t H; discriminate H.
  - destruct o; cbn [after].
    + apply preserves_after; [|done].
      unfold IncrementalAudit.ensure_ciudades. preserve_scratch.
    + apply preserves_after; [apply scratch_migrate|done].
    + apply preserves_after; [|done].
      unfold IncrementalAudit.ensure_personas_limpias. preserve_scratch.
    + apply preserves_after; [|done].
      unfold IncrementalAudit.ensure_etl_runs. preserve_scratch.
    + apply preserves_after; [|done].
      unfold Batch.ensure_schema. preserve_scratch.
    + apply preserves_after; [|done].
      unfold Relational.ensure_schema. preserve_scratch.
    + apply preserves_after; [|done].
      unfold Batch.get_or_create_city_id. preserve_scratch.
    + apply preserves_after; [apply scratch_load_batch|done].
    + apply (preserves_after scratch_clear commit); [apply preserves_commit|done].
    + apply (preserves_after scratch_clear close); [apply preserves_close|done].
    + apply everywhere_connect, IH.
    + unfold IncrementalAudit.load_incremental.
      apply preserves_after; [|apply everywhere_connect, IH].
      unfold IncrementalAudit.ensure_ciudades,
        IncrementalAudit.ensure_personas_limpias,
        IncrementalAudit.ensure_etl_runs,
        IncrementalAudit.get_or_create_city_id.
      preserve_scratch.
    + unfold Relational.load_relational.
      destruct validos as [|v vs]; [done|].
      set (prog := bind Relational.ensure_schema _).
      pose proof (preserves_after scratch_clear prog (connect (db c))) as H.
      destruct (prog (connect (db c))) as [r c'] eqn:E. simpl in *.
      apply H; [|apply everywhere_connect; apply IH].
      unfold prog, Relational.ensure_schema, Relational.get_or_create_city_id.
      preserve_scratch.
    + unfold Batch.main. destruct archivos as [|f fs]; [done|].
      set (prog := bind (for_each _ (f :: fs)) _).
      pose proof (preserves_after scratch_clear prog (connect (db c))) as H.
      destruct (prog (connect (db c))) as [r c'] eqn:E. simpl in *.
      apply H; [|apply everywhere_connect; apply IH].
      unfold prog. preserve_scratch.
Qed.

(** On every reachable state the migration finds what its two safety
    properties ask for: an old Person table that satisfies its
    constraints, and no rows left in [personas_limpias_new]. *)
Lemma reachable_old_schema_ready c t :
  reachable c -> personas_limpias (view c) = Some (Relational t) ->
  old_table_ok t /\ scratch_clear (view c).
Proof.
  intros Hc Ht. split.
  - destruct (reachable_unique_rows c Hc) as [_ [Hview _]].
    apply (Hview _ Ht).
  - apply (reachable_scratch_clear c Hc).
Qed.

End ReachableScratch.

(* ===================================================================== *)
(** ** Referential integrity on reachable states *)
(* ===================================================================== *)

Section TriplesWithValues.
Import Sqlite.
Context {S : Type}.

(** A statement that keeps [I] when its argument satisfies [P]. *)
Lemma triple_execute_given {A} (I P : S -> Prop) (w : bool) (q : statement S A) :
  (forall s a s', I s -> P s -> q s = Returned (a, s') -> I s') ->
  triple (fun c => everywhere I c /\ P (view c)) (execute w q)
         (fun _ => everywhere I) (everywhere I).
Proof.
  intros Hq c [[Hdb Hview] HP]. unfold execute.
  destruct (is_open c); [|by split].
  destruct (q (view c)) as [[a s']|e] eqn:Eq.
  - specialize (Hq _ _ _ Hview HP Eq). unfold everywhere.
    rewrite view_set_view. split; [|done].
    unfold set_view. destruct w; simpl; [done|].
    destruct (txn c); simpl; done.
  - destruct e; try by split.
    destruct w; by split.
Qed.

(** What a statement that keeps [I] says about its result. *)
Lemma triple_execute_result {A} (I : S -> Prop) (Q : A -> S -> Prop) (w : bool)
    (q : statement S A) :
  keeps I q ->
  (forall s a s', I s -> q s = Returned (a, s') -> Q a s') ->
  triple (everywhere I) (execute w q)
         (fun a c => everywhere I c /\ Q a (view c)) (everywhere I).
Proof.
  intros Hq HQ c [Hdb Hview]. unfold execute.
  destruct (is_open c); [|by split].
  destruct (q (view c)) as [[a s']|e] eqn:Eq.
  - pose proof (Hq _ _ _ Hview Eq) as Hs'. pose proof (HQ _ _ _ Hview Eq) as HQ'.
    unfold everywhere. rewrite view_set_view. split; [|done]. split; [|done].
    unfold set_view. destruct w; simpl; [done|].
    destruct (txn c); simpl; done.
  - destruct e; try by split.
    destruct w; by split.
Qed.
End TriplesWithValues.

Section CitiesOk.
Import Sqlite.
Local Open Scope conn_scope.

(** A statement that leaves the cities and both Person tables alone. *)
Lemma cities_unchanged {A} (q : statement store A) :
  (forall s a s', q s = Returned (a, s') ->
     ciudades s' = ciudades s /\ personas_limpias s' = personas_limpias s
     /\ personas_limpias_new s' = personas_limpias_new s) ->
  keeps cities_ok q.
Proof.
  intros Hq s a s' (Hids & Hfk & Hclear) E.
  destruct (Hq _ _ _ E) as (Ec & Ep & En).
  unfold cities_ok, ciudad_ids, the_ciudades, scratch_clear in *.
  rewrite Ec, Ep, En. by repeat split.
Qed.

Lemma cities_table_info name : keeps cities_ok (table_info name).
Proof.
  apply cities_unchanged. intros s a s' E. unfold table_info in E.
  by injection E as _ <-.
Qed.

Lemma cities_personas_limpias_exists : keeps cities_ok personas_limpias_exists.
Proof.
  apply cities_unchanged. intros s a s' E. unfold personas_limpias_exists in E.
  by injection E as _ <-.
Qed.

Lemma cities_select_ciudad_id name : keeps cities_ok (select_ciudad_id name).
Proof.
  apply cities_unchanged. intros s a s' E. unfold select_ciudad_id in E.
  destruct (ciudades s) eqn:Ec; [|done]. by injection E as _ <-.
Qed.

Lemma cities_count_personas : keeps cities_ok count_personas.
Proof.
  apply cities_unchanged. intros s a s' E. unfold count_personas in E.
  destruct (personas_limpias s) eqn:Ep; [|done]. by injection E as _ <-.
Qed.

Lemma cities_insert_etl_run r : keeps cities_ok (insert_etl_run r).
Proof.
  apply cities_unchanged. intros s a s' E. unfold insert_etl_run in E.
  destruct (etl_runs s) as [runs|]; [|done].
  destruct (existsb _ runs); [done|]. by injection E as _ <-.
Qed.

Lemma cities_create_etl_runs : keeps cities_ok create_etl_runs.
Proof.
  apply cities_unchanged. intros s a s' E. unfold create_etl_runs in E.
  destruct (etl_runs s); by injection E as _ <-.
Qed.

Lemma cities_create_ciudades : keeps cities_ok create_ciudades.
Proof.
  intros s a s' Hs E. unfold create_ciudades in E.
  destruct (ciudades s) eqn:Ec; injection E as _ <-; [done|].
  destruct Hs as (Hids & Hfk & Hclear).
  unfold cities_ok, ciudad_ids, the_ciudades in *. rewrite Ec in *.
  by repeat split.
Qed.

Lemma cities_create_personas_limpias : keeps cities_ok create_personas_limpias.
Proof.
  intros s a s' Hs E. unfold create_personas_limpias in E.
  destruct (personas_limpias s) eqn:Ep; injection E as _ <-; [done|].
  destruct Hs as (Hids & Hfk & Hclear). split; [done|]. split; [|done].
  simpl. intros t [= <-] k Hk. by apply elem_of_nil in Hk.
Qed.

Lemma cities_create_personas_limpias_rel :
  keeps cities_ok create_personas_limpias_rel.
Proof.
  intros s a s' Hs E. unfold create_personas_limpias_rel in E.
  destruct (personas_limpias s) eqn:Ep; injection E as _ <-; [done|].
  destruct Hs as (Hids & Hfk & Hclear). split; [done|]. split; [|done].
  simpl. intros t [= <-] k Hk. by apply elem_of_nil in Hk.
Qed.

(** A new city keeps the identifiers unique and takes none away. *)
Lemma cities_insert_ciudad name : keeps cities_ok (insert_ciudad name).
Proof.
  intros s a s' (Hids & Hfk & Hclear) E. unfold insert_ciudad in E.
  destruct (ciudades s) as [cs|] eqn:Ec; [|done]. injection E as _ <-.
  unfold cities_ok, ciudad_ids, the_ciudades in *. rewrite Ec in *. simpl in *.
  split; [by apply insert_or_ignore_NoDup_pk|]. split; [|done].
  intros t Ht k Hk. by apply add_ciudad_ids, (Hfk t).
Qed.

(** The loader's insert keeps the reference when the identifier is that
    of a city. *)
Lemma cities_insert_persona n e cid pa rid s a s' :
  cities_ok s -> cid ∈ ciudad_ids s ->
  insert_persona n e cid pa rid s = Returned (a, s') -> cities_ok s'.
Proof.
  intros (Hids & Hfk & Hclear) Hcid E. unfold insert_persona in E.
  destruct (personas_limpias s) as [[t|t]|] eqn:Ep; try done.
  injection E as _ <-. split; [done|]. split; [|done].
  simpl. intros t' [= <-] k Hk. simpl in Hk.
  apply add_persona_keys in Hk as [Hk| ->]; [|done].
  by apply (Hfk (Audited t)).
Qed.

Lemma add_persona_rel_keys n e cid (t : table persona_rel) k :
  k ∈ (persona_rel_key <$> rows (add_persona_rel n e cid t)) ->
  k ∈ (persona_rel_key <$> rows t) \/ k = (n, e, cid).
Proof.
  unfold add_persona_rel, insert_or_ignore_auto.
  destruct (insert_or_ignore_prefix r_persona_id persona_rel_key
              {| r_persona_id := next_rowid r_persona_id t; r_nombre := n;
                 r_edad := e; r_ciudad_id := cid |} t) as [->|[-> _]];
    [by left|].
  rewrite fmap_app. intros Hk. apply elem_of_app in Hk as [Hk|Hk]; [by left|].
  right. by apply list_elem_of_singleton in Hk.
Qed.

Lemma cities_insert_persona_rel n e cid s a s' :
  cities_ok s -> cid ∈ ciudad_ids s ->
  insert_persona_rel n e cid s = Returned (a, s') -> cities_ok s'.
Proof.
  intros (Hids & Hfk & Hclear) Hcid E. unfold insert_persona_rel in E.
  destruct (personas_limpias s) as [[t|t]|] eqn:Ep; try done;
    injection E as _ <-; (split; [done|]); (split; [|done]);
    simpl; intros t' [= <-] k Hk; simpl in Hk.
  - apply add_persona_rel_keys in Hk as [Hk| ->]; [|done].
    by apply (Hfk (Relational t)).
  - by apply (Hfk (Audited t)).
Qed.

Lemma select_ciudad_id_known name s fetched s' :
  select_ciudad_id name s = Returned (fetched, s') ->
  forall cid, fetched = Some cid -> cid ∈ ciudad_ids s'.
Proof.
  unfold select_ciudad_id. intros E cid ->.
  destruct (ciudades s) as [cs|] eqn:Ec; [|done]. injection E as E <-.
  unfold ciudad_ids, the_ciudades. rewrite Ec. simpl.
  by apply find_ciudad_id_Some in E as [_ E].
Qed.

(** [get_or_create_city_id] returns the identifier of a city. *)
Lemma cities_get_or_create_city_id name :
  triple (everywhere cities_ok) (Batch.get_or_create_city_id name)
         (fun cid c => everywhere cities_ok c /\ cid ∈ ciudad_ids (view c))
         (everywhere cities_ok).
Proof.
  unfold Batch.get_or_create_city_id.
  eapply triple_bind;
    [apply (triple_execute cities_ok), cities_insert_ciudad|intros ?].
  eapply triple_bind.
  { apply (triple_execute_result cities_ok
             (fun fetched s => forall cid, fetched = Some cid -> cid ∈ ciudad_ids s)).
    - apply cities_select_ciudad_id.
    - intros s0 fetched s1 _ E. by apply (select_ciudad_id_known name s0). }
  intros [cid|].
  - apply triple_ret. intros c [Hc Hcid]. split; [done|]. by apply Hcid.
  - apply triple_raise. by intros c [Hc _].
Qed.

Lemma cities_load_body pa rid (v : canonical) :
  preserves cities_ok
    (let '(n, e, c) := v in
     let* cid := Batch.get_or_create_city_id c in
     execute true (insert_persona n e cid pa rid)).
Proof.
  destruct v as [[n e] c].
  eapply triple_bind; [apply cities_get_or_create_city_id|intros cid].
  apply (triple_execute_given cities_ok (fun s => cid ∈ ciudad_ids s)).
  intros s a s'. apply cities_insert_persona.
Qed.

Lemma cities_load_body_rel (v : canonical) :
  preserves cities_ok
    (let '(n, e, c) := v in
     let* cid := Batch.get_or_create_city_id c in
     execute true (insert_persona_rel n e cid)).
Proof.
  destruct v as [[n e] c].
  eapply triple_bind; [apply cities_get_or_create_city_id|intros cid].
  apply (triple_execute_given cities_ok (fun s => cid ∈ ciudad_ids s)).
  intros s a s'. apply cities_insert_persona_rel.
Qed.

Lemma insert_all_keys (l : list persona) (t : table persona) k :
  k ∈ (persona_key <$> rows (insert_all l t)) ->
  k ∈ (persona_key <$> rows t) \/ k ∈ (persona_key <$> l).
Proof.
  revert t. induction l as [|r l IH]; intros t Hk; [by left|].
  rewrite insert_all_cons in Hk. apply IH in Hk as [Hk|Hk].
  - destruct (insert_or_ignore_prefix persona_id persona_key r t)
      as [E|[E _]]; rewrite E in Hk; [by left|].
    rewrite fmap_app in Hk. apply elem_of_app in Hk as [Hk|Hk]; [by left|].
    right. apply list_elem_of_singleton in Hk. subst. rewrite fmap_cons.
    by left.
  - right. rewrite fmap_cons. by right.
Qed.

End CitiesOk.

Section ReachableCities.
Import Sqlite.
Local Open Scope conn_scope.

Lemma cities_ok_migrated s : cities_ok s -> cities_ok (migrated s).
Proof.
  intros Hs. unfold migrated.
  destruct (personas_limpias s) as [[t|t]|] eqn:Ep; [|exact Hs|exact Hs].
  destruct Hs as (Hids & Hfk & Hclear).
  split; [done|]. split; [|by intros t' [=]].
  simpl. intros t' [= <-] k Hk. simpl in Hk.
  apply insert_all_keys in Hk as [Hk|Hk].
  - destruct (personas_limpias_new s) as [n|] eqn:En; simpl in Hk.
    + rewrite (Hclear n En) in Hk. by apply elem_of_nil in Hk.
    + by apply elem_of_nil in Hk.
  - change (select_with_defaults _ _ (Relational t)) with (upgraded <$> rows t)
      in Hk.
    rewrite upgraded_keys in Hk. by apply (Hfk (Relational t) Ep).
Qed.

Lemma cities_ok_scratch_created s :
  cities_ok s -> cities_ok (created create_personas_limpias_new s).
Proof.
  intros (Hids & Hfk & Hclear). unfold created, create_personas_limpias_new.
  destruct (personas_limpias_new s) as [n|] eqn:En; [by repeat split|].
  split; [done|]. split; [done|]. by intros t' [= <-].
Qed.

(** What the migration step leaves in the file itself: nothing new, or
    the empty [personas_limpias_new] created outside a transaction. *)
Lemma migrate_db c :
  let c' := (IncrementalAudit.migrate_personas_limpias_if_needed c).2 in
  db c' = db c \/ db c' = created create_personas_limpias_new (db c).
Proof.
  destruct c as [d tx o]. destruct o; [|by left].
  destruct tx as [v|].
  - destruct v as [cs [[t|t]|] [n|] r]; by left.
  - destruct d as [cs [[t|t]|] [n|] r]; first [by left|by right].
Qed.

Lemma cities_migrate :
  preserves cities_ok IncrementalAudit.migrate_personas_limpias_if_needed.
Proof.
  intros c [Hdb Hview].
  pose proof (migrate_db c) as Hd. cbv zeta in Hd.
  destruct (is_open c) eqn:Ho.
  - destruct (migrate_runs (view c) c Ho eq_refl) as (c' & E & _ & Hv).
    rewrite E in *. simpl in Hd. split.
    + destruct Hd as [->| ->]; [done|by apply cities_ok_scratch_created].
    + rewrite Hv. by apply cities_ok_migrated.
  - assert (E : IncrementalAudit.migrate_personas_limpias_if_needed c
                = (Raised closed_error, c)).
    { unfold IncrementalAudit.migrate_personas_limpias_if_needed, bind, execute.
      by rewrite Ho. }
    rewrite E. by split.
Qed.

End ReachableCities.

#[export] Hint Resolve cities_table_info cities_personas_limpias_exists
  cities_select_ciudad_id cities_count_personas cities_insert_etl_run
  cities_create_etl_runs cities_create_ciudades cities_create_personas_limpias
  cities_create_personas_limpias_rel cities_insert_ciudad : keeps.

(** As [preserve], with the migration and the body of the insert loop
    taken as one step each. *)
Ltac preserve_cities :=
  repeat first
    [ apply cities_migrate
    | apply cities_load_body
    | apply cities_load_body_rel
    | apply preserves_ret
    | apply preserves_raise
    | apply preserves_commit
    | apply preserves_close
    | apply preserves_execute; solve [auto with keeps]
    | apply preserves_for_each; intros ?
    | apply preserves_bind; [|intros ?]
    | match goal with
      | |- preserves _ (match ?x with _ => _ end) => destruct x
      end ].

Section ReachableConsistent.
Import Sqlite.
Local Open Scope conn_scope.

Lemma cities_load_batch t1 t2 src validos rej :
  preserves cities_ok (Batch.load_batch t1 t2 src validos rej).
Proof.
  unfold Batch.load_batch, Batch.ensure_schema. preserve_cities.
Qed.

Lemma reachable_cities_ok c : reachable c -> everywhere cities_ok c.
Proof.
  induction 1 as [|o c Hc IH].
  - apply everywhere_connect. split; [constructor|].
    split; intros t H; discriminate H.
  - destruct o; cbn [after].
    + apply preserves_after; [|done].
      unfold IncrementalAudit.ensure_ciudades. preserve_cities.
    + apply preserves_after; [apply cities_migrate|done].
    + apply preserves_after; [|done].
      unfold IncrementalAudit.ensure_personas_limpias. preserve_cities.
    + apply preserves_after; [|done].
      unfold IncrementalAudit.ensure_etl_runs. preserve_cities.
    + apply preserves_after; [|done].
      unfold Batch.ensure_schema. preserve_cities.
    + apply preserves_after; [|done].
      unfold Relational.ensure_schema. preserve_cities.
    + apply preserves_after; [|done].
      eapply triple_weaken; [apply cities_get_or_create_city_id| | |];
        simpl; intuition.
    + apply preserves_after; [apply cities_load_batch|done].
    + apply (preserves_after cities_ok commit); [apply preserves_commit|done].
    + apply (preserves_after cities_ok close); [apply preserves_close|done].
    + apply everywhere_connect, IH.
    + unfold IncrementalAudit.load_incremental.
      apply preserves_after; [|apply everywhere_connect, IH].
      unfold IncrementalAudit.ensure_ciudades,
        IncrementalAudit.ensure_personas_limpias,
        IncrementalAudit.ensure_etl_runs.
      preserve_cities.
    + unfold Relational.load_relational.
      destruct validos as [|v vs]; [done|].
      set (prog := bind Relational.ensure_schema _).
      pose proof (preserves_after cities_ok prog (connect (db c))) as H.
      destruct (prog (connect (db c))) as [r c'] eqn:E. simpl in *.
      apply H; [|apply everywhere_connect; apply IH].
      unfold prog, Relational.ensure_schema. preserve_cities.
    + unfold Batch.main. destruct archivos as [|f fs]; [done|].
      set (prog := bind (for_each _ (f :: fs)) _).
      pose proof (preserves_after cities_ok prog (connect (db c))) as H.
      destruct (prog (connect (db c))) as [r c'] eqn:E. simpl in *.
      apply H; [|apply everywhere_connect; apply IH].
      unfold prog. preserve_cities.
Qed.

(** Every reachable state satisfies the constraints the counting of a
    load relies on. *)
Lemma reachable_store_consistent c :
  reachable c -> store_consistent (db c) /\ store_consistent (view c).
Proof.
  intros Hc.
  destruct (reachable_unique_rows c Hc) as [[Udb _] [Uview _]].
  destruct (reachable_cities_ok c Hc)
    as [(Idb & Fdb & Cdb) (Iview & Fview & Cview)].
  split; (split; [done|]); (split; [|done]); intros t Ht.
  - destruct (Udb t Ht) as [? ?]. repeat split; try done. by apply Fdb.
  - destruct (Uview t Ht) as [? ?]. repeat split; try done. by apply Fview.
Qed.

End ReachableConsistent.

(* ===================================================================== *)
(** ** More on the transformers *)
(* ===================================================================== *)

Lemma required_cols_present (row : raw_record) :
  required_cols ⊆ dom row
  <-> is_Some (row !! "nombre") /\ is_Some (row !! "edad")
      /\ is_Some (row !! "ciudad").
Proof.
  unfold required_cols.
  rewrite !union_subseteq, !singleton_subseteq_l, !elem_of_dom. tauto.
Qed.

Lemma dict_get_Some (row : raw_record) (k s : string) :
  dict_get row k = Some s <-> row !! k = Some (Some s).
Proof.
  unfold dict_get. destruct (row !! k) as [[?|]|]; simpl; naive_solver.
Qed.

Lemma accepts_present (edad_min : Z) (row : raw_record) (v : canonical) :
  accepts edad_min row v -> required_cols ⊆ dom row.
Proof.
  intros (n & e & c & Hn & He & Hc & _).
  apply required_cols_present. rewrite Hn, He, Hc. eauto.
Qed.

Lemma audit_row_accepts (edad_min : Z) (row : raw_record) (v : canonical) :
  IncrementalAudit.transform_row edad_min row = inl v <-> accepts edad_min row v.
Proof.
  unfold IncrementalAudit.transform_row. split.
  - destruct (bool_decide (required_cols ⊆ dom row)); cbn [negb]; [|done].
    destruct (dict_get row "nombre") as [n|] eqn:Hn; [|done].
    destruct (dict_get row "edad") as [e|] eqn:He; [|done].
    destruct (dict_get row "ciudad") as [c|] eqn:Hc; [|done].
    unfold IncrementalAudit.normalize_text.
    destruct (Py.int e) as [a|] eqn:Ha; [|done].
    destruct (a <? edad_min) eqn:Hlt; [done|].
    intros [= <-]. exists n, e, c. cbn.
    apply dict_get_Some in Hn, He, Hc. apply Z.ltb_ge in Hlt. done.
  - intros Hv. pose proof (accepts_present _ _ _ Hv) as Hcols.
    destruct Hv as (n & e & c & Hn & He & Hc & Ha & Hmin & En & Ec).
    rewrite bool_decide_eq_true_2 by done. cbn [negb].
    apply dict_get_Some in Hn, He, Hc. rewrite Hn, He, Hc.
    unfold IncrementalAudit.normalize_text. rewrite Ha.
    apply Z.ltb_ge in Hmin. rewrite Hmin.
    destruct v as [[vn va] vc]. cbn in *. by subst.
Qed.

Lemma batch_row_accepts (edad_min : Z) (row : raw_record) (v : canonical) :
  Batch.transform_row edad_min row = inl v <-> accepts edad_min row v.
Proof.
  unfold Batch.transform_row, Batch.normalize_row. split.
  - destruct (bool_decide (required_cols ⊆ dom row)); cbn [negb]; [|done].
    destruct (dict_get row "nombre") as [n|] eqn:Hn; [|done].
    destruct (dict_get row "ciudad") as [c|] eqn:Hc; [|done].
    destruct (dict_get row "edad") as [e|] eqn:He; [|done].
    cbn. destruct (Py.int e) as [a|] eqn:Ha; [|done].
    cbn. destruct (a <? edad_min) eqn:Hlt; [done|].
    intros [= <-]. exists n, e, c. cbn.
    apply dict_get_Some in Hn, He, Hc. apply Z.ltb_ge in Hlt. done.
  - intros Hv. pose proof (accepts_present _ _ _ Hv) as Hcols.
    destruct Hv as (n & e & c & Hn & He & Hc & Ha & Hmin & En & Ec).
    rewrite bool_decide_eq_true_2 by done. cbn [negb].
    apply dict_get_Some in Hn, He, Hc. rewrite Hn, He, Hc.
    cbn. rewrite Ha. cbn.
    apply Z.ltb_ge in Hmin. rewrite Hmin.
    destruct v as [[vn va] vc]. cbn in *. by subst.
Qed.

Lemma valid_of_inl {V R : Type} (o : V + R) (v : V) :
  valid_of o = Some v <-> o = inl v.
Proof. destruct o; simpl; naive_solver. Qed.

Lemma batch_audit_same_valid (edad_min : Z) (row : raw_record) :
  valid_of (Batch.transform_row edad_min row)
  = valid_of (IncrementalAudit.transform_row edad_min row).
Proof.
  apply option_eq. intros v.
  by rewrite !valid_of_inl, batch_row_accepts, audit_row_accepts.
Qed.

Lemma omap_pointwise {A B : Type} (f g : A -> option B) (l : list A) :
  (forall x, f x = g x) -> omap f l = omap g l.
Proof.
  intros E. induction l as [|x l IH]; [done|]. cbn. by rewrite E, IH.
Qed.

Lemma audit_valid_omap (datos : list raw_record) (edad_min : Z) :
  (IncrementalAudit.transform_with_rejections datos edad_min).1
  = omap (fun row => valid_of (IncrementalAudit.transform_row edad_min row)) datos.
Proof.
  unfold IncrementalAudit.transform_with_rejections.
  by rewrite foldl_accumulate.
Qed.

Lemma batch_valid_omap (datos : list raw_record) (edad_min : Z) :
  (Batch.transform_with_rejections datos edad_min).1
  = omap (fun row => valid_of (Batch.transform_row edad_min row)) datos.
Proof.
  unfold Batch.transform_with_rejections.
  by rewrite foldl_accumulate.
Qed.

(** X1. The transformers work row by row: transforming a file in two
    pieces and concatenating the valid and the rejected lists gives what
    transforming the whole file gives, for etl_incremental_audit.py (and
    etl_relational.py) and for etl_batch.py. *)
Theorem transform_with_rejections_app
    (first rest : list raw_record) (edad_min : Z) :
  IncrementalAudit.transform_with_rejections (first ++ rest) edad_min
  = ((IncrementalAudit.transform_with_rejections first edad_min).1
       ++ (IncrementalAudit.transform_with_rejections rest edad_min).1,
     (IncrementalAudit.transform_with_rejections first edad_min).2
       ++ (IncrementalAudit.transform_with_rejections rest edad_min).2)
  /\ Batch.transform_with_rejections (first ++ rest) edad_min
     = ((Batch.transform_with_rejections first edad_min).1
          ++ (Batch.transform_with_rejections rest edad_min).1,
        (Batch.transform_with_rejections first edad_min).2
          ++ (Batch.transform_with_rejections rest edad_min).2).
Proof.
  unfold IncrementalAudit.transform_with_rejections,
    Batch.transform_with_rejections.
  rewrite !foldl_accumulate. cbn [fst snd app].
  by rewrite !omap_app.
Qed.

(** X2. The two transformers accept the same rows: on every input and
    threshold [transform_with_rejections] of etl_batch.py returns the valid
    list of [transform_with_rejections] of etl_incremental_audit.py, and as
    many rejected records; they differ only in what a rejected record
    holds. *)
Theorem transformers_agree_on_valid_records
    (datos_crudos : list raw_record) (edad_min : Z) :
  (Batch.transform_with_rejections datos_crudos edad_min).1
  = (IncrementalAudit.transform_with_rejections datos_crudos edad_min).1
  /\ length (Batch.transform_with_rejections datos_crudos edad_min).2
     = length (IncrementalAudit.transform_with_rejections datos_crudos edad_min).2.
Proof.
  assert (E : (Batch.transform_with_rejections datos_crudos edad_min).1
    = (IncrementalAudit.transform_with_rejections datos_crudos edad_min).1).
  { rewrite batch_valid_omap, audit_valid_omap.
    apply omap_pointwise, batch_audit_same_valid. }
  split; [exact E|].
  pose proof (omap_split_length (Batch.transform_row edad_min) datos_crudos) as Hb.
  pose proof (omap_split_length (IncrementalAudit.transform_row edad_min)
                datos_crudos) as Ha.
  apply (f_equal length) in E. revert E.
  unfold IncrementalAudit.transform_with_rejections,
    Batch.transform_with_rejections.
  rewrite !foldl_accumulate. cbn [fst snd app]. lia.
Qed.

(** X3. A record is in the valid list exactly when some input row holds
    three strings, an age that [int] parses to at least the threshold, and
    the record is that row's capitalised name, parsed age and title-cased
    city. *)
Theorem valid_records_characterised
    (datos_crudos : list raw_record) (edad_min : Z) (v : canonical) :
  v ∈ (IncrementalAudit.transform_with_rejections datos_crudos edad_min).1
  <-> exists row, row ∈ datos_crudos /\ accepts edad_min row v.
Proof.
  rewrite audit_valid_omap, list_elem_of_omap.
  by setoid_rewrite valid_of_inl; setoid_rewrite audit_row_accepts.
Qed.

Lemma accepts_lower (lo hi : Z) (row : raw_record) (v : canonical) :
  lo <= hi -> accepts hi row v -> accepts lo row v.
Proof.
  intros Hle (n & e & c & Hn & He & Hc & Ha & Hmin & Hrest).
  exists n, e, c. repeat (split; [done|]). split; [lia|done].
Qed.

Lemma omap_sublist {A B : Type} (f g : A -> option B) (l : list A) :
  (forall x y, f x = Some y -> g x = Some y) ->
  omap f l `sublist_of` omap g l.
Proof.
  intros Hfg. induction l as [|x l IH]; [constructor|]. cbn.
  destruct (f x) as [y|] eqn:Hf.
  - rewrite (Hfg _ _ Hf). by constructor.
  - destruct (g x); [by constructor|done].
Qed.

(** X4. Raising the age threshold only removes records: the valid list for
    the higher threshold is a sublist, in the same order and with the same
    values, of the valid list for the lower one. *)
Theorem raising_the_threshold_drops_records
    (datos_crudos : list raw_record) (lo hi : Z) :
  lo <= hi ->
  (IncrementalAudit.transform_with_rejections datos_crudos hi).1
    `sublist_of` (IncrementalAudit.transform_with_rejections datos_crudos lo).1
  /\ (Batch.transform_with_rejections datos_crudos hi).1
       `sublist_of` (Batch.transform_with_rejections datos_crudos lo).1.
Proof.
  intros Hle. rewrite !audit_valid_omap, !batch_valid_omap.
  split; apply omap_sublist; intros row v; rewrite !valid_of_inl.
  - rewrite !audit_row_accepts. by apply accepts_lower.
  - rewrite !batch_row_accepts. by apply accepts_lower.
Qed.

Lemma raising_the_threshold_drops_records_witness :
  18 <= 25
  /\ (IncrementalAudit.transform_with_rejections
        [raw " ana " "30" "lima"; raw "Luis" "20" "cusco"] 25).1
       `sublist_of`
     (IncrementalAudit.transform_with_rejections
        [raw " ana " "30" "lima"; raw "Luis" "20" "cusco"] 18).1
  /\ (Batch.transform_with_rejections
        [raw " ana " "30" "lima"; raw "Luis" "20" "cusco"] 25).1
       `sublist_of`
     (Batch.transform_with_rejections
        [raw " ana " "30" "lima"; raw "Luis" "20" "cusco"] 18).1.
Proof.
  split; [lia|].
  apply (raising_the_threshold_drops_records
           [raw " ana " "30" "lima"; raw "Luis" "20" "cusco"] 18 25).
  lia.
Defined.

Lemma dom_rejected_row (n e c : option string) (m : string) :
  dom (IncrementalAudit.rejected_row n e c m) = rejected_cols.
Proof.
  unfold IncrementalAudit.rejected_row, rejected_cols.
  rewrite !dom_insert_L, dom_empty_L, (right_id_L ∅ (∪)).
  by rewrite !(assoc_L (∪)).
Qed.

Lemma rejected_row_lookup (n e c : option string) (m : string) :
  IncrementalAudit.rejected_row n e c m !! "nombre" = Some n
  /\ IncrementalAudit.rejected_row n e c m !! "edad" = Some e
  /\ IncrementalAudit.rejected_row n e c m !! "ciudad" = Some c.
Proof.
  unfold IncrementalAudit.rejected_row. split; [|split].
  - apply lookup_insert_eq.
  - rewrite lookup_insert_ne by done. apply lookup_insert_eq.
  - rewrite !lookup_insert_ne by done. apply lookup_insert_eq.
Qed.

Lemma rejected_of_inr {V R : Type} (o : V + R) (r : R) :
  rejected_of o = Some r <-> o = inr r.
Proof. destruct o; simpl; naive_solver. Qed.

Lemma audit_rejected_omap (datos : list raw_record) (edad_min : Z) :
  (IncrementalAudit.transform_with_rejections datos edad_min).2
  = omap (fun row => rejected_of (IncrementalAudit.transform_row edad_min row))
         datos.
Proof.
  unfold IncrementalAudit.transform_with_rejections.
  by rewrite foldl_accumulate.
Qed.

Lemma audit_rejected_row_shape (edad_min : Z) (row rej : raw_record) :
  IncrementalAudit.transform_row edad_min row = inr rej ->
  exists n e c m,
    rej = IncrementalAudit.rejected_row n e c m
    /\ (forall s, row !! "nombre" = Some (Some s) -> n = Some s)
    /\ (forall s, row !! "edad" = Some (Some s) -> e = Some s)
    /\ (forall s, row !! "ciudad" = Some (Some s) -> c = Some s).
Proof.
  unfold IncrementalAudit.transform_row.
  destruct (bool_decide (required_cols ⊆ dom row)); cbn [negb].
  2:{ intros [= <-]. do 4 eexists. split; [done|].
      unfold dict_get_default. repeat split; by intros s ->. }
  destruct (dict_get row "nombre") as [n|] eqn:Hn;
    destruct (dict_get row "edad") as [e|] eqn:He;
    destruct (dict_get row "ciudad") as [c|] eqn:Hc;
    try (intros [= <-]; do 4 eexists; (split; [done|]);
         repeat split; intros s Hs; apply dict_get_Some in Hs; congruence).
  unfold IncrementalAudit.normalize_text.
  destruct (Py.int e) as [a|]; [destruct (a <? edad_min); [|done]|];
    intros [= <-]; do 4 eexists; (split; [done|]);
    repeat split; intros s Hs; apply dict_get_Some in Hs; congruence.
Qed.

(** X5. Every record that [transform_with_rejections] of
    etl_incremental_audit.py (and etl_relational.py) rejects has exactly the
    four columns [write_rejected_csv] declares to [csv.DictWriter]: nombre,
    edad, ciudad and motivo, with a text under motivo; and it comes from an
    input row whose string values it carries unchanged, before any
    normalisation. *)
Theorem rejected_records_have_the_four_columns
    (datos_crudos : list raw_record) (edad_min : Z) (rej : raw_record) :
  rej ∈ (IncrementalAudit.transform_with_rejections datos_crudos edad_min).2 ->
  dom rej = rejected_cols
  /\ (exists motivo, rej !! "motivo" = Some (Some motivo))
  /\ exists row,
       row ∈ datos_crudos
       /\ forall k s,
            k ∈ required_cols -> row !! k = Some (Some s) ->
            rej !! k = Some (Some s).
Proof.
  rewrite audit_rejected_omap, list_elem_of_omap.
  intros (row & Hin & Hrej). apply rejected_of_inr in Hrej.
  destruct (audit_rejected_row_shape _ _ _ Hrej)
    as (n & e & c & m & -> & Hn & He & Hc).
  split; [apply dom_rejected_row|].
  split; [eexists; apply rejected_row_motivo|].
  exists row. split; [done|]. intros k s Hk Hs.
  destruct (rejected_row_lookup n e c m) as (Ln & Le & Lc).
  unfold required_cols in Hk.
  rewrite !elem_of_union, !elem_of_singleton in Hk.
  destruct Hk as [[->| ->]| ->].
  - by rewrite Ln, (Hn _ Hs).
  - by rewrite Le, (He _ Hs).
  - by rewrite Lc, (Hc _ Hs).
Qed.

Lemma rejected_records_have_the_four_columns_witness :
  let datos := [raw "Pedro" "error" "Queretaro"] in
  let rej :=
    IncrementalAudit.rejected_row (Some "Pedro") (Some "error")
      (Some "Queretaro") "Edad no convertible a int" in
  rej ∈ (IncrementalAudit.transform_with_rejections datos 25).2
  /\ dom rej = rejected_cols
  /\ (exists motivo, rej !! "motivo" = Some (Some motivo))
  /\ exists row,
       row ∈ datos
       /\ forall k s,
            k ∈ required_cols -> row !! k = Some (Some s) ->
            rej !! k = Some (Some s).
Proof.
  intros datos rej.
  assert (H : rej ∈ (IncrementalAudit.transform_with_rejections datos 25).2).
  { apply (bool_decide_unpack _). vm_compute. exact I. }
  split; [exact H|].
  exact (rejected_records_have_the_four_columns datos 25 rej H).
Defined.

(** X6. [transform_with_rejections] of etl_batch.py goes through the same
    five stages as the one of etl_incremental_audit.py and stops at the same
    one, but names only three reasons: a null field, a failed normalisation
    and an age that does not parse all give "Normalización o tipo inválido".
    The rejected record is the input row with that reason added; a row
    that passes every stage gives the same valid record in both files. *)
Theorem batch_reasons_follow_the_stages (edad_min : Z) (row : raw_record) :
  match first_failure edad_min row with
  | Some r =>
      Batch.transform_row edad_min row
      = inr (Batch.with_motivo row (batch_motivo_of edad_min r))
  | None =>
      exists v,
        Batch.transform_row edad_min row = inl v
        /\ IncrementalAudit.transform_row edad_min row = inl v
  end.
Proof.
  unfold first_failure, stages. cbn [find].
  rewrite stage_fails_nulls. cbn [stage_fails].
  unfold Batch.transform_row, IncrementalAudit.transform_row,
    Batch.normalize_row.
  destruct (bool_decide (required_cols ⊆ dom row)); cbn [negb]; [|done].
  destruct (dict_get row "nombre") as [n|];
    destruct (dict_get row "edad") as [e|];
    destruct (dict_get row "ciudad") as [c|]; try done.
  cbn [mbind option_bind]. unfold IncrementalAudit.normalize_text.
  rewrite bool_decide_eq_false_2 by discriminate.
  destruct (Py.int e) as [a|]; cbn [mbind option_bind].
  - rewrite bool_decide_eq_false_2 by discriminate.
    destruct (a <? edad_min); [done|]. by eexists.
  - by rewrite bool_decide_eq_true_2.
Qed.

(* ===================================================================== *)
(** ** The transformers of etl_refactor.py and etl_from_csv.py *)
(* ===================================================================== *)

Lemma try_row_accepts (edad_min : Z) (row : raw_record) (v : canonical) :
  Refactor.try_row edad_min row = inr (Some v) <-> accepts edad_min row v.
Proof.
  unfold Refactor.try_row, Py.and_then, Py.subscript, Py.receiver, Py.int_of.
  split.
  - destruct (row !! "nombre") as [[n|]|] eqn:Hn; try done.
    destruct (row !! "edad") as [[e|]|] eqn:He; try done.
    destruct (Py.int e) as [a|] eqn:Ha; try done.
    destruct (row !! "ciudad") as [[c|]|] eqn:Hc; try done.
    destruct (edad_min <=? a) eqn:Hle; [|done].
    intros [= <-]. exists n, e, c. cbn. apply Z.leb_le in Hle. done.
  - intros (n & e & c & -> & -> & -> & Ha & Hmin & En & Ec).
    rewrite Ha. apply Z.leb_le in Hmin. rewrite Hmin.
    destruct v as [[vn va] vc]. cbn in *. by subst.
Qed.

Lemma try_row_from_csv_accepts (edad_min : Z) (row : raw_record) (v : canonical) :
  Refactor.try_row_from_csv edad_min row = inr (Some v) <-> accepts edad_min row v.
Proof.
  unfold Refactor.try_row_from_csv, Py.and_then, Py.subscript, Py.receiver,
    Py.int_of.
  split.
  - destruct (row !! "nombre") as [[n|]|] eqn:Hn; try done;
      destruct (row !! "edad") as [[e|]|] eqn:He; try done;
      destruct (row !! "ciudad") as [[c|]|] eqn:Hc; try done;
      try (destruct (Py.int e) as [a|] eqn:Ha; done).
    destruct (Py.int e) as [a|] eqn:Ha; try done.
    destruct (edad_min <=? a) eqn:Hle; [|done].
    intros [= <-]. exists n, e, c. cbn. apply Z.leb_le in Hle. done.
  - intros (n & e & c & -> & -> & -> & Ha & Hmin & En & Ec).
    rewrite Ha. apply Z.leb_le in Hmin. rewrite Hmin.
    destruct v as [[vn va] vc]. cbn in *. by subst.
Qed.

Lemma try_row_raises (edad_min : Z) (row : raw_record) :
  Refactor.try_row edad_min row = inl Py.AttributeError <-> null_text row.
Proof.
  unfold Refactor.try_row, Py.and_then, Py.subscript, Py.receiver, Py.int_of,
    null_text.
  destruct (row !! "nombre") as [[n|]|].
  2:{ split; [by left|done]. }
  2:{ split; [done|]. by intros [?|(? & ? & ? & ? & _)]. }
  destruct (row !! "edad") as [[e|]|].
  2,3: split; [done|]; by intros [?|(? & ? & ? & ? & ? & _)].
  destruct (Py.int e) as [a|] eqn:Ha.
  2:{ split; [done|]. intros [?|(? & ? & ? & ? & [= <-] & ? & _)]; congruence. }
  destruct (row !! "ciudad") as [[c|]|].
  - split; [by destruct (edad_min <=? a)|].
    by intros [?|(? & ? & ? & ? & ? & ? & ?)].
  - split; [|done]. intros _. right. by exists n, e, a.
  - split; [done|]. by intros [?|(? & ? & ? & ? & ? & ? & ?)].
Qed.

Lemma try_row_from_csv_raises (edad_min : Z) (row : raw_record) :
  Refactor.try_row_from_csv edad_min row = inl Py.AttributeError
  <-> null_text_from_csv row.
Proof.
  unfold null_text_from_csv. rewrite <- (try_row_raises edad_min).
  unfold Refactor.try_row_from_csv, Refactor.try_row, Py.and_then,
    Py.subscript, Py.receiver, Py.int_of.
  destruct (row !! "nombre") as [[n|]|];
    destruct (row !! "edad") as [[e|]|];
    destruct (row !! "ciudad") as [[c|]|];
    try (destruct (Py.int e) as [a|]);
    try (destruct (edad_min <=? a));
    split; try done; try (by intros (? & ? & ? & ?));
    try (by intros (_ & _ & [? ?] & _));
    try (by intros (_ & [? ?] & _));
    try (by intros ([? ?] & _));
    try (intros _; repeat split; eauto).
Qed.

Section LegacyLoop.
Variable body : raw_record -> Py.error + option canonical.
Variable edad_min : Z.
Hypothesis body_accepts :
  forall row v, body row = inr (Some v) <-> accepts edad_min row v.

Lemma body_agrees_with_audit (row : raw_record) :
  valid_of (IncrementalAudit.transform_row edad_min row)
  = match body row with inr o => o | inl _ => None end.
Proof.
  apply option_eq. intros v.
  rewrite valid_of_inl, audit_row_accepts, <- body_accepts.
  destruct (body row) as [e|[w|]]; split; congruence.
Qed.

Lemma transform_loop_outcome (acc : list canonical) (datos : list raw_record) :
  match Refactor.transform_loop body acc datos with
  | inr l =>
      l = acc ++ omap (fun row =>
                         valid_of (IncrementalAudit.transform_row edad_min row))
                      datos
      /\ Forall (fun row => body row <> inl Py.AttributeError) datos
  | inl e =>
      e = Py.AttributeError
      /\ Exists (fun row => body row = inl Py.AttributeError) datos
  end.
Proof.
  revert acc. induction datos as [|row datos IH]; intros acc.
  - cbn. by rewrite app_nil_r.
  - cbn [Refactor.transform_loop omap list_omap].
    rewrite body_agrees_with_audit.
    assert (Hstep : forall acc',
      body row <> inl Py.AttributeError ->
      match Refactor.transform_loop body acc' datos with
      | inr l =>
          l = acc' ++ omap (fun row =>
                 valid_of (IncrementalAudit.transform_row edad_min row)) datos
          /\ Forall (fun row => body row <> inl Py.AttributeError) (row :: datos)
      | inl e =>
          e = Py.AttributeError
          /\ Exists (fun row => body row = inl Py.AttributeError) (row :: datos)
      end).
    { intros acc' Hrow. specialize (IH acc').
      destruct (Refactor.transform_loop body acc' datos); destruct IH as [H1 H2].
      - split; [done|]. by apply Exists_cons_tl.
      - split; [done|]. by apply Forall_cons. }
    destruct (body row) as [e|[v|]] eqn:Hb.
    + destruct e; cbn [Refactor.caught]; try (by apply Hstep).
      split; [done|]. by apply Exists_cons_hd.
    + specialize (Hstep (acc ++ [v])).
      destruct (Refactor.transform_loop body (acc ++ [v]) datos);
        [by apply Hstep|].
      destruct Hstep as [-> ?]; [done|]. split; [|done].
      by rewrite <- app_assoc.
    + by apply Hstep.
Qed.
End LegacyLoop.

(** X7. [transform] of etl_refactor.py and of etl_from_csv.py either
    returns exactly the valid list of [transform_with_rejections] for the
    same threshold, or raises [AttributeError]: [None.strip()] is not among
    the exceptions its [except] clause names. It raises exactly when some
    row has a null name, or a null city after a string name and an age that
    parses (in etl_from_csv.py only if the row has the three keys). *)
Theorem legacy_transform_returns_the_valid_list_or_raises
    (datos_crudos : list raw_record) (edad_min : Z) :
  match Refactor.transform datos_crudos edad_min with
  | inr l =>
      l = (IncrementalAudit.transform_with_rejections datos_crudos edad_min).1
      /\ Forall (fun row => ~ null_text row) datos_crudos
  | inl e => e = Py.AttributeError /\ Exists null_text datos_crudos
  end
  /\ match Refactor.transform_from_csv datos_crudos edad_min with
     | inr l =>
         l = (IncrementalAudit.transform_with_rejections datos_crudos edad_min).1
         /\ Forall (fun row => ~ null_text_from_csv row) datos_crudos
     | inl e => e = Py.AttributeError /\ Exists null_text_from_csv datos_crudos
     end.
Proof.
  rewrite audit_valid_omap. split.
  - pose proof (transform_loop_outcome _ edad_min (try_row_accepts edad_min)
                  [] datos_crudos) as H.
    unfold Refactor.transform.
    destruct (Refactor.transform_loop _ _ _) as [e|l]; destruct H as [H1 H2];
      (split; [done|]).
    + eapply Exists_impl; [exact H2|]. intros row. apply try_row_raises.
    + eapply Forall_impl; [exact H2|]. intros row Hr Hn. apply Hr.
      by apply try_row_raises.
  - pose proof (transform_loop_outcome _ edad_min
                  (try_row_from_csv_accepts edad_min) [] datos_crudos) as H.
    unfold Refactor.transform_from_csv.
    destruct (Refactor.transform_loop _ _ _) as [e|l]; destruct H as [H1 H2];
      (split; [done|]).
    + eapply Exists_impl; [exact H2|]. intros row. apply try_row_from_csv_raises.
    + eapply Forall_impl; [exact H2|]. intros row Hr Hn. apply Hr.
      by apply try_row_from_csv_raises.
Qed.

Lemma transform_loop_same (f g : raw_record -> Py.error + option canonical)
    (acc : list canonical) (datos : list raw_record) :
  (forall row,
     f row <> inl Py.AttributeError ->
     g row = f row
     \/ exists e e', f row = inl e /\ g row = inl e' /\ Refactor.caught e' = true) ->
  match Refactor.transform_loop f acc datos with
  | inr l => Refactor.transform_loop g acc datos = inr l
  | inl _ => True
  end.
Proof.
  intros Hfg. revert acc. induction datos as [|row datos IH]; intros acc; [done|].
  cbn [Refactor.transform_loop].
  destruct (f row) as [e|o] eqn:Hf.
  - destruct (Refactor.caught e) eqn:Hc; [|done].
    destruct (Hfg row) as [->|(e1 & e2 & He & -> & ->)].
    + rewrite Hf. by destruct e.
    + rewrite Hf, Hc. apply IH.
    + apply IH.
  - destruct (Hfg row) as [->|(e1 & e2 & He & _)]; [by rewrite Hf| |congruence].
    rewrite Hf. destruct o; apply IH.
Qed.

Lemma try_row_from_csv_follows (edad_min : Z) (row : raw_record) :
  Refactor.try_row edad_min row <> inl Py.AttributeError ->
  Refactor.try_row_from_csv edad_min row = Refactor.try_row edad_min row
  \/ exists e e',
       Refactor.try_row edad_min row = inl e
       /\ Refactor.try_row_from_csv edad_min row = inl e'
       /\ Refactor.caught e' = true.
Proof.
  unfold Refactor.try_row_from_csv, Refactor.try_row, Py.and_then,
    Py.subscript, Py.receiver, Py.int_of.
  destruct (row !! "nombre") as [[n|]|]; [| |by left]; [|done].
  destruct (row !! "edad") as [[e|]|];
    destruct (row !! "ciudad") as [[c|]|];
    try (destruct (Py.int e) as [a|]); intros Hne;
    try (by left); try done; right; by do 2 eexists.
Qed.

(** X8. [transform] of etl_from_csv.py returns whenever [transform] of
    etl_refactor.py does, and then with the same list: looking the three
    keys up before normalising only turns some crashes into skipped rows. *)
Theorem from_csv_transform_follows_refactor
    (datos_crudos : list raw_record) (edad_min : Z) :
  match Refactor.transform datos_crudos edad_min with
  | inr l => Refactor.transform_from_csv datos_crudos edad_min = inr l
  | inl _ => True
  end.
Proof.
  apply transform_loop_same, try_row_from_csv_follows.
Qed.




(* ===================================================================== *)
(** ** The city resolver *)
(* ===================================================================== *)

Section CityResolver.
Import Sqlite.
Implicit Types (s : store) (cs : table ciudad).

Lemma add_ciudad_prefix name cs : rows cs `prefix_of` rows (add_ciudad name cs).
Proof.
  destruct (find_ciudad_id name cs) as [cid|] eqn:Hf.
  - destruct (add_ciudad_known _ _ _ Hf) as [-> _]. done.
  - destruct (add_ciudad_new _ _ Hf) as [-> _]. by eexists.
Qed.

Lemma add_ciudad_again name cs :
  rows (add_ciudad name (add_ciudad name cs)) = rows (add_ciudad name cs)
  /\ find_ciudad_id name (add_ciudad name (add_ciudad name cs))
     = find_ciudad_id name (add_ciudad name cs).
Proof.
  destruct (add_ciudad_found name cs) as [cid Hf].
  destruct (add_ciudad_known _ _ _ Hf) as [Hr Hf']. by rewrite Hf, Hf'.
Qed.

Lemma set_ciudades_twice s (a b : option (table ciudad)) :
  set_ciudades b (set_ciudades a s) = set_ciudades b s.
Proof. by destruct s. Qed.

(** X10. [get_or_create_city_id] on a store that has the [ciudades] table
    returns and gives the city an identifier that stays: asked again for
    the same name it returns the same identifier and adds no row. The rows
    that were there are kept, in place, and every other city keeps its
    identifier. *)
Theorem get_or_create_city_id_is_stable (name : string) s cs :
  ciudades s = Some cs ->
  exists cid cs1 cs2,
    runs (IncrementalAudit.get_or_create_city_id name) s cid
         (set_ciudades (Some cs1) s)
    /\ runs (IncrementalAudit.get_or_create_city_id name)
            (set_ciudades (Some cs1) s) cid (set_ciudades (Some cs2) s)
    /\ find_ciudad_id name cs1 = Some cid
    /\ rows cs2 = rows cs1
    /\ rows cs `prefix_of` rows cs1
    /\ forall other cid',
         find_ciudad_id other cs = Some cid' ->
         find_ciudad_id other cs1 = Some cid'.
Proof.
  intros Hcs. destruct (add_ciudad_found name cs) as [cid Hf].
  exists cid, (add_ciudad name cs), (add_ciudad name (add_ciudad name cs)).
  destruct (add_ciudad_again name cs) as [Hrows Hfind].
  split; [|split; [|split; [done|split; [done|split]]]].
  - pose proof (get_or_create_city_id_runs name s cs Hcs) as H.
    by rewrite Hf in H.
  - pose proof (get_or_create_city_id_runs name
                  (set_ciudades (Some (add_ciudad name cs)) s)
                  (add_ciudad name cs)) as H.
    rewrite Hfind, Hf, set_ciudades_twice in H. apply H. by destruct s.
  - apply add_ciudad_prefix.
  - intros other cid'. apply add_ciudad_stable.
Qed.

Lemma get_or_create_city_id_is_stable_witness :
  let cs := {| rows := [{| c_ciudad_id := 1; c_nombre := "San Luis" |}];
               seq := 2 |} in
  ciudades relational_disk = Some cs
  /\ exists cid cs1 cs2,
       runs (IncrementalAudit.get_or_create_city_id "San Juan") relational_disk
            cid (set_ciudades (Some cs1) relational_disk)
       /\ runs (IncrementalAudit.get_or_create_city_id "San Juan")
               (set_ciudades (Some cs1) relational_disk) cid
               (set_ciudades (Some cs2) relational_disk)
       /\ find_ciudad_id "San Juan" cs1 = Some cid
       /\ rows cs2 = rows cs1
       /\ rows cs `prefix_of` rows cs1
       /\ forall other cid',
            find_ciudad_id other cs = Some cid' ->
            find_ciudad_id other cs1 = Some cid'.
Proof.
  intros cs. split; [reflexivity|].
  apply (get_or_create_city_id_is_stable "San Juan" relational_disk cs).
  reflexivity.
Defined.
End CityResolver.

(* ===================================================================== *)
(** ** How a load ends *)
(* ===================================================================== *)

Section LoadOutcome.
Import Sqlite.
Implicit Types (s disk : store).

Lemma the_runs_prepared s : the_runs (prepared s) = the_runs s.
Proof. unfold the_runs at 1. by rewrite etl_runs_prepared. Qed.

Lemma the_runs_with_tables st s : the_runs (with_tables st s) = the_runs s.
Proof. by destruct s. Qed.


End LoadOutcome.

Section LoadAppends.
Import Sqlite.
Implicit Types (s disk : store) (st : table ciudad * table persona)
  (v : canonical).

(** X12. [migrate_personas_limpias_if_needed] does nothing at all when
    there is no Person table or when the table already has the audit
    columns: it returns and the connection is exactly as it was, with no
    transaction opened and nothing written. *)
Theorem migration_leaves_the_current_schema_alone (c : connection store) :
  is_open c = true ->
  (forall t, personas_limpias (view c) <> Some (Relational t)) ->
  IncrementalAudit.migrate_personas_limpias_if_needed c = (Returned tt, c).
Proof.
  destruct c as [d tx o]. cbn [is_open]. intros -> Hnot.
  unfold view in Hnot. cbn [db txn] in Hnot.
  destruct tx as [w|]; cbn [default from_option id] in Hnot.
  - destruct w as [cs [[t|t]|] n r]; try done. by destruct (Hnot t).
  - destruct d as [cs [[t|t]|] n r]; try done. by destruct (Hnot t).
Qed.

Lemma migration_leaves_the_current_schema_alone_witness :
  let c := connect (prepared relational_disk) in
  is_open c = true
  /\ (forall t, personas_limpias (view c) <> Some (Relational t))
  /\ IncrementalAudit.migrate_personas_limpias_if_needed c = (Returned tt, c).
Proof.
  intros c.
  assert (Ho : is_open c = true) by reflexivity.
  assert (Hn : forall t, personas_limpias (view c) <> Some (Relational t)).
  { intros t H. vm_compute in H. discriminate H. }
  split; [exact Ho|]. split; [exact Hn|].
  exact (migration_leaves_the_current_schema_alone c Ho Hn).
Defined.

(** X13. [main] of etl_incremental_audit.py accounts for every row of the
    CSV file: when it returns, the last row of [etl_runs] names
    "personas_crudas.csv", its valid and rejected counts add up to the
    number of rows read, and its inserted and ignored counts add up to the
    valid count. When it raises, [etl_runs] is as it was. *)
Theorem main_accounts_for_every_row
    disk (a1 a2 a3 : Py.datetime) (datos_crudos : list raw_record) :
  match IncrementalAudit.main disk a1 a2 a3 datos_crudos with
  | (Returned _, c) =>
      exists r,
        last (the_runs (db c)) = Some r
        /\ source_file r = "personas_crudas.csv"
        /\ valid_count r + rejected_count r = Z.of_nat (length datos_crudos)
        /\ inserted_new r + ignored_duplicates r = valid_count r
  | (Raised _, c) => the_runs (db c) = the_runs disk
  end.
Proof.
  unfold IncrementalAudit.main, IncrementalAudit.transform_with_rejections.
  rewrite foldl_accumulate. cbn [fst snd app].
  pose proof (omap_split_length (IncrementalAudit.transform_row 25) datos_crudos)
    as Hlen.
  set (validos := omap (fun row => valid_of _) datos_crudos) in *.
  set (rechazados := omap (fun row => rejected_of _) datos_crudos) in *.
  rewrite load_incremental_result.
  destruct (run_id_taken _ _).
  - cbn [db]. by rewrite the_runs_with_tables, the_runs_prepared.
  - eexists. split; [|split; [|split]].
    + unfold the_runs at 1. cbn. apply last_snoc.
    + done.
    + cbn. lia.
    + apply audit_row_sum.
Qed.

Lemma add_persona_appends n e cid pa rid (ps : table persona) :
  exists added,
    rows (add_persona n e cid pa rid ps) = rows ps ++ added
    /\ Forall (fun p => processed_at p = pa /\ run_id p = rid
                        /\ nombre p = n /\ edad p = e) added.
Proof.
  destruct (add_persona_cases n e cid pa rid ps) as [[_ ->]|[_ ->]].
  - exists []. by rewrite app_nil_r.
  - eexists. split; [done|]. by repeat constructor.
Qed.

Lemma load_steps_append pa rid (l : list canonical) st :
  exists added,
    rows (load_steps pa rid st l).2 = rows st.2 ++ added
    /\ rows st.1 `prefix_of` rows (load_steps pa rid st l).1
    /\ Forall (fun p => processed_at p = pa /\ run_id p = rid
                        /\ (nombre p, edad p) ∈ ((fun v => v.1) <$> l)) added.
Proof.
  revert st. induction l as [|v l IH]; intros st.
  - exists []. cbn. by rewrite app_nil_r.
  - unfold load_steps. cbn [foldl]. fold (load_steps pa rid (load_step pa rid st v) l).
    destruct (IH (load_step pa rid st v)) as (more & Hrows & Hpre & Hall).
    unfold load_step in Hrows at 2. unfold load_step in Hpre at 1.
    cbn [fst snd] in Hrows, Hpre.
    destruct (add_persona_appends v.1.1 v.1.2
                (default 0 (find_ciudad_id v.2 (add_ciudad v.2 st.1)))
                pa rid st.2) as (one & Hone & Hfor).
    exists (one ++ more). split; [|split].
    + by rewrite Hrows, Hone, app_assoc.
    + etrans; [apply (add_ciudad_prefix v.2)|exact Hpre].
    + apply Forall_app. split.
      * eapply Forall_impl; [exact Hfor|]. intros p (-> & -> & Hn & He).
        repeat split. rewrite fmap_cons, Hn, He. destruct v as [[? ?] ?].
        apply list_elem_of_here.
      * eapply Forall_impl; [exact Hall|]. intros p (-> & -> & Hin).
        repeat split. rewrite fmap_cons. by apply list_elem_of_further.
Qed.

Lemma prepared_keeps_audited s t :
  personas_limpias s = Some (Audited t) ->
  personas_limpias (prepared s) = Some (Audited t).
Proof.
  destruct s as [[cs|] p n [r|]]; cbn; by intros ->.
Qed.

(** X14. A load only appends. On a database whose Person table has the
    audit columns, [load_incremental] leaves the rows that were there in
    place and unchanged, audit columns included, whether it returns or
    raises; every row it adds carries the [processed_at] and the [run_id]
    of this run and the name and age of a record of the batch. The city
    rows that were there stay in place too. *)
Theorem load_incremental_only_appends
    disk (t : table persona) (a1 a2 a3 : Py.datetime) (src : string)
    (validos : list canonical) (rej : Z) :
  personas_limpias disk = Some (Audited t) ->
  let d := db (IncrementalAudit.load_incremental disk a1 a2 a3 src validos rej).2 in
  exists added,
    rows (the_personas d) = rows t ++ added
    /\ rows (the_ciudades disk) `prefix_of` rows (the_ciudades d)
    /\ Forall (fun p => processed_at p = Py.isoformat a3
                        /\ run_id p = Py.strftime_seconds a2
                        /\ (nombre p, edad p) ∈ ((fun v => v.1) <$> validos))
              added.
Proof.
  intros Ht d.
  destruct (load_incremental_db disk a1 a2 a3 src validos rej) as [_ Htables].
  cbv zeta in Htables. fold d in Htables.
  destruct (load_steps_append (Py.isoformat a3) (Py.strftime_seconds a2)
              validos (tables (prepared disk))) as (added & Hrows & Hpre & Hall).
  rewrite <- Htables in Hrows, Hpre. cbn [tables fst snd] in Hrows, Hpre.
  rewrite the_ciudades_prepared in Hpre.
  unfold the_personas at 2 in Hrows.
  rewrite (prepared_keeps_audited _ _ Ht) in Hrows.
  by exists added.
Qed.

Lemma load_incremental_only_appends_witness :
  let disk := prepared relational_disk in
  let t := the_personas disk in
  let d := db (IncrementalAudit.load_incremental disk (clock 1 0) (clock 1 5)
                 (clock 1 9) "personas_crudas.csv" sample_batch 2).2 in
  personas_limpias disk = Some (Audited t)
  /\ exists added,
       rows (the_personas d) = rows t ++ added
       /\ rows (the_ciudades disk) `prefix_of` rows (the_ciudades d)
       /\ Forall (fun p => processed_at p = Py.isoformat (clock 1 9)
                           /\ run_id p = Py.strftime_seconds (clock 1 5)
                           /\ (nombre p, edad p)
                              ∈ ((fun v => v.1) <$> sample_batch))
                 added.
Proof.
  intros disk t d.
  assert (H : personas_limpias disk = Some (Audited t)) by reflexivity.
  split; [exact H|].
  exact (load_incremental_only_appends disk t (clock 1 0) (clock 1 5)
           (clock 1 9) "personas_crudas.csv" sample_batch 2 H).
Defined.
End LoadAppends.

(* ===================================================================== *)
(** ** Loaders against a Person table of the other generation *)
(* ===================================================================== *)

Section SchemaMismatch.
Import Sqlite.
Local Open Scope conn_scope.
Implicit Types (s disk : store) (c : connection store).

Lemma batch_prepared_keeps_personas s p :
  personas_limpias s = Some p -> personas_limpias (batch_prepared s) = Some p.
Proof. destruct s as [[cs|] q n [r|]]; cbn; by intros ->. Qed.

Lemma ciudades_batch_prepared s :
  ciudades (batch_prepared s) = Some (the_ciudades s).
Proof. by destruct s as [[cs|] [q|] n [r|]]. Qed.

Lemma bind_returned {S A B} (m : M S A) (k : A -> M S B) (c c' : connection S) a :
  m c = (Returned a, c') -> bind m k c = k a c'.
Proof. intros E. unfold bind. by rewrite E. Qed.

Lemma bind_raised {S A B} (m : M S A) (k : A -> M S B) (c c' : connection S) e :
  m c = (Raised e, c') -> bind m k c = (Raised e, c').
Proof. intros E. unfold bind. by rewrite E. Qed.

(** X15. [load_batch] has no migration step: on a connection whose Person
    table is the one of etl_relational.py, without audit columns, a batch
    that is not empty raises [OperationalError] at the first Person insert.
    The connection stays open, the Person table is as it was, and the
    city of the first record has been resolved but not committed by the
    code. *)
Theorem load_batch_raises_on_the_old_schema
    c (t : table persona_rel) (t1 t2 : Py.datetime) (src : string)
    (v : canonical) (vs : list canonical) (rej : Z) :
  is_open c = true ->
  personas_limpias (view c) = Some (Relational t) ->
  exists c',
    Batch.load_batch t1 t2 src (v :: vs) rej c
    = (Raised (OperationalError
                 "table personas_limpias has no column named processed_at"), c')
    /\ is_open c' = true
    /\ personas_limpias (view c') = Some (Relational t)
    /\ is_Some (find_ciudad_id v.2 (the_ciudades (view c')))
    /\ the_runs (view c') = the_runs (view c).
Proof.
  intros Ho Ht.
  pose proof (batch_prepared_keeps_personas _ _ Ht) as Hp.
  destruct (batch_ensure_schema_runs (view c) c Ho eq_refl)
    as (c1 & E1 & Ho1 & Hv1).
  assert (Hcount : count_personas (batch_prepared (view c))
            = Returned (Z.of_nat (length (person_keys (Relational t))),
                        batch_prepared (view c)))
    by (unfold count_personas; by rewrite Hp).
  destruct (runs_execute false _ _ _ _ Hcount c1 Ho1 Hv1)
    as (c2 & E2 & Ho2 & Hv2).
  destruct v as [[n e] cty].
  destruct (get_or_create_city_id_runs cty _ _
              (ciudades_batch_prepared (view c)) c2 Ho2 Hv2)
    as (c3 & E3 & Ho3 & Hv3).
  exists c3. split.
  - unfold Batch.load_batch.
    rewrite (bind_returned _ _ _ _ _ E1), (bind_returned _ _ _ _ _ E2).
    cbn [for_each]. apply bind_raised, bind_raised.
    change (Batch.get_or_create_city_id cty)
      with (IncrementalAudit.get_or_create_city_id cty).
    rewrite (bind_returned _ _ _ _ _ E3).
    unfold execute. rewrite Ho3, Hv3.
    unfold insert_persona.
    replace (personas_limpias (set_ciudades _ (batch_prepared (view c))))
      with (Some (Relational t))
      by (rewrite <- Hp; by destruct (batch_prepared (view c))).
    reflexivity.
  - split; [done|]. rewrite Hv3. split; [|split].
    + rewrite <- Hp. by destruct (batch_prepared (view c)).
    + cbn [snd]. unfold the_ciudades.
      replace (ciudades (set_ciudades _ (batch_prepared (view c))))
        with (Some (add_ciudad cty (the_ciudades (view c))))
        by (by destruct (batch_prepared (view c))).
      cbn. destruct (add_ciudad_found cty (the_ciudades (view c))) as [cid ->].
      by eexists.
    + transitivity (the_runs (batch_prepared (view c))).
      * by destruct (batch_prepared (view c)).
      * unfold the_runs. by destruct (view c) as [[cs|] [q|] nn [r|]].
Qed.

Lemma load_batch_raises_on_the_old_schema_witness :
  let c := connect relational_disk in
  is_open c = true
  /\ personas_limpias (view c) = Some (Relational relational_table)
  /\ exists c',
       Batch.load_batch (clock 1 0) (clock 1 5) "lote.csv"
         (("Ana", 31, "Lima") :: sample_batch) 0 c
       = (Raised (OperationalError
                    "table personas_limpias has no column named processed_at"),
          c')
       /\ is_open c' = true
       /\ personas_limpias (view c') = Some (Relational relational_table)
       /\ is_Some (find_ciudad_id "Lima" (the_ciudades (view c')))
       /\ the_runs (view c') = the_runs (view c).
Proof.
  intros c. split; [reflexivity|]. split; [reflexivity|].
  apply (load_batch_raises_on_the_old_schema c relational_table (clock 1 0)
           (clock 1 5) "lote.csv" ("Ana", 31, "Lima") sample_batch 0);
    reflexivity.
Defined.



End SchemaMismatch.

(* ===================================================================== *)
(** ** The city dimension on reachable states *)
(* ===================================================================== *)

Section CityNames.
Import Sqlite.
Local Open Scope conn_scope.

Lemma keeps_city_names {A} (q : statement store A) :
  (forall s a s', q s = Returned (a, s') -> the_ciudades s' = the_ciudades s) ->
  keeps names_unique q.
Proof.
  intros Hq s a s' HI E. unfold names_unique. by rewrite (Hq _ _ _ E).
Qed.

Lemma names_insert_ciudad name : keeps names_unique (insert_ciudad name).
Proof.
  intros s a s' HI E. unfold insert_ciudad in E.
  destruct (ciudades s) as [t|] eqn:Ht; [|done]. injection E as _ <-.
  unfold names_unique, the_ciudades in *. rewrite Ht in HI.
  replace (ciudades (set_ciudades (Some (add_ciudad name t)) s))
    with (Some (add_ciudad name t)) by (by destruct s).
  cbn [default from_option id] in *.
  by apply insert_or_ignore_NoDup_uk.
Qed.
End CityNames.

(** A statement other than the city insert leaves [ciudades] as it is. *)
Ltac city_names_untouched :=
  apply keeps_city_names;
  let s := fresh "s" in
  let E := fresh "E" in
  intros s ? ? E;
  unfold Sqlite.create_ciudades, Sqlite.create_etl_runs,
    Sqlite.create_personas_limpias, Sqlite.create_personas_limpias_rel,
    Sqlite.create_personas_limpias_new, Sqlite.table_info,
    Sqlite.personas_limpias_exists, Sqlite.select_ciudad_id,
    Sqlite.count_personas, Sqlite.insert_etl_run, Sqlite.insert_persona,
    Sqlite.insert_persona_rel, Sqlite.copy_into_personas_limpias_new,
    Sqlite.drop_personas_limpias, Sqlite.rename_personas_limpias_new in E;
  destruct s; cbn in E; repeat case_match; simplify_eq; reflexivity.

#[export] Hint Resolve names_insert_ciudad : keeps.
#[export] Hint Extern 5 (keeps names_unique _) => city_names_untouched : keeps.

Section ReachableCityNames.
Import Sqlite.
Local Open Scope conn_scope.

End ReachableCityNames.

Section CityDimension.
Import Sqlite.




(** X18. On every state the pipeline can reach, every row of the Person
    table, of either generation, carries the identifier of a row of
    [ciudades]: the foreign key holds although the code never switches
    SQLite's enforcement on. This holds of the database file and of what
    the open transaction sees. *)
Theorem person_rows_refer_to_cities (c : connection store) :
  reachable c ->
  match personas_limpias (db c) with
  | Some t => Forall (fun k => k.2 ∈ ciudad_ids (db c)) (person_keys t)
  | None => True
  end
  /\ match personas_limpias (view c) with
     | Some t => Forall (fun k => k.2 ∈ ciudad_ids (view c)) (person_keys t)
     | None => True
     end.
Proof.
  intros Hc. destruct (reachable_cities_ok c Hc) as [(_ & H1 & _) (_ & H2 & _)].
  split.
  - destruct (personas_limpias (db c)) as [t|]; [|done].
    apply Forall_forall. by apply H1.
  - destruct (personas_limpias (view c)) as [t|]; [|done].
    apply Forall_forall. by apply H2.
Qed.

Lemma person_rows_refer_to_cities_witness :
  reachable loaded_connection
  /\ (exists t, personas_limpias (db loaded_connection) = Some t
                /\ length (person_keys t) = 2%nat)
  /\ match personas_limpias (db loaded_connection) with
     | Some t =>
         Forall (fun k => k.2 ∈ ciudad_ids (db loaded_connection)) (person_keys t)
     | None => True
     end.
Proof.
  assert (H : reachable loaded_connection)
    by apply reachable_after, reachable_after, reachable_fresh.
  split; [exact H|]. split; [eexists; split; reflexivity|].
  exact (proj1 (person_rows_refer_to_cities loaded_connection H)).
Defined.
End CityDimension.

(* ===================================================================== *)
(** ** Run identifiers of etl_batch.py *)
(* ===================================================================== *)

Lemma strftime_micros_length (t : Py.datetime) :
  String.length (Py.strftime_micros t) = 22%nat.
Proof.
  unfold Py.strftime_micros.
  by rewrite !string_length_append, !pad_digits_length.
Qed.

(** X19. [make_run_id] gives two loads the same identifier only if they
    read the clock at the same microsecond and their file names are equal
    once every character that is not a letter or a digit is replaced by an
    underscore; then it does give the same one. Two names that differ in
    such characters only are not told apart by the suffix. The clock
    readings are taken from the year 1000 on, where [%Y] prints four
    digits on every platform. *)
Theorem make_run_id_separates_runs (t t' : Py.datetime) (src src' : string) :
  valid_datetime t -> valid_datetime t' ->
  (1000 <= Py.year t)%N -> (1000 <= Py.year t')%N ->
  Batch.make_run_id t src = Batch.make_run_id t' src'
  <-> t = t' /\ sanitized src = sanitized src'.
Proof.
  intros Ht Ht' _ _. split.
  - intros Heq. unfold Batch.make_run_id in Heq. fold (sanitized src) in Heq.
    fold (sanitized src') in Heq.
    apply string_append_inj in Heq as [Hts Hrest];
      [|by rewrite !strftime_micros_length].
    injection Hrest as Hsafe. split; [|done].
    apply (make_run_id_inj t t' src Ht Ht').
    unfold Batch.make_run_id. by rewrite Hts.
  - intros [-> Hs]. unfold Batch.make_run_id. fold (sanitized src).
    fold (sanitized src'). by rewrite Hs.
Qed.

Lemma make_run_id_separates_runs_witness :
  valid_datetime (clock 1 5) /\ valid_datetime (clock 1 5)
  /\ (1000 <= Py.year (clock 1 5))%N
  /\ "a-b.csv" <> "a_b.csv"
  /\ (Batch.make_run_id (clock 1 5) "a-b.csv"
      = Batch.make_run_id (clock 1 5) "a_b.csv"
      <-> clock 1 5 = clock 1 5 /\ sanitized "a-b.csv" = sanitized "a_b.csv").
Proof.
  assert (Hv : valid_datetime (clock 1 5)) by (unfold valid_datetime; cbn; lia).
  assert (Hy : (1000 <= Py.year (clock 1 5))%N) by (cbn; lia).
  split; [exact Hv|]. split; [exact Hv|]. split; [exact Hy|].
  split; [discriminate|].
  exact (make_run_id_separates_runs (clock 1 5) (clock 1 5) "a-b.csv" "a_b.csv"
           Hv Hv Hy Hy).
Defined.

(* ===================================================================== *)
(** ** A folder of files *)
(* ===================================================================== *)

Section BatchFolder.
Import Sqlite.
Local Open Scope conn_scope.
Implicit Types (s disk : store) (c : connection store).




End BatchFolder.

(* ===================================================================== *)
(** ** The loader of etl_refactor.py and etl_from_csv.py *)
(* ===================================================================== *)

Section LegacyLoad.
Import Sqlite.
Local Open Scope conn_scope.
Implicit Types (t : table Refactor.persona) (v k : canonical)
  (s : Refactor.store).






End LegacyLoad.

(* ===================================================================== *)
(** ** The loader of etl_relational.py on its own schema *)
(* ===================================================================== *)

Section RelationalLoad.
Import Sqlite.
Local Open Scope conn_scope.
Implicit Types (st : table ciudad * table persona_rel) (v w : canonical)
  (cs : table ciudad) (ps : table persona_rel) (s disk : store).













End RelationalLoad.

(* ===================================================================== *)
(** ** The schema functions *)
(* ===================================================================== *)

Section SchemaFunctions.
Import Sqlite.
Local Open Scope conn_scope.

Lemma relational_ensure_schema_runs (s : store) :
  runs Relational.ensure_schema s tt
       (created create_personas_limpias_rel (created create_ciudades s)).
Proof.
  eapply runs_bind; [apply create_ciudades_runs|].
  apply runs_execute. generalize (created create_ciudades s).
  intros s0. unfold created, create_personas_limpias_rel.
  by destruct (personas_limpias s0).
Qed.

(** X23. The schema functions only create what is missing. Each of
    [ensure_schema] of etl_batch.py, [ensure_schema] of etl_relational.py
    and [ensure_ciudades], [ensure_personas_limpias], [ensure_etl_runs] of
    etl_incremental_audit.py returns on any contents of the database,
    leaves every table that was there with the rows it had, and changes
    nothing when it is run again. *)
Theorem schema_functions_create_only :
  creates_only Batch.ensure_schema
  /\ creates_only Relational.ensure_schema
  /\ creates_only IncrementalAudit.ensure_ciudades
  /\ creates_only IncrementalAudit.ensure_personas_limpias
  /\ creates_only IncrementalAudit.ensure_etl_runs.
Proof.
  split; [|split; [|split; [|split]]]; intros s.
  - exists (batch_prepared s). split; [apply batch_ensure_schema_runs|].
    split.
    + pose proof (batch_ensure_schema_runs (batch_prepared s)) as H.
      replace (batch_prepared (batch_prepared s)) with (batch_prepared s) in H
        by (by destruct s as [[cs|] [q|] n [r|]]).
      exact H.
    + by destruct s as [[cs|] [q|] n [r|]].
  - exists (created create_personas_limpias_rel (created create_ciudades s)).
    split; [apply relational_ensure_schema_runs|]. split.
    + pose proof (relational_ensure_schema_runs
                    (created create_personas_limpias_rel
                       (created create_ciudades s))) as H.
      by destruct s as [[cs|] [q|] n r].
    + by destruct s as [[cs|] [q|] n r].
  - exists (created create_ciudades s). split; [apply create_ciudades_runs|].
    split.
    + pose proof (create_ciudades_runs (created create_ciudades s)) as H.
      by destruct s as [[cs|] q n r].
    + by destruct s as [[cs|] q n r].
  - exists (created create_personas_limpias s).
    split; [apply create_personas_limpias_runs|]. split.
    + pose proof (create_personas_limpias_runs
                    (created create_personas_limpias s)) as H.
      by destruct s as [cs [q|] n r].
    + by destruct s as [cs [q|] n r].
  - exists (created create_etl_runs s). split; [apply create_etl_runs_runs|].
    split.
    + pose proof (create_etl_runs_runs (created create_etl_runs s)) as H.
      by destruct s as [cs q n [r|]].
    + by destruct s as [cs q n [r|]].
Qed.
End SchemaFunctions.

(* ===================================================================== *)
(** ** Letter case *)
(* ===================================================================== *)

Lemma isspace_lower_char (c : ascii) : Py.isspace (Py.lower_char c) = Py.isspace c.
Proof. destruct c as [[] [] [] [] [] [] [] []]; reflexivity. Qed.

Lemma lstrip_map_chars (f : ascii -> ascii) (sp : ascii -> bool) (s : string) :
  (forall c, sp (f c) = sp c) ->
  Py.lstrip_by sp (Py.map_chars f s) = Py.map_chars f (Py.lstrip_by sp s).
Proof.
  intros Hf. induction s as [|c s IH]; [done|]. cbn. rewrite Hf.
  by destruct (sp c).
Qed.

Lemma rev_onto_map_chars (f : ascii -> ascii) (s acc : string) :
  Py.rev_onto (Py.map_chars f s) (Py.map_chars f acc)
  = Py.map_chars f (Py.rev_onto s acc).
Proof.
  revert acc. induction s as [|c s IH]; intros acc; [done|].
  cbn. by rewrite <- IH.
Qed.

Lemma strip_lower (s : string) : Py.strip (Py.lower s) = Py.lower (Py.strip s).
Proof.
  unfold Py.strip, Py.strip_by, Py.reverse, Py.lower.
  rewrite lstrip_map_chars by apply isspace_lower_char.
  rewrite (rev_onto_map_chars Py.lower_char _ EmptyString).
  rewrite lstrip_map_chars by apply isspace_lower_char.
  by rewrite (rev_onto_map_chars Py.lower_char _ EmptyString).
Qed.

Lemma normalized_by_lower (s s' : string) :
  Py.lower s = Py.lower s' ->
  Py.lower (Py.strip s) = Py.lower (Py.strip s').
Proof.
  intros E. rewrite <- !strip_lower. by rewrite E.
Qed.

Lemma raw_lookup (n e c : string) :
  raw n e c !! "nombre" = Some (Some n)
  /\ raw n e c !! "edad" = Some (Some e)
  /\ raw n e c !! "ciudad" = Some (Some c).
Proof. split; [|split]; reflexivity. Qed.

(** X24. The transformers ignore letter case: two rows with the same age
    text whose names, and whose cities, differ only in the case of their
    letters give the same valid record, or are both rejected. This is what
    lets "NOEMI" and "noemi" fall on one Person row. *)
Theorem letter_case_does_not_matter
    (n n' e c c' : string) (edad_min : Z) :
  Py.lower n = Py.lower n' -> Py.lower c = Py.lower c' ->
  valid_of (IncrementalAudit.transform_row edad_min (raw n e c))
  = valid_of (IncrementalAudit.transform_row edad_min (raw n' e c'))
  /\ valid_of (Batch.transform_row edad_min (raw n e c))
     = valid_of (Batch.transform_row edad_min (raw n' e c')).
Proof.
  intros Hn Hc.
  assert (Hacc : forall v, accepts edad_min (raw n e c) v
                           <-> accepts edad_min (raw n' e c') v).
  { intros v.
    destruct (raw_lookup n e c) as (L1 & L2 & L3).
    destruct (raw_lookup n' e c') as (L1' & L2' & L3').
    split; intros (x & y & z & Hx & Hy & Hz & Ha & Hmin & En & Ec).
    - rewrite L1 in Hx. rewrite L2 in Hy. rewrite L3 in Hz.
      injection Hx as <-. injection Hy as <-. injection Hz as <-.
      exists n', e, c'. repeat (split; [done|]).
      by rewrite En, Ec, (normalized_by_lower _ _ Hn),
        (normalized_by_lower _ _ Hc).
    - rewrite L1' in Hx. rewrite L2' in Hy. rewrite L3' in Hz.
      injection Hx as <-. injection Hy as <-. injection Hz as <-.
      exists n, e, c. repeat (split; [done|]).
      by rewrite En, Ec, (normalized_by_lower _ _ Hn),
        (normalized_by_lower _ _ Hc). }
  split; apply option_eq; intros v; rewrite !valid_of_inl.
  - by rewrite !audit_row_accepts.
  - by rewrite !batch_row_accepts.
Qed.

Lemma letter_case_does_not_matter_witness :
  Py.lower "NOEMI" = Py.lower "Noemi"
  /\ Py.lower "SAN LUIS" = Py.lower "san luis"
  /\ valid_of (IncrementalAudit.transform_row 25 (raw "NOEMI" "52" "SAN LUIS"))
     = valid_of (IncrementalAudit.transform_row 25 (raw "Noemi" "52" "san luis"))
  /\ valid_of (Batch.transform_row 25 (raw "NOEMI" "52" "SAN LUIS"))
     = valid_of (Batch.transform_row 25 (raw "Noemi" "52" "san luis")).
Proof.
  split; [reflexivity|]. split; [reflexivity|].
  apply (letter_case_does_not_matter "NOEMI" "Noemi" "52" "SAN LUIS" "san luis" 25);
    reflexivity.
Defined.

(* ===================================================================== *)
(** ** The counts of an audit row *)
(* ===================================================================== *)

Section AuditCounts.
Import Sqlite.
Implicit Types (st : table ciudad * table persona) (s disk : store).

Lemma load_step_length_bounds pa rid (v : canonical) st :
  (length (rows st.2) <= length (rows (load_step pa rid st v).2)
   <= length (rows st.2) + 1)%nat.
Proof.
  unfold load_step. cbn [fst snd].
  destruct (add_persona_cases v.1.1 v.1.2
              (default 0 (find_ciudad_id v.2 (add_ciudad v.2 st.1)))
              pa rid st.2) as [[_ ->]|[_ ->]];
    [|rewrite length_app; cbn]; lia.
Qed.

Lemma load_steps_length_bounds pa rid (l : list canonical) st :
  (length (rows st.2) <= length (rows (load_steps pa rid st l).2)
   <= length (rows st.2) + length l)%nat.
Proof.
  unfold load_steps. revert st. induction l as [|v l IH]; intros st.
  - cbn. lia.
  - cbn [foldl length]. specialize (IH (load_step pa rid st v)).
    pose proof (load_step_length_bounds pa rid v st). lia.
Qed.

Lemma audit_row_bounds rid started src (validos : list canonical) rej pa st :
  let r := audit_row rid started src validos rej (length (rows st.2))
             (length (rows (load_steps pa rid st validos).2)) in
  0 <= inserted_new r <= valid_count r
  /\ 0 <= ignored_duplicates r <= valid_count r.
Proof.
  pose proof (load_steps_length_bounds pa rid validos st). cbn. lia.
Qed.

(** X25. The counts of an audit row are never out of range. Whatever the
    database holds, when [load_incremental] returns, or [load_batch]
    returns on a connection whose Person table has the audit columns or is
    missing, the row it has added to [etl_runs] has
    [0 <= inserted_new <= valid_count] and
    [0 <= ignored_duplicates <= valid_count]. *)
Theorem audit_counts_stay_in_range
    disk (a1 a2 a3 : Py.datetime) (src : string) (validos : list canonical)
    (rej : Z) (c : connection store) (t1 t2 : Py.datetime) :
  is_open c = true ->
  (forall t, personas_limpias (view c) <> Some (Relational t)) ->
  match IncrementalAudit.load_incremental disk a1 a2 a3 src validos rej with
  | (Returned _, c') =>
      exists r,
        last (the_runs (db c')) = Some r
        /\ 0 <= inserted_new r <= valid_count r
        /\ 0 <= ignored_duplicates r <= valid_count r
  | (Raised _, _) => True
  end
  /\ match Batch.load_batch t1 t2 src validos rej c with
     | (Returned _, c') =>
         exists r,
           last (the_runs (db c')) = Some r
           /\ 0 <= inserted_new r <= valid_count r
           /\ 0 <= ignored_duplicates r <= valid_count r
     | (Raised _, _) => True
     end.
Proof.
  intros Ho Hnot. split.
  - rewrite load_incremental_result. destruct (run_id_taken _ _); [done|].
    eexists. split; [unfold the_runs at 1; cbn; apply last_snoc|].
    apply audit_row_bounds.
  - rewrite (load_batch_result _ _ _ _ _ c Ho Hnot).
    destruct (run_id_taken _ _); [done|].
    eexists. split; [unfold the_runs at 1; cbn; apply last_snoc|].
    apply audit_row_bounds.
Qed.

Lemma audit_counts_stay_in_range_witness :
  let c := connect (prepared relational_disk) in
  is_open c = true
  /\ (forall t, personas_limpias (view c) <> Some (Relational t))
  /\ match IncrementalAudit.load_incremental relational_disk (clock 1 0)
             (clock 1 5) (clock 1 9) "personas_crudas.csv" repeating_batch 2 with
     | (Returned _, c') =>
         exists r,
           last (the_runs (db c')) = Some r
           /\ 0 <= inserted_new r <= valid_count r
           /\ 0 <= ignored_duplicates r <= valid_count r
     | (Raised _, _) => True
     end
  /\ match Batch.load_batch (clock 2 0) (clock 2 5) "personas_crudas.csv"
             repeating_batch 2 c with
     | (Returned _, c') =>
         exists r,
           last (the_runs (db c')) = Some r
           /\ 0 <= inserted_new r <= valid_count r
           /\ 0 <= ignored_duplicates r <= valid_count r
     | (Raised _, _) => True
     end.
Proof.
  intros c.
  assert (Ho : is_open c = true) by reflexivity.
  assert (Hn : forall t, personas_limpias (view c) <> Some (Relational t)).
  { intros t H. vm_compute in H. discriminate H. }
  split; [exact Ho|]. split; [exact Hn|].
  exact (audit_counts_stay_in_range relational_disk (clock 1 0) (clock 1 5)
           (clock 1 9) "personas_crudas.csv" repeating_batch 2 c (clock 2 0)
           (clock 2 5) Ho Hn).
Defined.
End AuditCounts.

(* ===================================================================== *)
(** ** Normalising twice *)
(* ===================================================================== *)

Section Text.
Variable sp : ascii -> bool.

Lemma string_append_assoc (a b c : string) : (a +:+ b) +:+ c = a +:+ (b +:+ c).
Proof.
  induction a as [|x a IH]; [done|].
  change (String x ((a +:+ b) +:+ c) = String x (a +:+ (b +:+ c))).
  by rewrite IH.
Qed.

Lemma string_append_nil_r (a : string) : a +:+ EmptyString = a.
Proof.
  induction a as [|x a IH]; [done|].
  change (String x (a +:+ EmptyString) = String x a). by rewrite IH.
Qed.

Lemma rev_onto_append (s acc : string) :
  Py.rev_onto s acc = Py.reverse s +:+ acc.
Proof.
  unfold Py.reverse. revert acc. induction s as [|c s IH]; intros acc; [done|].
  change (Py.rev_onto s (String c acc)
          = Py.rev_onto s (String c EmptyString) +:+ acc).
  by rewrite (IH (String c acc)), (IH (String c EmptyString)),
    string_append_assoc.
Qed.

Lemma reverse_cons (c : ascii) (s : string) :
  Py.reverse (String c s) = Py.reverse s +:+ String c EmptyString.
Proof. unfold Py.reverse at 1. cbn. apply rev_onto_append. Qed.

Lemma reverse_append (a b : string) :
  Py.reverse (a +:+ b) = Py.reverse b +:+ Py.reverse a.
Proof.
  induction a as [|c a IH].
  - change (Py.reverse EmptyString) with EmptyString.
    by rewrite string_append_nil_r.
  - change (String c a +:+ b) with (String c (a +:+ b)).
    by rewrite !reverse_cons, IH, string_append_assoc.
Qed.










End Text.













(* ===================================================================== *)
(** ** Printing an age and reading it back *)
(* ===================================================================== *)














(* ===================================================================== *)
(** ** White space around a field *)
(* ===================================================================== *)

Section Padding.
Variable sp : ascii -> bool.

Lemma lstrip_cons (c : ascii) (s : string) :
  Py.lstrip_by sp (String c s) = if sp c then Py.lstrip_by sp s else String c s.
Proof. reflexivity. Qed.

Lemma lstrip_only (pad s : string) :
  only_chars sp pad -> Py.lstrip_by sp (pad +:+ s) = Py.lstrip_by sp s.
Proof.
  induction pad as [|c pad IH]; [done|]. intros [Hc Hpad].
  change (String c pad +:+ s) with (String c (pad +:+ s)).
  rewrite lstrip_cons, Hc. by apply IH.
Qed.

Lemma lstrip_only_nil (pad : string) :
  only_chars sp pad -> Py.lstrip_by sp pad = EmptyString.
Proof.
  intros H. rewrite <- (string_append_nil_r pad). by rewrite lstrip_only.
Qed.

Lemma lstrip_app (s t : string) :
  Py.lstrip_by sp (s +:+ t)
  = match Py.lstrip_by sp s with
    | EmptyString => Py.lstrip_by sp t
    | u => u +:+ t
    end.
Proof.
  induction s as [|c s IH]; [reflexivity|].
  change (String c s +:+ t) with (String c (s +:+ t)).
  rewrite !lstrip_cons. by destruct (sp c).
Qed.

Lemma only_chars_rev_onto (s acc : string) :
  only_chars sp s -> only_chars sp acc -> only_chars sp (Py.rev_onto s acc).
Proof.
  revert acc. induction s as [|c s IH]; intros acc; [done|].
  intros [Hc Hs] Hacc. apply IH; [done|]. by split.
Qed.

Lemma strip_pad (pad s pad' : string) :
  only_chars sp pad -> only_chars sp pad' ->
  Py.strip_by sp (pad +:+ s +:+ pad') = Py.strip_by sp s.
Proof.
  intros Hpad Hpad'. unfold Py.strip_by.
  rewrite (lstrip_only pad _ Hpad), lstrip_app.
  destruct (Py.lstrip_by sp s) as [|c u] eqn:E.
  - by rewrite (lstrip_only_nil pad' Hpad').
  - rewrite reverse_append, lstrip_only; [done|].
    by apply (only_chars_rev_onto pad' EmptyString).
Qed.
End Padding.

Lemma isspace_int_isspace (c : ascii) :
  Py.isspace_int c = true -> Py.isspace c = true.
Proof.
  destruct c as [[] [] [] [] [] [] [] []]; vm_compute; intros H;
    first [reflexivity | discriminate H].
Qed.

Lemma only_chars_isspace (s : string) :
  only_chars Py.isspace_int s -> only_chars Py.isspace s.
Proof.
  induction s as [|c s IH]; [done|]. intros [Hc Hs].
  split; [by apply isspace_int_isspace|by apply IH].
Qed.

Lemma accepts_raw (edad_min : Z) (n e c : string) (v : canonical) :
  accepts edad_min (raw n e c) v
  <-> Py.int e = Some v.1.2 /\ edad_min <= v.1.2
      /\ v.1.1 = Py.capitalize (Py.lower (Py.strip n))
      /\ v.2 = Py.title (Py.lower (Py.strip c)).
Proof.
  destruct (raw_lookup n e c) as (L1 & L2 & L3). split.
  - intros (x & y & z & Hx & Hy & Hz & H).
    rewrite L1 in Hx. rewrite L2 in Hy. rewrite L3 in Hz.
    injection Hx as <-. injection Hy as <-. by injection Hz as <-.
  - intros H. by exists n, e, c.
Qed.

(** X27. White space around a field does not matter: padding the name,
    the age and the city of a row on either side with tabs, line breaks
    or blanks changes neither whether the row is accepted nor the valid
    record it gives, in both transformers. *)
Theorem surrounding_white_space_does_not_matter
    (n e c : string) (p1 q1 p2 q2 p3 q3 : string) (edad_min : Z) :
  only_chars Py.isspace_int p1 -> only_chars Py.isspace_int q1 ->
  only_chars Py.isspace_int p2 -> only_chars Py.isspace_int q2 ->
  only_chars Py.isspace_int p3 -> only_chars Py.isspace_int q3 ->
  let padded := raw (p1 +:+ n +:+ q1) (p2 +:+ e +:+ q2) (p3 +:+ c +:+ q3) in
  valid_of (IncrementalAudit.transform_row edad_min padded)
  = valid_of (IncrementalAudit.transform_row edad_min (raw n e c))
  /\ valid_of (Batch.transform_row edad_min padded)
     = valid_of (Batch.transform_row edad_min (raw n e c)).
Proof.
  intros H1 H1' H2 H2' H3 H3' padded.
  assert (Hacc : forall v, accepts edad_min padded v
                           <-> accepts edad_min (raw n e c) v).
  { intros v. unfold padded. rewrite !accepts_raw.
    unfold Py.int, Py.strip.
    by rewrite !strip_pad by (done || by apply only_chars_isspace). }
  split; apply option_eq; intros v; rewrite !valid_of_inl.
  - by rewrite !audit_row_accepts.
  - by rewrite !batch_row_accepts.
Qed.

Lemma surrounding_white_space_does_not_matter_witness :
  only_chars Py.isspace_int "  " /\ only_chars Py.isspace_int " "
  /\ only_chars Py.isspace_int ""
  /\ valid_of (IncrementalAudit.transform_row 25
                 (raw ("  " +:+ "guillermo" +:+ " ") ("" +:+ "26" +:+ " ")
                      (" " +:+ "san luis" +:+ "")))
     = valid_of (IncrementalAudit.transform_row 25 (raw "guillermo" "26" "san luis"))
  /\ valid_of (Batch.transform_row 25
                 (raw ("  " +:+ "guillermo" +:+ " ") ("" +:+ "26" +:+ " ")
                      (" " +:+ "san luis" +:+ "")))
     = valid_of (Batch.transform_row 25 (raw "guillermo" "26" "san luis")).
Proof.
  assert (Ha : only_chars Py.isspace_int "  ") by (by repeat split).
  assert (Hb : only_chars Py.isspace_int " ") by (by repeat split).
  assert (Hc : only_chars Py.isspace_int "") by exact I.
  split; [exact Ha|]. split; [exact Hb|]. split; [exact Hc|].
  exact (surrounding_white_space_does_not_matter "guillermo" "26" "san luis"
           "  " " " "" " " " " "" 25 Ha Hb Hc Hb Hb Hc).
Defined.
